(** * rss-reader: a shallow embedding of the fetch / dedup / notify pipeline

    Sources embedded here:
    - [src/rss_reader/fetcher.py]   (Article, cache file, fetch_feed, filter_by_age)
    - [src/rss_reader/storage.py]   (the processed_articles table)
    - [src/rss_reader/notifier.py]  (the three channel adapters and Notifier)
    - [src/main.py]                 (load_config, run_once)

    Conventions.  A Python [str] is the list of its code points.  A nullable
    SQL column and an [Optional] value are an [option].  Whatever the code
    gets from the outside world (the feed parser's answer, an HTTP response,
    the SMTP server, the summarizer, the wall clock) is an argument of the
    function that asks for it.  [print] calls are not modelled.  Text is
    taken to be well-formed where it is encoded for the fingerprint and
    for the table ([str.encode], the SQLite binding): no lone surrogate
    reaches those.  The encoding of the e-mail body is modelled, since
    it decides whether [send] returns.  The cache file is read and
    written without an IOError; its content may be anything, also no
    text at all.  The limits the interpreter puts on the [json] module
    (how deep it nests, how many digits an int has) are parameters. *)

From Stdlib Require Import List ZArith NArith Lia Bool Arith String Ascii.
From Stdlib Require Import Permutation Floats Sorted.
Import ListNotations.

Set Implicit Arguments.
Local Open Scope Z_scope.

(* ================================================================== *)
(** * Python values *)
(* ================================================================== *)

(** A Python string: its code points. *)
Definition pystr := list N.

(** An ASCII literal of the source. *)
Fixpoint lit (s : string) : pystr :=
  match s with
  | EmptyString => []
  | String a s' => N_of_ascii a :: lit s'
  end.

Fixpoint str_eqb (a b : pystr) : bool :=
  match a, b with
  | [], [] => true
  | x :: a', y :: b' => N.eqb x y && str_eqb a' b'
  | _, _ => false
  end.

Definition opt_str_eqb (a b : option pystr) : bool :=
  match a, b with
  | None, None => true
  | Some x, Some y => str_eqb x y
  | _, _ => false
  end.

(** [p in s], for two strings. *)
Fixpoint is_prefix (p s : pystr) : bool :=
  match p, s with
  | [], _ => true
  | x :: p', y :: s' => N.eqb x y && is_prefix p' s'
  | _ :: _, [] => false
  end.

Fixpoint is_infix (p s : pystr) : bool :=
  is_prefix p s
  || match s with
     | [] => false
     | _ :: s' => is_infix p s'
     end.

(** A Python [dict]: keys are unique and keep their insertion order.
    [keq] is the equality of the keys. *)
Definition pydict (K V : Type) := list (K * V).

Section Dict.
Context {K V : Type} (keq : K -> K -> bool).

Fixpoint dict_get (k : K) (d : pydict K V) : option V :=
  match d with
  | [] => None
  | (k', v) :: d' => if keq k k' then Some v else dict_get k d'
  end.

(** [d[k] = v]: an existing key keeps its place, a new one goes last. *)
Fixpoint dict_set (k : K) (v : V) (d : pydict K V) : pydict K V :=
  match d with
  | [] => [(k, v)]
  | (k', v') :: d' =>
      if keq k k' then (k', v) :: d' else (k', v') :: dict_set k v d'
  end.

(** [dict(pairs)] and the comprehension [{k: v for k, v in pairs}]. *)
Definition dict_of_pairs (pairs : list (K * V)) : pydict K V :=
  fold_left (fun d kv => dict_set (fst kv) (snd kv) d) pairs [].
End Dict.

(** The values the [json] module reads and writes, which are also the
    values the cache dictionary and the HTTP responses hold.  [JNull] is
    Python's [None]. *)
#[warnings="-register-all"]
Inductive json : Type :=
| JNull
| JBool (b : bool)
| JInt (z : Z)
| JFloat (f : float)
| JStr (s : pystr)
| JArr (items : list json)
| JObj (members : pydict pystr json).

(** Where a value sits inside another: under a key of a dictionary, at
    an index of a list. *)
Inductive step : Type :=
| Key (k : pystr)
| Index (n : nat).

Fixpoint json_at (path : list step) (v : json) : option json :=
  match path with
  | [] => Some v
  | Key k :: path' =>
      match v with
      | JObj members =>
          match dict_get str_eqb k members with
          | Some v' => json_at path' v'
          | None => None
          end
      | _ => None
      end
  | Index n :: path' =>
      match v with
      | JArr items =>
          match nth_error items n with
          | Some v' => json_at path' v'
          | None => None
          end
      | _ => None
      end
  end.

(** [out] is [items] without the items that fail [P], the others in their
    order. *)
Inductive kept {A : Type} (P : A -> Prop) : list A -> list A -> Prop :=
| kept_nil : kept P [] []
| kept_in a items out :
    P a -> kept P items out -> kept P (a :: items) (a :: out)
| kept_out a items out :
    ~ P a -> kept P items out -> kept P (a :: items) out.

(** What a call that may raise gives back: [Raises e] stands for an
    exception of class [Exception], [e] being its name or message. *)
Inductive outcome (A : Type) : Type :=
| Returns (a : A)
| Raises (e : pystr).
Arguments Returns {A} a.
Arguments Raises {A} e.

(* ================================================================== *)
(** * hashlib.sha256 *)
(* ================================================================== *)

Module Sha256.

(** [str.encode()]: UTF-8. *)
Definition utf8_char (c : N) : list Z :=
  let z := Z.of_N c in
  if z <? 128 then [z]
  else if z <? 2048 then
    [Z.lor 192 (Z.shiftr z 6); Z.lor 128 (Z.land z 63)]
  else if z <? 65536 then
    [Z.lor 224 (Z.shiftr z 12);
     Z.lor 128 (Z.land (Z.shiftr z 6) 63);
     Z.lor 128 (Z.land z 63)]
  else
    [Z.lor 240 (Z.shiftr z 18);
     Z.lor 128 (Z.land (Z.shiftr z 12) 63);
     Z.lor 128 (Z.land (Z.shiftr z 6) 63);
     Z.lor 128 (Z.land z 63)].

Definition encode (s : pystr) : list Z := flat_map utf8_char s.

Definition w32 (x : Z) : Z := x mod 4294967296.
Definition rotr (x n : Z) : Z :=
  w32 (Z.lor (Z.shiftr x n) (Z.shiftl x (32 - n))).
Definition add32 (x y : Z) : Z := w32 (x + y).

Definition ch (x y z : Z) : Z :=
  Z.lxor (Z.land x y) (Z.land (Z.lxor x 4294967295) z).
Definition maj (x y z : Z) : Z :=
  Z.lxor (Z.lxor (Z.land x y) (Z.land x z)) (Z.land y z).
Definition bsig0 (x : Z) : Z := Z.lxor (Z.lxor (rotr x 2) (rotr x 13)) (rotr x 22).
Definition bsig1 (x : Z) : Z := Z.lxor (Z.lxor (rotr x 6) (rotr x 11)) (rotr x 25).
Definition ssig0 (x : Z) : Z := Z.lxor (Z.lxor (rotr x 7) (rotr x 18)) (Z.shiftr x 3).
Definition ssig1 (x : Z) : Z := Z.lxor (Z.lxor (rotr x 17) (rotr x 19)) (Z.shiftr x 10).

(** The round constants are the first 32 bits of the fractional parts of
    the cube roots of the first 64 primes, the initial state those of the
    square roots of the first 8. *)
Definition is_prime (n : Z) : bool :=
  forallb (fun d => negb (n mod Z.of_nat d =? 0)) (seq 2 (Z.to_nat n - 2)).

Definition primes (count : nat) : list Z :=
  firstn count (filter is_prime (map Z.of_nat (seq 2 310))).

(** The integer cube root of [n], one bit at a time from bit [k] down. *)
Fixpoint cube_root (k : nat) (n r : Z) : Z :=
  match k with
  | O => r
  | S k' =>
      let c := r + 2 ^ Z.of_nat k' in
      cube_root k' n (if c * c * c <=? n then c else r)
  end.

Definition K : list Z :=
  Eval vm_compute in
    map (fun p => w32 (cube_root 36 (p * 2 ^ 96) 0)) (primes 64).

Definition H0 : list Z :=
  Eval vm_compute in map (fun p => w32 (Z.sqrt (p * 2 ^ 64))) (primes 8).

(** The message followed by the bit 1, zeros, and its length in bits on
    eight bytes. *)
Definition be_bytes (n : nat) (x : Z) : list Z :=
  map (fun i => Z.land (Z.shiftr x (8 * Z.of_nat i)) 255) (rev (seq 0 n)).

Definition pad (msg : list Z) : list Z :=
  let len := Z.of_nat (List.length msg) in
  let zeros := Z.to_nat ((55 - len) mod 64) in
  msg ++ [128] ++ repeat 0 zeros ++ be_bytes 8 (8 * len).

Fixpoint be_words (fuel : nat) (bs : list Z) : list Z :=
  match fuel, bs with
  | S fuel', a :: b :: c :: d :: bs' =>
      (Z.shiftl a 24 + Z.shiftl b 16 + Z.shiftl c 8 + d) :: be_words fuel' bs'
  | _, _ => []
  end.

(** The schedule is kept newest word first. *)
Fixpoint schedule (n : nat) (w : list Z) : list Z :=
  match n with
  | O => w
  | S n' =>
      let x := add32 (add32 (ssig1 (nth 1 w 0)) (nth 6 w 0))
                     (add32 (ssig0 (nth 14 w 0)) (nth 15 w 0)) in
      schedule n' (x :: w)
  end.

Definition round (st : list Z) (kw : Z * Z) : list Z :=
  match st with
  | [a; b; c; d; e; f; g; h] =>
      let t1 := add32 (add32 (add32 h (bsig1 e)) (add32 (ch e f g) (fst kw))) (snd kw) in
      let t2 := add32 (bsig0 a) (maj a b c) in
      [add32 t1 t2; a; b; c; add32 d t1; e; f; g]
  | _ => st
  end.

Definition compress (h : list Z) (block : list Z) : list Z :=
  let w := rev (schedule 48 (rev block)) in
  let st := fold_left round (combine K w) h in
  map (fun p => add32 (fst p) (snd p)) (combine h st).

Fixpoint blocks (fuel : nat) (ws : list Z) (h : list Z) : list Z :=
  match fuel with
  | O => h
  | S fuel' =>
      match ws with
      | [] => h
      | _ => blocks fuel' (skipn 16 ws) (compress h (firstn 16 ws))
      end
  end.

Definition digest (msg : list Z) : list Z :=
  let bs := pad msg in
  let ws := be_words (List.length bs) bs in
  blocks (List.length ws) ws H0.

Definition hex_digit (d : Z) : N :=
  if d <? 10 then Z.to_N (48 + d) else Z.to_N (87 + d).

Definition hex_word (w : Z) : pystr :=
  map (fun i => hex_digit (Z.land (Z.shiftr w (4 * Z.of_nat i)) 15)) (rev (seq 0 8)).

Definition hexdigest (msg : list Z) : pystr := flat_map hex_word (digest msg).

End Sha256.

(* ================================================================== *)
(** * fetcher.py: the Article record *)
(* ================================================================== *)

(** A naive [datetime]: microseconds since 0001-01-01T00:00:00. *)
Definition datetime := Z.

Record Article : Type := mkArticle {
  title : pystr;
  url : pystr;
  content : pystr;
  published : option datetime;
  feed_name : pystr;
  category : pystr
}.

(** [hashlib.sha256(self.url.encode()).hexdigest()[:16]] *)
Definition url_hash (a : Article) : pystr :=
  firstn 16 (Sha256.hexdigest (Sha256.encode (url a))).
Arguments url_hash : simpl never.

(** One of [0-9a-f]. *)
Definition lower_hex (c : N) : bool :=
  ((48 <=? c) && (c <=? 57) || (97 <=? c) && (c <=? 102))%N.


(* ================================================================== *)
(** * The json module: [json.dumps(obj, indent=2)] and [json.loads] *)
(* ================================================================== *)

Module Json.
Local Open Scope N_scope.

Definition chr (a : ascii) : N := N_of_ascii a.
Definition quote : N := 34.
Definition backslash : N := 92.

(** ** Encoding *)

Definition hex_digit (d : N) : N := if d <? 10 then 48 + d else 87 + d.

(** ['{0:04x}'.format(n)] *)
Definition hex4 (n : N) : pystr :=
  [hex_digit (N.land (N.shiftr n 12) 15); hex_digit (N.land (N.shiftr n 8) 15);
   hex_digit (N.land (N.shiftr n 4) 15); hex_digit (N.land n 15)].

Definition u_escape (n : N) : pystr := backslash :: chr "u" :: hex4 n.

(** [ensure_ascii] is on: everything but the printable ASCII characters is
    escaped, a code point beyond the basic plane as a surrogate pair. *)
Definition escape_char (c : N) : pystr :=
  if c =? quote then [backslash; quote]
  else if c =? backslash then [backslash; backslash]
  else if c =? 10 then [backslash; chr "n"]
  else if c =? 13 then [backslash; chr "r"]
  else if c =? 9 then [backslash; chr "t"]
  else if c =? 12 then [backslash; chr "f"]
  else if c =? 8 then [backslash; chr "b"]
  else if (32 <=? c) && (c <=? 126) then [c]
  else if c <? 65536 then u_escape c
  else
    let n := c - 65536 in
    u_escape (N.lor 55296 (N.land (N.shiftr n 10) 1023))
    ++ u_escape (N.lor 56320 (N.land n 1023)).

Definition encode_str (s : pystr) : pystr :=
  quote :: flat_map escape_char s ++ [quote].

(** [str(int)] *)
Fixpoint uint_digits (u : Decimal.uint) : pystr :=
  match u with
  | Decimal.Nil => []
  | Decimal.D0 u' => 48 :: uint_digits u'
  | Decimal.D1 u' => 49 :: uint_digits u'
  | Decimal.D2 u' => 50 :: uint_digits u'
  | Decimal.D3 u' => 51 :: uint_digits u'
  | Decimal.D4 u' => 52 :: uint_digits u'
  | Decimal.D5 u' => 53 :: uint_digits u'
  | Decimal.D6 u' => 54 :: uint_digits u'
  | Decimal.D7 u' => 55 :: uint_digits u'
  | Decimal.D8 u' => 56 :: uint_digits u'
  | Decimal.D9 u' => 57 :: uint_digits u'
  end.

Definition int_str (z : Z) : pystr :=
  match z with
  | Z0 => [48]
  | Zpos p => uint_digits (Pos.to_uint p)
  | Zneg p => chr "-" :: uint_digits (Pos.to_uint p)
  end.

Definition newline_indent (level : nat) : pystr :=
  10 :: repeat 32 (2 * level)%nat.

(** The items of a container, the first without separator. *)
Fixpoint join (sep : pystr) (chunks : list pystr) : pystr :=
  match chunks with
  | [] => []
  | [x] => x
  | x :: rest => x ++ sep ++ join sep rest
  end.

(** The exceptions that leave the decoder and the encoder. *)
Definition JSONDecodeError : pystr := lit "JSONDecodeError".
Definition RecursionError : pystr := lit "RecursionError".
Definition ValueError : pystr := lit "ValueError".

Section WithFloats.
(** [float.__repr__] and [float(literal)] are the interpreter's, and so
    is [sys.get_int_max_str_digits()] (4300 unless it was set). *)
Variable float_repr : float -> pystr.
Variable float_of_str : pystr -> float.
Variable int_max_str_digits : nat.

(** [int(literal)] and [repr(int)] raise a ValueError for more digits
    than the limit; 0 lifts it, and up to 640 digits no limit applies. *)
Definition too_many_digits (digits : nat) : bool :=
  ((640 <? digits) && (0 <? int_max_str_digits)
   && (int_max_str_digits <? digits))%nat.

Definition float_str (f : float) : pystr :=
  if PrimFloat.is_nan f then lit "NaN"
  else if PrimFloat.is_infinity f then
    (if PrimFloat.ltb f PrimFloat.zero then lit "-Infinity" else lit "Infinity")
  else float_repr f.

(** [json.dumps(v, indent=2)], [level] containers deep. *)
Fixpoint encode (level : nat) (v : json) : pystr :=
  match v with
  | JNull => lit "null"
  | JBool true => lit "true"
  | JBool false => lit "false"
  | JInt z => int_str z
  | JFloat f => float_str f
  | JStr s => encode_str s
  | JArr [] => lit "[]"
  | JArr items =>
      chr "[" :: newline_indent (S level)
      ++ join (chr "," :: newline_indent (S level))
              (map (encode (S level)) items)
      ++ newline_indent level ++ [chr "]"]
  | JObj [] => lit "{}"
  | JObj members =>
      chr "{" :: newline_indent (S level)
      ++ join (chr "," :: newline_indent (S level))
              (map (fun kv => encode_str (fst kv) ++ lit ": "
                              ++ encode (S level) (snd kv)) members)
      ++ newline_indent level ++ [chr "}"]
  end.

Definition dumps (v : json) : pystr := encode 0 v.

(** One member of a dictionary as [encode] writes it, and what follows
    a member: the members after it and the closing brace. *)
Definition member (level : nat) (kv : pystr * json) : pystr :=
  encode_str (fst kv) ++ lit ": " ++ encode (S level) (snd kv).

Fixpoint members_tail (level : nat) (ms : list (pystr * json)) : pystr :=
  match ms with
  | [] => newline_indent level ++ [chr "}"]
  | kv :: ms' =>
      chr "," :: newline_indent (S level) ++ member level kv
      ++ members_tail level ms'
  end.

(** ** Decoding *)

Definition is_ws (c : N) : bool :=
  (c =? 32) || (c =? 9) || (c =? 10) || (c =? 13).

Fixpoint skip_ws (s : pystr) : pystr :=
  match s with
  | c :: s' => if is_ws c then skip_ws s' else s
  | [] => []
  end.

Definition hex_val (c : N) : option N :=
  if (48 <=? c) && (c <=? 57) then Some (c - 48)
  else if (97 <=? c) && (c <=? 102) then Some (c - 87)
  else if (65 <=? c) && (c <=? 70) then Some (c - 55)
  else None.

Definition hex4_val (a b c d : N) : option N :=
  match hex_val a, hex_val b, hex_val c, hex_val d with
  | Some x, Some y, Some z, Some w => Some (((x * 16 + y) * 16 + z) * 16 + w)
  | _, _, _, _ => None
  end.

Definition simple_escape (e : N) : option N :=
  if e =? quote then Some quote
  else if e =? backslash then Some backslash
  else if e =? chr "/" then Some (chr "/")
  else if e =? chr "b" then Some 8
  else if e =? chr "f" then Some 12
  else if e =? chr "n" then Some 10
  else if e =? chr "r" then Some 13
  else if e =? chr "t" then Some 9
  else None.

Definition is_high_surrogate (u : N) : bool := (55296 <=? u) && (u <=? 56319).
Definition is_low_surrogate (u : N) : bool := (56320 <=? u) && (u <=? 57343).
Definition join_surrogates (hi lo : N) : N :=
  65536 + N.lor (N.shiftl (hi - 55296) 10) (lo - 56320).

(** One more decoded character in front of what the rest decodes to. *)
Definition cons_char (c : N) (r : option (pystr * pystr))
  : option (pystr * pystr) :=
  match r with
  | Some (str, rest) => Some (c :: str, rest)
  | None => None
  end.

(** [scanstring], strict: [s] starts after the opening quote; the string
    and what follows its closing quote. *)
Fixpoint scanstring (s : pystr) : option (pystr * pystr) :=
  match s with
  | [] => None
  | c :: s1 =>
      if c =? quote then Some ([], s1)
      else if c =? backslash then
        match s1 with
        | [] => None
        | e :: s2 =>
            if e =? chr "u" then
              match s2 with
              | h1 :: h2 :: h3 :: h4 :: s3 =>
                  match hex4_val h1 h2 h3 h4 with
                  | None => None
                  | Some u =>
                      if is_high_surrogate u then
                        match s3 with
                        | b :: m :: l1 :: l2 :: l3 :: l4 :: s4 =>
                            if (b =? backslash) && (m =? chr "u") then
                              match hex4_val l1 l2 l3 l4 with
                              | None => None
                              | Some u2 =>
                                  if is_low_surrogate u2 then
                                    cons_char (join_surrogates u u2)
                                              (scanstring s4)
                                  else cons_char u (scanstring s3)
                              end
                            else cons_char u (scanstring s3)
                        | _ => cons_char u (scanstring s3)
                        end
                      else cons_char u (scanstring s3)
                  end
              | _ => None
              end
            else
              match simple_escape e with
              | None => None
              | Some x => cons_char x (scanstring s2)
              end
        end
      else if c <? 32 then None
      else cons_char c (scanstring s1)
  end.

Definition is_digit (c : N) : bool := (48 <=? c) && (c <=? 57).

Fixpoint span_digits (s : pystr) : pystr * pystr :=
  match s with
  | c :: s' =>
      if is_digit c then let (ds, rest) := span_digits s' in (c :: ds, rest)
      else ([], s)
  | [] => ([], [])
  end.

Definition digits_val (ds : pystr) : Z :=
  fold_left (fun acc d => (acc * 10 + Z.of_N (d - 48))%Z) ds 0%Z.

(** The integer part of a number: [0], or digits that start with none. *)
Definition scan_int (s : pystr) : option (pystr * pystr) :=
  match s with
  | c :: s' =>
      if c =? 48 then Some ([c], s')
      else if is_digit c then Some (span_digits s)
      else None
  | [] => None
  end.

(** [\.[0-9]+] *)
Definition scan_frac (s : pystr) : pystr * pystr :=
  match s with
  | c :: s' =>
      if c =? chr "." then
        match span_digits s' with
        | ([], _) => ([], s)
        | (ds, rest) => (c :: ds, rest)
        end
      else ([], s)
  | [] => ([], s)
  end.

(** [[eE][-+]?[0-9]+] *)
Definition scan_exp (s : pystr) : pystr * pystr :=
  match s with
  | c :: s' =>
      if (c =? chr "e") || (c =? chr "E") then
        match s' with
        | g :: s'' =>
            if (g =? chr "-") || (g =? chr "+") then
              match span_digits s'' with
              | ([], _) => ([], s)
              | (ds, rest) => (c :: g :: ds, rest)
              end
            else
              match span_digits s' with
              | ([], _) => ([], s)
              | (ds, rest) => (c :: ds, rest)
              end
        | [] => ([], s)
        end
      else ([], s)
  | [] => ([], s)
  end.

(** [None]: no number starts here. *)
Definition scan_number (s : pystr) : option (outcome (json * pystr)) :=
  let (sign, s0) :=
    match s with
    | c :: s' => if c =? chr "-" then ([c], s') else ([], s)
    | [] => ([], s)
    end in
  match scan_int s0 with
  | None => None
  | Some (int_part, s1) =>
      let (frac, s2) := scan_frac s1 in
      let (exp, s3) := scan_exp s2 in
      match frac, exp with
      | [], [] =>
          if too_many_digits (List.length int_part)
          then Some (Raises ValueError)
          else
            let n := digits_val int_part in
            Some (Returns (JInt (match sign with [] => n | _ => (- n)%Z end), s3))
      | _, _ =>
          Some (Returns (JFloat (float_of_str (sign ++ int_part ++ frac ++ exp)),
                         s3))
      end
  end.

Fixpoint strip_prefix (p s : pystr) : option pystr :=
  match p, s with
  | [], _ => Some s
  | x :: p', y :: s' => if x =? y then strip_prefix p' s' else None
  | _ :: _, [] => None
  end.

(** [scan_once], with [JSONObject] and [JSONArray] after their opening
    bracket.  Every call costs one unit of [fuel].  [depth] is how many
    containers, one inside the other, the interpreter's recursion limit
    still lets the decoder enter: entering one more is a RecursionError. *)
Fixpoint scan_once (depth fuel : nat) (s : pystr) : outcome (json * pystr) :=
  match fuel with
  | O => Raises JSONDecodeError
  | S fuel' =>
      match s with
      | [] => Raises JSONDecodeError
      | c :: s1 =>
          if c =? quote then
            match scanstring s1 with
            | Some (str, rest) => Returns (JStr str, rest)
            | None => Raises JSONDecodeError
            end
          else if c =? chr "{" then
            match depth with
            | O => Raises RecursionError
            | S depth' =>
                match skip_ws s1 with
                | d :: s2 =>
                    if d =? chr "}" then Returns (JObj [], s2)
                    else if d =? quote then
                      match scan_members depth' fuel' s2 with
                      | Returns (pairs, rest) =>
                          Returns (JObj (dict_of_pairs str_eqb pairs), rest)
                      | Raises e => Raises e
                      end
                    else Raises JSONDecodeError
                | [] => Raises JSONDecodeError
                end
            end
          else if c =? chr "[" then
            match depth with
            | O => Raises RecursionError
            | S depth' =>
                match skip_ws s1 with
                | d :: s2 =>
                    if d =? chr "]" then Returns (JArr [], s2)
                    else
                      match scan_items depth' fuel' (d :: s2) with
                      | Returns (items, rest) => Returns (JArr items, rest)
                      | Raises e => Raises e
                      end
                | [] => Raises JSONDecodeError
                end
            end
          else
            match strip_prefix (lit "null") s with
            | Some rest => Returns (JNull, rest)
            | None =>
            match strip_prefix (lit "true") s with
            | Some rest => Returns (JBool true, rest)
            | None =>
            match strip_prefix (lit "false") s with
            | Some rest => Returns (JBool false, rest)
            | None =>
            match scan_number s with
            | Some r => r
            | None =>
            match strip_prefix (lit "NaN") s with
            | Some rest => Returns (JFloat PrimFloat.nan, rest)
            | None =>
            match strip_prefix (lit "Infinity") s with
            | Some rest => Returns (JFloat PrimFloat.infinity, rest)
            | None =>
            match strip_prefix (lit "-Infinity") s with
            | Some rest => Returns (JFloat PrimFloat.neg_infinity, rest)
            | None => Raises JSONDecodeError
            end end end end end end end
      end
  end

(** The members of an object, from after the opening quote of a key up
    to the closing brace; [depth] is what is left for their values. *)
with scan_members (depth fuel : nat) (s : pystr)
  : outcome (list (pystr * json) * pystr) :=
  match fuel with
  | O => Raises JSONDecodeError
  | S fuel' =>
      match scanstring s with
      | None => Raises JSONDecodeError
      | Some (key, s1) =>
          match skip_ws s1 with
          | c :: s2 =>
              if c =? chr ":" then
                match scan_once depth fuel' (skip_ws s2) with
                | Raises e => Raises e
                | Returns (v, s3) =>
                    match skip_ws s3 with
                    | d :: s4 =>
                        if d =? chr "}" then Returns ([(key, v)], s4)
                        else if d =? chr "," then
                          match skip_ws s4 with
                          | q :: s5 =>
                              if q =? quote then
                                match scan_members depth fuel' s5 with
                                | Returns (more, rest) =>
                                    Returns ((key, v) :: more, rest)
                                | Raises e => Raises e
                                end
                              else Raises JSONDecodeError
                          | [] => Raises JSONDecodeError
                          end
                        else Raises JSONDecodeError
                    | [] => Raises JSONDecodeError
                    end
                end
              else Raises JSONDecodeError
          | [] => Raises JSONDecodeError
          end
      end
  end

(** The items of an array, from its first item up to the closing
    bracket. *)
with scan_items (depth fuel : nat) (s : pystr)
  : outcome (list json * pystr) :=
  match fuel with
  | O => Raises JSONDecodeError
  | S fuel' =>
      match scan_once depth fuel' s with
      | Raises e => Raises e
      | Returns (v, s1) =>
          match skip_ws s1 with
          | d :: s2 =>
              if d =? chr "]" then Returns ([v], s2)
              else if d =? chr "," then
                match scan_items depth fuel' (skip_ws s2) with
                | Returns (more, rest) => Returns (v :: more, rest)
                | Raises e => Raises e
                end
              else Raises JSONDecodeError
          | [] => Raises JSONDecodeError
          end
      end
  end.

(** [json.loads(text)]: the value, or a JSONDecodeError, or the
    RecursionError or ValueError that the text ran into before.  No call
    chain of the decoder is longer than twice the text. *)
Definition loads (depth : nat) (text : pystr) : outcome json :=
  match text with
  | 65279 :: _ => Raises JSONDecodeError
  | _ =>
      match scan_once depth (2 * List.length text + 2) (skip_ws text) with
      | Returns (v, rest) =>
          match skip_ws rest with
          | [] => Returns v
          | _ => Raises JSONDecodeError
          end
      | Raises e => Raises e
      end
  end.

(** What leaves [json.dumps(v, indent=2)], if anything: the first, in
    the order of the text, of a container that lies deeper than [depth]
    lets the encoder go (RecursionError) and an integer with too many
    digits (ValueError). *)
Definition first_error (errors : list (option pystr)) : option pystr :=
  fold_right (fun e later => match e with Some _ => e | None => later end)
             None errors.

Fixpoint encoder_error (depth : nat) (v : json) {struct v} : option pystr :=
  match v with
  | JInt z =>
      if too_many_digits (List.length (int_str (Z.abs z)))
      then Some ValueError else None
  | JArr items =>
      match depth with
      | O => Some RecursionError
      | S depth' => first_error (map (encoder_error depth') items)
      end
  | JObj members =>
      match depth with
      | O => Some RecursionError
      | S depth' =>
          first_error (map (fun kv => encoder_error depth' (snd kv)) members)
      end
  | _ => None
  end.

End WithFloats.

(** ** Well-formed text and dictionaries *)

(** A Unicode scalar value: a code point that is no surrogate. *)
Definition is_scalar (c : N) : bool :=
  (c <? 1114112) && negb ((55296 <=? c) && (c <=? 57343)).

Definition text_ok (s : pystr) : bool := forallb is_scalar s.

Definition good_member (good : json -> Prop) (kv : pystr * json) : Prop :=
  text_ok (fst kv) = true /\ good (snd kv).

Definition good_string (v : json) : Prop :=
  exists s, v = JStr s /\ text_ok s = true.

(** A dictionary with distinct keys whose values are [inner]. *)
Definition good_dict (inner : json -> Prop) (v : json) : Prop :=
  exists ms, v = JObj ms /\ NoDup (map fst ms)
             /\ Forall (good_member inner) ms.

(** The keys of a dictionary are distinct, and so are the keys of the
    dictionaries it holds. *)
Definition distinct_keys (v : json) : Prop :=
  match v with
  | JObj ms => NoDup (map fst ms)
  | _ => True
  end.

Definition distinct_keys2 (v : json) : Prop :=
  match v with
  | JObj ms =>
      NoDup (map fst ms) /\ Forall (fun kv => distinct_keys (snd kv)) ms
  | _ => True
  end.

End Json.

(* ================================================================== *)
(** * fetcher.py *)
(* ================================================================== *)

Module Fetcher.

(** ** datetime and timedelta *)

(** 9999-12-31T23:59:59.999999, the last [datetime]. *)
Definition datetime_max : Z := 315537897599999999.

Definition valid_datetime (d : Z) : bool := (0 <=? d) && (d <=? datetime_max).

Definition is_leap (y : Z) : bool :=
  (y mod 4 =? 0) && (negb (y mod 100 =? 0) || (y mod 400 =? 0)).

Definition days_before_year (y : Z) : Z :=
  let p := y - 1 in p * 365 + p / 4 - p / 100 + p / 400.

Definition days_in_month (y m : Z) : Z :=
  if m =? 2 then (if is_leap y then 29 else 28)
  else if (m =? 4) || (m =? 6) || (m =? 9) || (m =? 11) then 30
  else 31.

Definition days_before_month (y m : Z) : Z :=
  fold_left Z.add
    (map (fun k => days_in_month y (Z.of_nat k)) (seq 1 (Z.to_nat (m - 1)))) 0.

(** The first six fields of a [time.struct_time]. *)
Record time_tuple : Type := mkTime {
  tm_year : Z; tm_mon : Z; tm_mday : Z;
  tm_hour : Z; tm_min : Z; tm_sec : Z
}.

(** [datetime(y, m, d, H, M, S)]: a ValueError outside the calendar. *)
Definition make_datetime (t : time_tuple) : outcome datetime :=
  let y := tm_year t in
  let m := tm_mon t in
  if (1 <=? y) && (y <=? 9999) && (1 <=? m) && (m <=? 12)
     && (1 <=? tm_mday t) && (tm_mday t <=? days_in_month y m)
     && (0 <=? tm_hour t) && (tm_hour t <=? 23)
     && (0 <=? tm_min t) && (tm_min t <=? 59)
     && (0 <=? tm_sec t) && (tm_sec t <=? 59)
  then
    let days := days_before_year y + days_before_month y m + tm_mday t - 1 in
    Returns ((((days * 24 + tm_hour t) * 60 + tm_min t) * 60 + tm_sec t) * 1000000)
  else Raises (lit "ValueError").

Definition us_per_hour : Z := 3600000000.

(** [timedelta(hours=h)], in microseconds: an OverflowError when it spans
    more than 999999999 days. *)
Definition timedelta_hours (h : Z) : outcome Z :=
  if (-999999999 <=? h / 24) && (h / 24 <=? 999999999)
  then Returns (h * us_per_hour)
  else Raises (lit "OverflowError").

(** [d - delta]: an OverflowError when the result leaves the years 1 to
    9999. *)
Definition datetime_sub (d : datetime) (delta : Z) : outcome datetime :=
  if valid_datetime (d - delta) then Returns (d - delta)
  else Raises (lit "OverflowError").

(** ** filter_by_age *)

(** [now] is the answer of [datetime.now()]. *)
Definition filter_by_age (now : datetime) (articles : list Article)
    (max_age_hours : Z) : outcome (list Article) :=
  match timedelta_hours max_age_hours with
  | Raises e => Raises e
  | Returns delta =>
      match datetime_sub now delta with
      | Raises e => Raises e
      | Returns cutoff =>
          Returns
            (fold_left
               (fun filtered article =>
                  match published article with
                  | None => filtered ++ [article]
                  | Some p =>
                      if cutoff <=? p then filtered ++ [article] else filtered
                  end)
               articles [])
      end
  end.

(** [article] carries no date, or one that is not before [cutoff]. *)
Definition recent (cutoff : datetime) (article : Article) : Prop :=
  match published article with
  | None => True
  | Some p => cutoff <= p
  end.

(** ** The cache file *)

(** [feed_cache.json] as [read_text] finds it: not there, a text, or
    bytes that are no text in the encoding of the locale.  The file
    system itself does not fail here: what is there can be read, and the
    file can be written. *)
Inductive file : Type :=
| Absent
| Text (text : pystr)
| NotText.

Section CacheFile.
Variable float_repr : float -> pystr.
Variable float_of_str : pystr -> float.
Variable int_max_str_digits : nat.
(** How many containers deep the interpreter's recursion limit lets the
    decoder and the encoder go from where they are called. *)
Variable decoder_depth : nat.
Variable encoder_depth : nat.

(** Only a JSONDecodeError (and an IOError) is caught: the
    UnicodeDecodeError of [read_text] and the RecursionError and
    ValueError of [json.loads] leave the function. *)
Definition load_cache (f : file) : outcome json :=
  match f with
  | Absent => Returns (JObj [])
  | NotText => Raises (lit "UnicodeDecodeError")
  | Text text =>
      match Json.loads float_of_str int_max_str_digits decoder_depth text with
      | Returns v => Returns v
      | Raises e =>
          if str_eqb e Json.JSONDecodeError then Returns (JObj [])
          else Raises e
      end
  end.

(** [CACHE_FILE.write_text(json.dumps(cache, indent=2))]: the file
    afterwards; when [json.dumps] raises nothing is written. *)
Definition save_cache (cache : json) : outcome file :=
  match Json.encoder_error int_max_str_digits encoder_depth cache with
  | Some e => Raises e
  | None => Returns (Text (Json.dumps float_repr cache))
  end.
End CacheFile.

(** A dictionary whose keys and values are strings of text, as the
    [etag] and [modified] entries of one url. *)
Definition string_dict (v : json) : bool :=
  match v with
  | JObj ms =>
      forallb (fun kv => Json.text_ok (fst kv)
                         && match snd kv with
                            | JStr s => Json.text_ok s
                            | _ => false
                            end) ms
  | _ => false
  end.

(** A validator mapping: a dictionary from urls to such dictionaries. *)
Definition validator_mapping (v : json) : bool :=
  match v with
  | JObj ms =>
      forallb (fun kv => Json.text_ok (fst kv) && string_dict (snd kv)) ms
  | _ => false
  end.

(** ** clean_html *)

Definition lt_sign : N := 60.
Definition gt_sign : N := 62.

(** The characters [[^>]+] runs over, and what follows them. *)
Fixpoint span_not_gt (s : pystr) : pystr * pystr :=
  match s with
  | c :: s' =>
      if N.eqb c gt_sign then ([], s)
      else let (run, rest) := span_not_gt s' in (c :: run, rest)
  | [] => ([], [])
  end.

(** [re.sub(r'<[^>]+>', '', raw)]: a [<], at least one character that is
    no [>], and the [>] after them are dropped; the scan goes on behind
    them. *)
Fixpoint strip_tags (fuel : nat) (s : pystr) : pystr :=
  match fuel with
  | O => s
  | S fuel' =>
      match s with
      | [] => []
      | c :: s' =>
          if N.eqb c lt_sign then
            match span_not_gt s' with
            | (_ :: _, _ :: rest) => strip_tags fuel' rest
            | _ => c :: strip_tags fuel' s'
            end
          else c :: strip_tags fuel' s'
      end
  end.

(** [str.isspace] on one character, which is also the [\s] of [re]. *)
Definition isspace (c : N) : bool :=
  ((9 <=? c) && (c <=? 13) || (28 <=? c) && (c <=? 32)
   || (c =? 133) || (c =? 160) || (c =? 5760)
   || (8192 <=? c) && (c <=? 8202) || (c =? 8232) || (c =? 8233)
   || (c =? 8239) || (c =? 8287) || (c =? 12288))%N.

(** [re.sub(r'\s+', ' ', text)]; [in_run]: the character before was
    white space. *)
Fixpoint collapse_spaces (in_run : bool) (s : pystr) : pystr :=
  match s with
  | [] => []
  | c :: s' =>
      if isspace c then
        (if in_run then collapse_spaces true s' else 32%N :: collapse_spaces true s')
      else c :: collapse_spaces false s'
  end.

Fixpoint lstrip (s : pystr) : pystr :=
  match s with
  | c :: s' => if isspace c then lstrip s' else s
  | [] => []
  end.

Definition strip (s : pystr) : pystr := rev (lstrip (rev (lstrip s))).

(** [re.search(r'<[^>]+>', s) is not None] *)
Fixpoint has_tag (s : pystr) : bool :=
  match s with
  | [] => false
  | c :: s' =>
      (N.eqb c lt_sign
       && match span_not_gt s' with
          | (_ :: _, _ :: _) => true
          | _ => false
          end)
      || has_tag s'
  end.

(** Every white space character of [s] is a plain space, and none comes
    right after another; [after_space] says that one came right before
    [s]. *)
Fixpoint single_spaced (after_space : bool) (s : pystr) : bool :=
  match s with
  | [] => true
  | c :: s' =>
      if isspace c
      then N.eqb c 32 && negb after_space && single_spaced true s'
      else single_spaced false s'
  end.

(** Whether [s] ends in white space, [b] standing for what came before
    it. *)
Fixpoint ends_in_space (b : bool) (s : pystr) : bool :=
  match s with
  | [] => b
  | c :: s' => ends_in_space (isspace c) s'
  end.

(** What a text starts with: white space or not. *)
Definition starts_with_space (s : pystr) : bool :=
  match s with
  | [] => false
  | c :: _ => isspace c
  end.

Section Feeds.
(** [html.unescape], with its table of entities, is the library's. *)
Variable html_unescape : pystr -> pystr.

Definition clean_html (raw_html : pystr) : pystr :=
  let text := strip_tags (List.length raw_html) raw_html in
  let text := html_unescape text in
  strip (collapse_spaces false text).

(** ** What feedparser hands back *)

(** An entry, as the code probes it: a field is [None] when the entry
    has no such attribute (or a false one, for the dates). *)
Record entry : Type := mkEntry {
  e_title : option pystr;
  e_link : option pystr;
  e_content : option (list (option pystr));
  e_summary : option pystr;
  e_description : option pystr;
  e_published_parsed : option time_tuple;
  e_updated_parsed : option time_tuple
}.

Record feed : Type := mkFeed {
  status : option Z;
  etag : option pystr;
  modified : option pystr;
  bozo : bool;
  entries : list entry
}.

Record feed_config : Type := mkFeedConfig {
  name : pystr;
  feed_url : pystr;
  feed_category : option pystr
}.

Definition parse_published_date (e : entry) : option datetime :=
  let updated :=
    match e_updated_parsed e with
    | Some t =>
        match make_datetime t with
        | Returns d => Some d
        | Raises _ => None
        end
    | None => None
    end in
  match e_published_parsed e with
  | Some t =>
      match make_datetime t with
      | Returns d => Some d
      | Raises _ => updated
      end
  | None => updated
  end.

Definition default_title : pystr := [26080; 26631; 39064]%N.

(** content, else summary, else description. *)
Definition entry_content (e : entry) : pystr :=
  match e_content e with
  | Some (first :: _) =>
      match first with
      | Some value => value
      | None => []
      end
  | _ =>
      match e_summary e with
      | Some text => text
      | None =>
          match e_description e with
          | Some text => text
          | None => []
          end
      end
  end.

(** One turn of the loop over [feed.entries]. *)
Definition add_entry (name category : pystr) (articles : list Article)
    (e : entry) : list Article :=
  let title := match e_title e with Some t => t | None => default_title end in
  match e_link e with
  | None | Some [] => articles
  | Some link =>
      let content := clean_html (entry_content e) in
      let content :=
        if (3000 <? List.length content)%nat
        then firstn 3000 content ++ lit "..."
        else content in
      articles
        ++ [mkArticle title link content (parse_published_date e) name category]
  end.

(** ** fetch_feed and fetch_all_feeds *)

Variable world : Type.
(** [feedparser.parse(url, etag=etag, modified=modified)]. *)
Variable feedparser_parse :
  pystr -> json -> json -> world -> outcome feed * world.

Definition truthy (s : option pystr) : option pystr :=
  match s with
  | Some (_ :: _) => s
  | _ => None
  end.

(** [d.get(k)] *)
Definition get_or_none (k : pystr) (d : pydict pystr json) : json :=
  match dict_get str_eqb k d with
  | Some v => v
  | None => JNull
  end.

(** The validators kept for [url]; an AttributeError when the cache or
    the entry of [url] is no dictionary.  The lookup is made before the
    [try]. *)
Definition cached_validators (cache : json) (url : pystr)
  : outcome (pydict pystr json * pydict pystr json) :=
  match cache with
  | JObj c =>
      match dict_get str_eqb url c with
      | None => Returns (c, [])
      | Some (JObj feed_cache) => Returns (c, feed_cache)
      | Some _ => Raises (lit "AttributeError")
      end
  | _ => Raises (lit "AttributeError")
  end.

(** The conditional request [fetch_feed] makes for [cfg] with the
    validators [cache] holds for its url, and its answer. *)
Definition conditional_request (cfg : feed_config) (cache : json) (w : world)
  : outcome (outcome feed * world) :=
  match cached_validators cache (feed_url cfg) with
  | Raises e => Raises e
  | Returns (_, feed_cache) =>
      Returns (feedparser_parse (feed_url cfg)
                 (get_or_none (lit "etag") feed_cache)
                 (get_or_none (lit "modified") feed_cache) w)
  end.

(** The articles of one feed and the cache afterwards.  [Raises] is an
    exception that leaves the function. *)
Definition fetch_feed (cfg : feed_config) (cache : json) (w : world)
  : outcome (list Article * json) * world :=
  let category :=
    match feed_category cfg with Some c => c | None => lit "general" end in
  match cached_validators cache (feed_url cfg) with
  | Raises e => (Raises e, w)
  | Returns (c, feed_cache) =>
      let (answer, w') :=
        feedparser_parse (feed_url cfg) (get_or_none (lit "etag") feed_cache)
                         (get_or_none (lit "modified") feed_cache) w in
      match answer with
      | Raises _ => (Returns ([], cache), w')
      | Returns fd =>
          if match status fd with Some code => code =? 304 | None => false end
          then (Returns ([], cache), w')
          else
            let feed_cache :=
              match truthy (etag fd) with
              | Some t => dict_set str_eqb (lit "etag") (JStr t) feed_cache
              | None => feed_cache
              end in
            let feed_cache :=
              match truthy (modified fd) with
              | Some t => dict_set str_eqb (lit "modified") (JStr t) feed_cache
              | None => feed_cache
              end in
            let cache' := JObj (dict_set str_eqb (feed_url cfg) (JObj feed_cache) c) in
            if bozo fd && match entries fd with [] => true | _ => false end
            then (Returns ([], cache'), w')
            else
              (Returns (fold_left (add_entry (name cfg) category) (entries fd) [],
                        cache'), w')
      end
  end.

(** The loop of [fetch_all_feeds]. *)
Fixpoint fetch_loop (feeds_config : list feed_config)
    (all_articles : list Article) (cache : json) (w : world)
  : outcome (list Article * json) * world :=
  match feeds_config with
  | [] => (Returns (all_articles, cache), w)
  | cfg :: rest =>
      match fetch_feed cfg cache w with
      | (Raises e, w') => (Raises e, w')
      | (Returns (articles, cache'), w') =>
          fetch_loop rest (all_articles ++ articles) cache' w'
      end
  end.

Variable float_repr : float -> pystr.
Variable float_of_str : pystr -> float.
Variable int_max_str_digits : nat.
Variable decoder_depth : nat.
Variable encoder_depth : nat.

(** All the articles, and the cache file afterwards.  An exception of
    [load_cache], of a [fetch_feed] or of [save_cache] leaves the
    function, and the file is as it was. *)
Definition fetch_all_feeds (feeds_config : list feed_config) (f : file)
    (w : world) : outcome (list Article) * file * world :=
  match load_cache float_of_str int_max_str_digits decoder_depth f with
  | Raises e => (Raises e, f, w)
  | Returns cache0 =>
      match fetch_loop feeds_config [] cache0 w with
      | (Raises e, w') => (Raises e, f, w')
      | (Returns (all_articles, cache), w') =>
          match save_cache float_repr int_max_str_digits encoder_depth cache with
          | Raises e => (Raises e, f, w')
          | Returns f' => (Returns all_articles, f', w')
          end
      end
  end.

End Feeds.

(** ** What the fetch promises *)

(** What [fetch_feed] promises of an article it builds for [cfg]. *)
Definition well_formed_article (cfg : feed_config) (a : Article) : Prop :=
  url a <> []
  /\ feed_name a = name cfg
  /\ category a
     = match feed_category cfg with Some c => c | None => lit "general" end
  /\ (List.length (content a) <= 3003)%nat
  /\ match published a with
     | Some d => valid_datetime d = true
     | None => True
     end.

(** The validators of a parsed feed are well-formed text. *)
Definition text_validators (fd : feed) : Prop :=
  (forall t, etag fd = Some t -> Json.text_ok t = true)
  /\ (forall t, modified fd = Some t -> Json.text_ok t = true).

(** A cache that [json.dumps] writes and [json.loads] reads back as it
    is: distinct urls, each with a dictionary of well-formed strings. *)
Definition good_cache (m : json) : Prop :=
  Json.good_dict (Json.good_dict Json.good_string) m.

(** The links of the entries that have one, in the order of the feed. *)
Definition links (es : list entry) : list pystr :=
  flat_map (fun e => match e_link e with
                     | Some (c :: l) => [c :: l]
                     | _ => []
                     end) es.

End Fetcher.

(* ================================================================== *)
(** * storage.py *)
(* ================================================================== *)

Module Storage.

(** One row of [processed_articles].  [url_hash] and [url] are NOT NULL, the
    other columns are nullable.  [processed_at] holds the ISO text of a
    [datetime]; the row keeps the [datetime] itself. *)
Record row : Type := mkRow {
  id : Z;
  r_url_hash : pystr;
  r_url : pystr;
  r_title : option pystr;
  r_feed_name : option pystr;
  r_summary : option pystr;
  r_processed_at : option datetime
}.

(** The table, in rowid order, and the largest rowid ever handed out (what
    AUTOINCREMENT keeps in [sqlite_sequence]). *)
Record table : Type := mkTable {
  rows : list row;
  last_id : Z
}.

Definition empty_table : table := mkTable [] 0.

(** [CREATE TABLE IF NOT EXISTS]: a database file that has the table keeps
    it as it is ([None]: the file has no such table yet). *)
Definition _init_db (db : option table) : table :=
  match db with
  | None => empty_table
  | Some t => t
  end.

(** [SELECT 1 FROM processed_articles WHERE url_hash = ?] has a row. *)
Definition is_processed (t : table) (article : Article) : bool :=
  existsb (fun r => str_eqb (r_url_hash r) (url_hash article)) (rows t).

Definition next_id (t : table) : Z :=
  Z.max (last_id t) (fold_right Z.max 0 (map id (rows t))) + 1.

(** [INSERT OR REPLACE]: the rows that would break the UNIQUE constraint
    on [url_hash] are deleted, then the new row is inserted under a fresh
    rowid.  [now] is what [datetime.now()] answers. *)
Definition mark_processed (t : table) (article : Article)
    (summary : option pystr) (now : datetime) : table :=
  let kept :=
    filter (fun r => negb (str_eqb (r_url_hash r) (url_hash article))) (rows t) in
  let new_row :=
    mkRow (next_id t) (url_hash article) (url article) (Some (title article))
          (Some (feed_name article)) summary (Some now) in
  mkTable (kept ++ [new_row]) (next_id t).

(** [[a for a in articles if not self.is_processed(a)]] *)
Definition filter_new_articles (t : table) (articles : list Article)
  : list Article :=
  filter (fun a => negb (is_processed t a)) articles.

(** [GROUP BY feed_name] with [COUNT( * )]: one group per distinct value,
    NULL being one value. *)
Fixpoint bump (k : option pystr) (groups : list (option pystr * Z))
  : list (option pystr * Z) :=
  match groups with
  | [] => [(k, 1)]
  | (k', n) :: gs =>
      if opt_str_eqb k k' then (k', n + 1) :: gs else (k', n) :: bump k gs
  end.

Definition group_by_feed_name (rs : list row) : list (option pystr * Z) :=
  fold_left (fun gs r => bump (r_feed_name r) gs) rs [].

(** [ORDER BY count DESC] (SQL leaves the order of equal counts open; they
    keep the order of the groups here). *)
Fixpoint insert_desc (g : option pystr * Z) (gs : list (option pystr * Z))
  : list (option pystr * Z) :=
  match gs with
  | [] => [g]
  | g' :: gs' =>
      if snd g' <? snd g then g :: g' :: gs' else g' :: insert_desc g gs'
  end.

Definition order_by_count_desc (gs : list (option pystr * Z))
  : list (option pystr * Z) :=
  fold_right insert_desc [] gs.

Record stats : Type := mkStats {
  total_articles : Z;
  by_feed : pydict (option pystr) Z
}.

Definition get_stats (t : table) : stats :=
  let total := Z.of_nat (List.length (rows t)) in
  let fetched := order_by_count_desc (group_by_feed_name (rows t)) in
  mkStats total (dict_of_pairs opt_str_eqb fetched).

(** The store's interface, one request at a time: what the caller gets
    back and the table afterwards. *)
Inductive request : Type :=
| Init
| IsProcessed (article : Article)
| MarkProcessed (article : Article) (summary : option pystr) (now : datetime)
| FilterNew (articles : list Article)
| GetStats.

Inductive response : Type :=
| Done
| Flag (b : bool)
| Articles (l : list Article)
| Stats (s : stats).

Definition exec (q : request) (t : table) : response * table :=
  match q with
  | Init => (Done, _init_db (Some t))
  | IsProcessed a => (Flag (is_processed t a), t)
  | MarkProcessed a s now => (Done, mark_processed t a s now)
  | FilterNew l => (Articles (filter_new_articles t l), t)
  | GetStats => (Stats (get_stats t), t)
  end.

(** The tables the program can build: it starts from no table at all and
    only ever writes through [mark_processed]. *)
Inductive reachable : table -> Prop :=
| reach_init : reachable (_init_db None)
| reach_mark t a s now :
    reachable t -> reachable (mark_processed t a s now).

(** At most one record per fingerprint. *)
Definition unique_hash (t : table) : Prop :=
  NoDup (map r_url_hash (rows t)).

(** The records kept under an article's fingerprint. *)
Definition records_of (t : table) (article : Article) : list row :=
  filter (fun r => str_eqb (r_url_hash r) (url_hash article)) (rows t).

(** The fingerprint of [article] is recorded. *)
Definition recorded (t : table) (article : Article) : Prop :=
  In (url_hash article) (map r_url_hash (rows t)).

(** [t'] is [t] after [mark_processed] was called on every item of the
    list, in turn, each with some summary at some time. *)
Inductive marked_all : table -> list Article -> table -> Prop :=
| marked_nil t : marked_all t [] t
| marked_cons t a s now items t' :
    marked_all (mark_processed t a s now) items t' ->
    marked_all t (a :: items) t'.

(** [sum(by_feed.values())] *)
Definition sum_counts (d : pydict (option pystr) Z) : Z :=
  fold_right Z.add 0 (map snd d).

(** ** get_recent_articles, and what the statistics hold *)

(** The number of rows whose [feed_name] is [k] (NULL is [None]). *)
Definition rows_of_feed (k : option pystr) (rs : list row) : Z :=
  Z.of_nat (List.length (filter (fun r => opt_str_eqb k (r_feed_name r)) rs)).

(** The columns [get_recent_articles] selects: all but [id]. *)
Record recent_article : Type := mkRecentArticle {
  ra_url_hash : pystr;
  ra_url : pystr;
  ra_title : option pystr;
  ra_feed_name : option pystr;
  ra_summary : option pystr;
  ra_processed_at : option datetime
}.

Definition selected (r : row) : recent_article :=
  mkRecentArticle (r_url_hash r) (r_url r) (r_title r) (r_feed_name r)
                  (r_summary r) (r_processed_at r).

(** [a] is not before [b] in the order of [processed_at]: NULL is below
    every value, and the ISO texts of two datetimes compare as the
    datetimes do. *)
Definition not_before (a b : option datetime) : bool :=
  match a, b with
  | _, None => true
  | None, Some _ => false
  | Some x, Some y => y <=? x
  end.

(** [ORDER BY processed_at DESC] (SQL leaves the order of equal times
    open; they keep the order of the rows here). *)
Fixpoint insert_recent (r : row) (sorted : list row) : list row :=
  match sorted with
  | [] => [r]
  | r' :: rest =>
      if not_before (r_processed_at r') (r_processed_at r)
      then r' :: insert_recent r rest
      else r :: r' :: rest
  end.

Definition order_by_processed_at_desc (rs : list row) : list row :=
  fold_left (fun sorted r => insert_recent r sorted) rs [].

(** What the binding takes for an SQLite INTEGER: 64 bits, signed. *)
Definition sqlite_integer (n : Z) : bool :=
  (- 2 ^ 63 <=? n) && (n <? 2 ^ 63).

(** [LIMIT ?]: a negative limit is no limit. *)
Definition get_recent_articles (t : table) (limit : Z)
  : outcome (list recent_article) :=
  if sqlite_integer limit then
    let sorted := order_by_processed_at_desc (rows t) in
    Returns (map selected
               (if limit <? 0 then sorted
                else firstn (Z.to_nat limit) sorted))
  else Raises (lit "OverflowError").

(** [a] comes no later than [b] in a list ordered by count, downwards. *)
Definition count_ge (a b : option pystr * Z) : Prop := snd b <= snd a.

(** [a] may come before [b] in a list ordered by [processed_at],
    downwards. *)
Definition later (a b : row) : Prop :=
  not_before (r_processed_at a) (r_processed_at b) = true.

(** [n] more under a count that may not be there yet. *)
Definition add_count (o : option Z) (n : Z) : option Z :=
  match o with
  | Some m => Some (m + n)
  | None => if n =? 0 then None else Some n
  end.

End Storage.

(* ================================================================== *)
(** * notifier.py *)
(* ================================================================== *)

Module Notifier.

(** ** Formatted strings *)

(** What a replacement field of an f-string is filled from. *)
Inductive field : Type := FeedName | Title | Summary | Url | Category.

(** An f-string: literal text and replacement fields, each with the
    value of its expression. *)
Inductive part : Type :=
| Lit (text : pystr)
| Hole (f : field) (value : pystr).

Definition part_text (p : part) : pystr :=
  match p with
  | Lit text => text
  | Hole _ value => value
  end.

Definition render (parts : list part) : pystr := flat_map part_text parts.

Definition field_eqb (f g : field) : bool :=
  match f, g with
  | FeedName, FeedName | Title, Title | Summary, Summary
  | Url, Url | Category, Category => true
  | _, _ => false
  end.

(** What the first replacement field for [f] holds. *)
Fixpoint hole_value (f : field) (parts : list part) : option pystr :=
  match parts with
  | [] => None
  | Lit _ :: rest => hole_value f rest
  | Hole g value :: rest =>
      if field_eqb f g then Some value else hole_value f rest
  end.

Definition newspaper : pystr := [128240]%N.
(** The label of the link: a chain sign and "read the original". *)
Definition read_original : pystr :=
  ([128279] ++ lit " " ++ [38405; 35835; 21407; 25991])%N.
Definition category_label : pystr := ([20998; 31867] ++ lit ": ")%N.
Definition nl : pystr := [10]%N.
Definition dq : pystr := [34]%N.

(** ** Telegram *)

Definition markdown_chars : list N :=
  map Json.chr
    ["_"; "*"; "["; "]"; "("; ")"; "~"; "`"; ">"; "#"; "+"; "-"; "=";
     "|"; "{"; "}"; "."; "!"]%char.

(** [text.replace(old, new)] for a one-character [old]. *)
Definition replace_char (old : N) (new : pystr) (text : pystr) : pystr :=
  flat_map (fun c => if N.eqb c old then new else [c]) text.

Definition _escape_markdown (text : pystr) : pystr :=
  fold_left (fun text char => replace_char char [Json.backslash; char] text)
            markdown_chars text.

(** Escaping for Markdown, in one pass: a backslash goes before each
    character of [reserved], the other characters stay. *)
Definition backslash_escaped (reserved : list N) (text : pystr) : pystr :=
  flat_map (fun c => if existsb (N.eqb c) reserved
                     then [Json.backslash; c] else [c]) text.

Definition api_base (bot_token : pystr) : pystr :=
  lit "https://api.telegram.org/bot" ++ bot_token.

Definition telegram_parts (article : Article) (summary : pystr) : list part :=
  [Lit (newspaper ++ lit " *"); Hole FeedName (feed_name article);
   Lit (lit "*" ++ nl ++ nl ++ lit "*");
   Hole Title (_escape_markdown (title article));
   Lit (lit "*" ++ nl ++ nl);
   Hole Summary (_escape_markdown summary);
   Lit (nl ++ nl ++ lit "[" ++ read_original ++ lit "](");
   Hole Url (url article);
   Lit (lit ")" ++ nl ++ nl ++ lit "_" ++ category_label);
   Hole Category (category article);
   Lit (lit "_")].

Definition telegram_payload (chat_id : pystr) (article : Article)
    (summary : pystr) : json :=
  JObj [(lit "chat_id", JStr chat_id);
        (lit "text", JStr (render (telegram_parts article summary)));
        (lit "parse_mode", JStr (lit "Markdown"));
        (lit "disable_web_page_preview", JBool false)].

(** ** Feishu *)

Definition feishu_header_parts (article : Article) : list part :=
  [Lit (newspaper ++ lit " "); Hole FeedName (feed_name article)].

Definition feishu_note_parts (article : Article) : list part :=
  [Lit ([21407; 26631; 39064]%N ++ lit ": "); Hole Title (title article)].

Definition plain_text (text : pystr) : json :=
  JObj [(lit "tag", JStr (lit "plain_text")); (lit "content", JStr text)].

Definition feishu_content (article : Article) (summary : pystr) : json :=
  JObj
    [(lit "msg_type", JStr (lit "interactive"));
     (lit "card",
      JObj
        [(lit "header",
          JObj [(lit "title", plain_text (render (feishu_header_parts article)));
                (lit "template", JStr (lit "blue"))]);
         (lit "elements",
          JArr
            [JObj [(lit "tag", JStr (lit "note"));
                   (lit "elements",
                    JArr [plain_text (render (feishu_note_parts article))])];
             JObj [(lit "tag", JStr (lit "hr"))];
             JObj [(lit "tag", JStr (lit "markdown"));
                   (lit "content", JStr summary)];
             JObj [(lit "tag", JStr (lit "hr"))];
             JObj [(lit "tag", JStr (lit "action"));
                   (lit "actions",
                    JArr
                      [JObj [(lit "tag", JStr (lit "button"));
                             (lit "text", plain_text read_original);
                             (lit "type", JStr (lit "primary"));
                             (lit "url", JStr (url article))]])]])])].

(** ** Email *)

Definition email_parts (article : Article) (summary : pystr) : list part :=
  [Lit (nl ++ lit "        <html>" ++ nl
        ++ lit "        <body style=" ++ dq
        ++ lit "font-family: Arial, sans-serif; max-width: 600px; margin: 0 auto;"
        ++ dq ++ lit ">" ++ nl
        ++ lit "            <div style=" ++ dq
        ++ lit "background: #f5f5f5; padding: 20px; border-radius: 8px;"
        ++ dq ++ lit ">" ++ nl
        ++ lit "                <p style=" ++ dq ++ lit "color: #666; margin: 0;"
        ++ dq ++ lit ">" ++ newspaper ++ lit " ");
   Hole FeedName (feed_name article);
   Lit (lit "</p>" ++ nl ++ lit "                <h2 style=" ++ dq
        ++ lit "margin: 10px 0;" ++ dq ++ lit ">");
   Hole Title (title article);
   Lit (lit "</h2>" ++ nl ++ lit "                <p style=" ++ dq
        ++ lit "line-height: 1.6;" ++ dq ++ lit ">");
   Hole Summary summary;
   Lit (lit "</p>" ++ nl ++ lit "                <a href=" ++ dq);
   Hole Url (url article);
   Lit (dq ++ nl ++ lit "                   style=" ++ dq
        ++ lit "display: inline-block; background: #1a73e8; color: white;" ++ nl
        ++ lit "                          padding: 10px 20px; text-decoration: none; border-radius: 4px;"
        ++ dq ++ lit ">" ++ nl
        ++ lit "                    " ++ read_original ++ nl
        ++ lit "                </a>" ++ nl
        ++ lit "                <p style=" ++ dq
        ++ lit "color: #999; font-size: 12px; margin-top: 20px;" ++ dq
        ++ lit ">" ++ nl
        ++ lit "                    " ++ category_label);
   Hole Category (category article);
   Lit (nl ++ lit "                </p>" ++ nl ++ lit "            </div>" ++ nl
        ++ lit "        </body>" ++ nl ++ lit "        </html>" ++ nl
        ++ lit "        ")].

Definition subject_parts (article : Article) : list part :=
  [Lit (lit "[RSS] "); Hole Title (title article)].

(** The MIME message: its headers and its one HTML part. *)
Record message : Type := mkMessage {
  msg_subject : pystr;
  msg_from : pystr;
  msg_to : pystr;
  msg_html : pystr
}.

(** ** The three adapters *)

Inductive adapter : Type :=
| FeishuNotifier (webhook_url : pystr)
| TelegramNotifier (bot_token chat_id : pystr)
| EmailNotifier (smtp_host : pystr) (smtp_port : Z)
                (username password to_address : pystr).

(** What [requests.post] answers: the status and what [response.json()]
    gives. *)
Record response : Type := mkResponse {
  status_code : Z;
  json_body : outcome json
}.

(** [v == 0] *)
Definition eq_zero (v : json) : bool :=
  match v with
  | JInt z => z =? 0
  | JFloat f => PrimFloat.eqb f PrimFloat.zero
  | JBool b => negb b
  | _ => false
  end.

Section Channels.
Variable world : Type.
(** [requests.post(url, json=payload, timeout=10)]; the fixed headers
    and the timeout are the world's business. *)
Variable requests_post : pystr -> json -> world -> outcome response * world.
(** The SMTP session: connect, STARTTLS, login, send, quit. *)
Variable smtp_session :
  pystr -> Z -> pystr -> pystr -> message -> world -> outcome unit * world.

(** What [send] does before its [try]: it builds what it is going to
    post.  Only the e-mail can fail there:
    [MIMEText(html_content, 'html', 'utf-8')] encodes the body, and a
    surrogate code point in it is a UnicodeEncodeError. *)
Definition build (n : adapter) (article : Article) (summary : pystr)
  : outcome unit :=
  match n with
  | EmailNotifier _ _ _ _ _ =>
      if Json.text_ok (render (email_parts article summary))
      then Returns tt
      else Raises (lit "UnicodeEncodeError")
  | _ => Returns tt
  end.

(** The body of the [try] of each [send], with what it posts: what that
    body returns, or the exception that leaves it. *)
Definition send_try (n : adapter) (article : Article) (summary : pystr)
    (w : world) : outcome json * world :=
  match n with
  | FeishuNotifier webhook_url =>
      let (r, w') := requests_post webhook_url (feishu_content article summary) w in
      match r with
      | Raises e => (Raises e, w')
      | Returns resp =>
          if status_code resp =? 200 then
            match json_body resp with
            | Raises e => (Raises e, w')
            | Returns (JObj result) =>
                if eq_zero (Fetcher.get_or_none (lit "code") result)
                   || eq_zero (Fetcher.get_or_none (lit "StatusCode") result)
                then (Returns (JBool true), w')
                else (Returns (JBool false), w')
            | Returns _ => (Raises (lit "AttributeError"), w')
            end
          else (Returns (JBool false), w')
      end
  | TelegramNotifier bot_token chat_id =>
      let (r, w') :=
        requests_post (api_base bot_token ++ lit "/sendMessage")
                      (telegram_payload chat_id article summary) w in
      match r with
      | Raises e => (Raises e, w')
      | Returns resp =>
          if status_code resp =? 200 then
            match json_body resp with
            | Raises e => (Raises e, w')
            | Returns (JObj result) =>
                match dict_get str_eqb (lit "ok") result with
                | Some v => (Returns v, w')
                | None => (Returns (JBool false), w')
                end
            | Returns _ => (Raises (lit "AttributeError"), w')
            end
          else (Returns (JBool false), w')
      end
  | EmailNotifier smtp_host smtp_port username password to_address =>
      let msg :=
        mkMessage (render (subject_parts article)) username to_address
                  (render (email_parts article summary)) in
      let (r, w') := smtp_session smtp_host smtp_port username password msg w in
      match r with
      | Raises e => (Raises e, w')
      | Returns _ => (Returns (JBool true), w')
      end
  end.

(** [send]: what is raised before the [try] leaves the function;
    [except Exception] turns whatever left the [try] into False. *)
Definition send (n : adapter) (article : Article) (summary : pystr)
    (w : world) : outcome json * world :=
  match build n article summary with
  | Raises e => (Raises e, w)
  | Returns _ =>
      match send_try n article summary w with
      | (Returns v, w') => (Returns v, w')
      | (Raises _, w') => (Returns (JBool false), w')
      end
  end.

(** ** Notifier *)

Record feishu_config : Type := mkFeishuConfig {
  feishu_enabled : bool;
  feishu_webhook_url : option pystr
}.

Record telegram_config : Type := mkTelegramConfig {
  tg_enabled : bool;
  tg_bot_token : option pystr;
  tg_chat_id : option pystr
}.

Record email_config : Type := mkEmailConfig {
  email_enabled : bool;
  email_smtp_host : option pystr;
  email_smtp_port : option Z;
  email_username : option pystr;
  email_password : option pystr;
  email_to : option pystr
}.

(** The [notify] section of the configuration; a key that is not there
    is [None] (or [false], for [enabled]). *)
Record config : Type := mkConfig {
  feishu : feishu_config;
  telegram : telegram_config;
  email : email_config
}.

Definition feishu_name : pystr := [39134; 20070]%N.

Definition feishu_entry (c : feishu_config) : list (pystr * adapter) :=
  match feishu_enabled c, Fetcher.truthy (feishu_webhook_url c) with
  | true, Some webhook => [(feishu_name, FeishuNotifier webhook)]
  | _, _ => []
  end.

Definition telegram_entry (c : telegram_config)
  : outcome (list (pystr * adapter)) :=
  match tg_enabled c, Fetcher.truthy (tg_bot_token c) with
  | true, Some token =>
      match tg_chat_id c with
      | Some chat => Returns [(lit "Telegram", TelegramNotifier token chat)]
      | None => Raises (lit "KeyError")
      end
  | _, _ => Returns []
  end.

Definition email_entry (c : email_config) : outcome (list (pystr * adapter)) :=
  match email_enabled c, Fetcher.truthy (email_username c) with
  | true, Some user =>
      match email_smtp_host c, email_smtp_port c, email_password c, email_to c with
      | Some host, Some port, Some password, Some to =>
          Returns [(lit "Email", EmailNotifier host port user password to)]
      | _, _, _, _ => Raises (lit "KeyError")
      end
  | _, _ => Returns []
  end.

(** [Notifier.__init__]: the list [self.notifiers]. *)
Definition __init__ (c : config) : outcome (list (pystr * adapter)) :=
  match telegram_entry (telegram c) with
  | Raises e => Raises e
  | Returns tg =>
      match email_entry (email c) with
      | Raises e => Raises e
      | Returns em => Returns (feishu_entry (feishu c) ++ tg ++ em)
      end
  end.

(** The loop of [notify]: it has no [try], so that what a [send]
    raises leaves it. *)
Fixpoint notify_loop (notifiers : list (pystr * adapter)) (article : Article)
    (summary : pystr) (results : pydict pystr json) (w : world)
  : outcome (pydict pystr json) * world :=
  match notifiers with
  | [] => (Returns results, w)
  | (name, n) :: rest =>
      match send n article summary w with
      | (Returns v, w') =>
          notify_loop rest article summary (dict_set str_eqb name v results) w'
      | (Raises e, w') => (Raises e, w')
      end
  end.

Definition notify (notifiers : list (pystr * adapter)) (article : Article)
    (summary : pystr) (w : world) : outcome (pydict pystr json) * world :=
  notify_loop notifiers article summary [] w.

Definition has_notifiers (notifiers : list (pystr * adapter)) : bool :=
  (0 <? List.length notifiers)%nat.

End Channels.

(** [c.get('enabled') and c.get(key)]: the channel is switched on and its
    credential is a text that is not empty. *)
Definition switched_on (enabled : bool) (credential : option pystr) : bool :=
  enabled && match Fetcher.truthy credential with Some _ => true | None => false end.

Definition is_some {A : Type} (o : option A) : bool :=
  match o with Some _ => true | None => false end.

End Notifier.

(* ================================================================== *)
(** * main.py: load_config *)
(* ================================================================== *)

Module Config.

Definition dollar : N := 36.
Definition lbrace : N := 123.
Definition rbrace : N := 125.

Section LoadConfig.
(** [str.isalnum] beyond ASCII, which is the interpreter's table. *)
Variable isalnum : N -> bool.

(** The [\w] of [re] on one character: a letter, a digit or the
    underscore. *)
Definition is_word (c : N) : bool :=
  (if c <? 128
   then (48 <=? c) && (c <=? 57) || (65 <=? c) && (c <=? 90)
        || (97 <=? c) && (c <=? 122) || (c =? 95)
   else isalnum c)%N.

(** The characters [\w+] runs over, and what follows them. *)
Fixpoint span_word (s : pystr) : pystr * pystr :=
  match s with
  | c :: s' =>
      if is_word c
      then let (run, rest) := span_word s' in (c :: run, rest)
      else ([], s)
  | [] => ([], [])
  end.

(** [os.environ.get(var_name, '')] *)
Definition replace_env (environ : pydict pystr pystr) (var_name : pystr)
  : pystr :=
  match dict_get str_eqb var_name environ with
  | Some value => value
  | None => []
  end.

(** [re.sub(r'\$\{(\w+)\}', replace_env, content)]: a dollar sign, an
    opening brace, a name and the closing brace right behind it give way
    to the value of the name; the scan goes on behind them. *)
Fixpoint substitute (fuel : nat) (environ : pydict pystr pystr)
    (content : pystr) : pystr :=
  match fuel with
  | O => content
  | S fuel' =>
      match content with
      | [] => []
      | c :: s' =>
          let unmatched := c :: substitute fuel' environ s' in
          if N.eqb c dollar then
            match s' with
            | b :: s'' =>
                if N.eqb b lbrace then
                  match span_word s'' with
                  | (x :: var_name, e :: rest) =>
                      if N.eqb e rbrace
                      then replace_env environ (x :: var_name)
                           ++ substitute fuel' environ rest
                      else unmatched
                  | _ => unmatched
                  end
                else unmatched
            | [] => unmatched
            end
          else unmatched
      end
  end.

(** [yaml.safe_load], the library's; and the file, read as UTF-8: its
    text, or the exception of [open] or of the decoding. *)
Variable config : Type.
Variable yaml_safe_load : pystr -> outcome config.

Definition load_config (file_text : outcome pystr)
    (environ : pydict pystr pystr) : outcome config :=
  match file_text with
  | Raises e => Raises e
  | Returns content =>
      yaml_safe_load (substitute (List.length content) environ content)
  end.

End LoadConfig.
Arguments is_word : simpl never.

(** The text [${var_name}]. *)
Definition reference (var_name : pystr) : pystr :=
  dollar :: lbrace :: var_name ++ [rbrace].

End Config.

(* ================================================================== *)
(** * main.py: run_once *)
(* ================================================================== *)

Module Main.

(** [l[:n]] *)
Definition slice_to {A} (n : Z) (l : list A) : list A :=
  if 0 <=? n then firstn (Z.to_nat n) l
  else firstn (List.length l - Z.to_nat (- n)) l.

Section Run.
Variable world : Type.
Variable html_unescape : pystr -> pystr.
Variable feedparser_parse :
  pystr -> json -> json -> world -> outcome Fetcher.feed * world.
Variable float_repr : float -> pystr.
Variable float_of_str : pystr -> float.
Variable int_max_str_digits : nat.
Variable decoder_depth : nat.
Variable encoder_depth : nat.
Variable requests_post :
  pystr -> json -> world -> outcome Notifier.response * world.
Variable smtp_session :
  pystr -> Z -> pystr -> pystr -> Notifier.message -> world
  -> outcome unit * world.
(** The summarizer is built from the [llm] section of the configuration;
    [summarize] answers a text or [None]. *)
Variable llm_config : Type.
Variable summarize : llm_config -> Article -> world -> option pystr * world.
(** [datetime.now()] *)
Variable clock : world -> datetime * world.

Record schedule_config : Type := mkSchedule {
  max_age_hours : option Z;
  max_articles_per_run : option Z
}.

Record config : Type := mkRunConfig {
  feeds : list Fetcher.feed_config;
  schedule : schedule_config;
  llm : llm_config;
  notify : Notifier.config
}.

Definition notifier_list : Type := list (pystr * Notifier.adapter).

(** What the loop carries from one article to the next. *)
Record progress : Type := mkProgress {
  storage : Storage.table;
  net : world;
  success_count : Z
}.

(** One turn of the loop over [articles_to_process]: how it ends, and
    what the loop has by then.  What [notify] raises leaves the turn
    before the article is marked. *)
Definition process_article (notifiers : notifier_list) (lc : llm_config)
    (st : progress) (article : Article) : outcome unit * progress :=
  let (summary, w1) := summarize lc article (net st) in
  match Fetcher.truthy summary with
  | Some text =>
      let (results, w2) :=
        if Notifier.has_notifiers notifiers
        then Notifier.notify requests_post smtp_session
                             notifiers article text w1
        else (Returns [], w1) in
      match results with
      | Raises e => (Raises e, mkProgress (storage st) w2 (success_count st))
      | Returns _ =>
          let (now, w3) := clock w2 in
          (Returns tt,
           mkProgress
             (Storage.mark_processed (storage st) article (Some text) now)
             w3 (success_count st + 1))
      end
  | None =>
      let (now, w2) := clock w1 in
      (Returns tt,
       mkProgress (Storage.mark_processed (storage st) article None now)
                  w2 (success_count st))
  end.

(** The loop: an exception ends it where it is. *)
Fixpoint process_articles (notifiers : notifier_list) (lc : llm_config)
    (articles_to_process : list Article) (st : progress)
  : outcome unit * progress :=
  match articles_to_process with
  | [] => (Returns tt, st)
  | article :: rest =>
      match process_article notifiers lc st article with
      | (Returns _, st') => process_articles notifiers lc rest st'
      | (Raises e, st') => (Raises e, st')
      end
  end.

Definition or_default (v : option Z) (d : Z) : Z :=
  match v with Some x => x | None => d end.

(** One run: the table, the cache file and the world afterwards;
    [Raises] is an exception that ends the run, before the loop or in
    one of its turns. *)
Definition run_once (cfg : config) (t : Storage.table) (f : Fetcher.file)
    (w : world) : outcome unit * Storage.table * Fetcher.file * world :=
  match feeds cfg with
  | [] => (Returns tt, t, f, w)
  | _ =>
      match Fetcher.fetch_all_feeds html_unescape feedparser_parse
                                    float_repr float_of_str int_max_str_digits
                                    decoder_depth encoder_depth
                                    (feeds cfg) f w with
      | (Raises e, f1, w1) => (Raises e, t, f1, w1)
      | (Returns all_articles, f1, w1) =>
          let (now, w2) := clock w1 in
          match Fetcher.filter_by_age now all_articles
                  (or_default (max_age_hours (schedule cfg)) 24) with
          | Raises e => (Raises e, t, f1, w2)
          | Returns recent_articles =>
              match Storage.filter_new_articles t recent_articles with
              | [] => (Returns tt, t, f1, w2)
              | new_articles =>
                  let articles_to_process :=
                    slice_to (or_default (max_articles_per_run (schedule cfg)) 10)
                             new_articles in
                  match Notifier.__init__ (notify cfg) with
                  | Raises e => (Raises e, t, f1, w2)
                  | Returns notifiers =>
                      let (result, st) :=
                        process_articles notifiers (llm cfg) articles_to_process
                                         (mkProgress t w2 0) in
                      (result, storage st, f1, net st)
                  end
              end
          end
      end
  end.

End Run.

(** The table a run leaves. *)
Definition table_after {world : Type}
    (r : outcome unit * Storage.table * Fetcher.file * world)
  : Storage.table :=
  snd (fst (fst r)).

End Main.

(* ================================================================== *)
(** * Sample data *)
(* ================================================================== *)

Module Sample.

(** 2026-11-03T12:34:56 *)
Definition noon : datetime := 63929306096000000.

Definition post1 : Article :=
  mkArticle (lit "Release 1.0 (final)") (lit "https://example.org/a?x=1")
            (lit "body") (Some noon) (lit "Example") (lit "tech").

Definition post2 : Article :=
  mkArticle (lit "Notes") (lit "https://example.org/b")
            (lit "text") None (lit "Other") (lit "general").

(** An item dated exactly 24 hours before [noon], and one dated a
    microsecond earlier. *)
Definition at_cutoff : Article :=
  mkArticle (lit "a") (lit "u1") [] (Some (noon - 24 * Fetcher.us_per_hour))
            (lit "f") (lit "c").
Definition before_cutoff : Article :=
  mkArticle (lit "b") (lit "u2") [] (Some (noon - 24 * Fetcher.us_per_hour - 1))
            (lit "f") (lit "c").

Definition one_row : Storage.table :=
  Storage.mark_processed (Storage._init_db None) post1 (Some (lit "old")) noon.

(** A small world: the number of requests made so far.  One host is
    down; the other answers 304 to a request that carries an ETag and a
    feed of two entries to one that does not. *)
Definition entry1 : Fetcher.entry :=
  Fetcher.mkEntry (Some (lit "First")) (Some (lit "https://example.org/1"))
                  None (Some (lit "<p>one</p>")) None None None.
Definition entry2 : Fetcher.entry :=
  Fetcher.mkEntry None (Some (lit "https://example.org/2"))
                  None None None None None.

Definition feed_full : Fetcher.feed :=
  Fetcher.mkFeed (Some 200) (Some (lit "v1")) None false [entry1; entry2].
Definition feed_unchanged : Fetcher.feed :=
  Fetcher.mkFeed (Some 304) None None false [entry1; entry2].

Definition web (u : pystr) (etag modified : json) (w : nat)
  : outcome Fetcher.feed * nat :=
  if str_eqb u (lit "https://down.example/rss")
  then (Raises (lit "URLError"), S w)
  else
    match etag with
    | JStr _ => (Returns feed_unchanged, S w)
    | _ => (Returns feed_full, S w)
    end.

Definition up : Fetcher.feed_config :=
  Fetcher.mkFeedConfig (lit "Example") (lit "https://example.org/rss") None.
Definition down : Fetcher.feed_config :=
  Fetcher.mkFeedConfig (lit "Down") (lit "https://down.example/rss")
                       (Some (lit "news")).

Definition seen_cache : json :=
  JObj [(lit "https://example.org/rss", JObj [(lit "etag", JStr (lit "v1"))])].

Definition no_entities (s : pystr) : pystr := s.

(** A cache file, written on one line (an apostrophe stands for a double
    quote): two urls, the second with an empty entry. *)
Definition double_quoted (s : string) : pystr :=
  map (fun c => if N.eqb c 39 then 34%N else c) (lit s).

Definition cache_text : pystr :=
  double_quoted
    "{'https://example.org/rss': {'etag': 'W/\'v1\'', 'modified': 'Tue, 03 Nov 2026'}, 'https://b.example/': {}}".

Definition cache_mapping : json :=
  JObj [(lit "https://example.org/rss",
         JObj [(lit "etag", JStr (double_quoted "W/'v1'"));
               (lit "modified", JStr (lit "Tue, 03 Nov 2026"))]);
        (lit "https://b.example/", JObj [])].

(** Stand-ins for the interpreter's float conversions, and its limits
    as they are when nothing was set: 4300 digits, and of a recursion
    limit of 1000 what is left where the [json] module is called. *)
Definition no_float_repr (f : float) : pystr := lit "0.0".
Definition no_float (s : pystr) : float := PrimFloat.zero.
Definition max_digits : nat := 4300.
Definition depth : nat := 990.

(** A text that is no text: one half of a surrogate pair (U+D800); and
    a summary that holds it, behind its first hundred characters. *)
Definition lone_surrogate : pystr := [55296]%N.
Definition odd_summary : pystr :=
  lit "In short" ++ repeat 46%N 100 ++ lone_surrogate.

(** An item whose title carries HTML markup. *)
Definition tagged : Article :=
  mkArticle (lit "<b>AT&T</b>") (lit "https://example.org/t")
            (lit "text") None (lit "Other") (lit "general").

(** The webhook is unreachable; every other request is answered with
    [{ok: true}]; the mail server accepts the message. *)
Definition webhook : pystr := lit "https://open.feishu.example/hook/1".

Definition post (u : pystr) (payload : json) (w : nat)
  : outcome Notifier.response * nat :=
  if str_eqb u webhook then (Raises (lit "ConnectionError"), S w)
  else (Returns (Notifier.mkResponse 200
                   (Returns (JObj [(lit "ok", JBool true)]))), S w).

Definition smtp (host : pystr) (port : Z) (user password : pystr)
    (msg : Notifier.message) (w : nat) : outcome unit * nat :=
  (Returns tt, S w).

(** A summarizer that has nothing to say about [post2], and a clock that
    ticks with every request. *)
Definition summarizer (lc : unit) (a : Article) (w : nat) : option pystr * nat :=
  if str_eqb (url a) (url post2) then (None, S w)
  else (Some (lit "In short."), S w).

Definition clock (w : nat) : datetime * nat := (noon + Z.of_nat w, S w).

Definition all_channels : Notifier.config :=
  Notifier.mkConfig
    (Notifier.mkFeishuConfig true (Some webhook))
    (Notifier.mkTelegramConfig true (Some (lit "123:abc")) (Some (lit "42")))
    (Notifier.mkEmailConfig true (Some (lit "smtp.example.org")) (Some 587)
       (Some (lit "me@example.org")) (Some (lit "secret"))
       (Some (lit "you@example.org"))).

(** Two sources, all three channels, the defaults of the schedule. *)
Definition settings : Main.config unit :=
  Main.mkRunConfig [up; down] (Main.mkSchedule None None) tt all_channels.

Definition run (t : Storage.table) (f : Fetcher.file) (w : nat)
  : outcome unit * Storage.table * Fetcher.file * nat :=
  Main.run_once no_entities web no_float_repr no_float max_digits depth depth
                post smtp summarizer clock settings t f w.

Definition three_notifiers : list (pystr * Notifier.adapter) :=
  [(Notifier.feishu_name, Notifier.FeishuNotifier webhook);
   (lit "Telegram", Notifier.TelegramNotifier (lit "123:abc") (lit "42"));
   (lit "Email",
    Notifier.EmailNotifier (lit "smtp.example.org") 587 (lit "me@example.org")
                           (lit "secret") (lit "you@example.org"))].

(** The settings of [settings] with a window of 18 million hours, which
    reaches back beyond the first year. *)
Definition wide_settings : Main.config unit :=
  Main.mkRunConfig [up; down] (Main.mkSchedule (Some 18000000) None) tt
                   all_channels.

Definition wide_run (t : Storage.table) (f : Fetcher.file) (w : nat)
  : outcome unit * Storage.table * Fetcher.file * nat :=
  Main.run_once no_entities web no_float_repr no_float max_digits depth depth
                post smtp summarizer clock wide_settings t f w.

(** A summarizer whose answer is no text, and the run with it. *)
Definition odd_summarizer (lc : unit) (a : Article) (w : nat)
  : option pystr * nat :=
  (Some odd_summary, S w).

Definition odd_run (t : Storage.table) (f : Fetcher.file) (w : nat)
  : outcome unit * Storage.table * Fetcher.file * nat :=
  Main.run_once no_entities web no_float_repr no_float max_digits depth depth
                post smtp odd_summarizer clock settings t f w.

(** A world that keeps what was handed to the transports: every request
    is answered with [{ok: true}], the mail server accepts the message. *)
Inductive handed : Type :=
| Posted (target : pystr) (payload : json)
| Mailed (msg : Notifier.message).

Definition recording_post (u : pystr) (payload : json) (w : list handed)
  : outcome Notifier.response * list handed :=
  (Returns (Notifier.mkResponse 200 (Returns (JObj [(lit "ok", JBool true)]))),
   w ++ [Posted u payload]).

Definition recording_smtp (host : pystr) (port : Z) (user password : pystr)
    (msg : Notifier.message) (w : list handed) : outcome unit * list handed :=
  (Returns tt, w ++ [Mailed msg]).

(** The HTML bodies that were mailed, and the texts that were posted. *)
Definition mailed_html (w : list handed) : list pystr :=
  flat_map (fun h => match h with
                     | Mailed msg => [Notifier.msg_html msg]
                     | Posted _ _ => []
                     end) w.

Definition posted_text (w : list handed) : list pystr :=
  flat_map (fun h => match h with
                     | Posted _ (JObj members) =>
                         match dict_get str_eqb (lit "text") members with
                         | Some (JStr text) => [text]
                         | _ => []
                         end
                     | _ => []
                     end) w.

Definition mail_channel : Notifier.adapter :=
  Notifier.EmailNotifier (lit "smtp.example.org") 587 (lit "me@example.org")
                         (lit "secret") (lit "you@example.org").

Definition chat_channel : Notifier.adapter :=
  Notifier.TelegramNotifier (lit "123:abc") (lit "42").

(** Stand-ins for the interpreter's table of letters and for the YAML
    parser: no letter beyond ASCII, and a parser that answers the text
    it was given. *)
Definition ascii_only (c : N) : bool := false.
Definition yaml_text (s : pystr) : outcome pystr := Returns s.

End Sample.

(* ================================================================== *)
(** * Facts about strings and dictionaries *)
(* ================================================================== *)

Unset Implicit Arguments.

(** Division and remainder by constants, for [lia]. *)
Ltac Zify.zify_post_hook ::= Z.to_euclidean_division_equations.

(** Lengths of concatenations, spelled out. *)
Ltac lengths :=
  unfold Json.encode_str in *; change (lit ": ") with [58%N; 32%N] in *;
  repeat (progress (rewrite ?length_app in *; cbn [List.length] in * )).

(** Case analysis on every test and match of the goal. *)
Ltac split_scan :=
  repeat match goal with
         | |- context [if ?b then _ else _] => destruct b
         | |- context [match ?x with _ => _ end] => destruct x eqn:?
         | p : _ * _ |- _ => destruct p
         end.

(** The digest of the standard test message. *)
Example sha256_abc :
  Sha256.hexdigest (Sha256.encode (lit "abc"))
  = lit "ba7816bf8f01cfea414140de5dae2223b00361a396177a9cb410ff61f20015ad".
Proof. vm_compute. reflexivity. Qed.

Lemma str_eqb_spec (a b : pystr) : reflect (a = b) (str_eqb a b).
Proof.
  revert b; induction a as [|x a IH]; intros [|y b]; simpl;
    try (constructor; congruence).
  destruct (N.eqb_spec x y) as [->|Hne]; simpl.
  - destruct (IH b) as [->|Hne]; constructor; congruence.
  - constructor; congruence.
Qed.

Lemma str_eqb_refl (a : pystr) : str_eqb a a = true.
Proof. destruct (str_eqb_spec a a); congruence. Qed.

Lemma str_eqb_eq (a b : pystr) : str_eqb a b = true <-> a = b.
Proof. destruct (str_eqb_spec a b); split; congruence. Qed.

Lemma str_eqb_neq (a b : pystr) : str_eqb a b = false <-> a <> b.
Proof. destruct (str_eqb_spec a b); split; congruence. Qed.

Lemma opt_str_eqb_spec (a b : option pystr) : reflect (a = b) (opt_str_eqb a b).
Proof.
  destruct a as [x|], b as [y|]; simpl; try (constructor; congruence).
  destruct (str_eqb_spec x y); constructor; congruence.
Qed.

Section DictFacts.
Context {K V : Type} (keq : K -> K -> bool).
Hypothesis keq_spec : forall a b, reflect (a = b) (keq a b).

Lemma dict_set_fresh (k : K) (v : V) (d : pydict K V) :
  ~ In k (map fst d) -> dict_set keq k v d = d ++ [(k, v)].
Proof.
  induction d as [|[k' v'] d IH]; simpl; intros Hk; [reflexivity|].
  destruct (keq_spec k k') as [->|_]; [tauto|].
  rewrite IH by tauto. reflexivity.
Qed.

Lemma dict_set_keys (k : K) (v : V) (d : pydict K V) :
  In k (map fst d) -> map fst (dict_set keq k v d) = map fst d.
Proof.
  induction d as [|[k' v'] d IH]; simpl; intros Hk; [tauto|].
  destruct (keq_spec k k') as [->|Hne]; simpl; [reflexivity|].
  rewrite IH; [reflexivity|]. destruct Hk; congruence.
Qed.

Lemma dict_get_set_same (k : K) (v : V) (d : pydict K V) :
  dict_get keq k (dict_set keq k v d) = Some v.
Proof.
  induction d as [|[k' v'] d IH]; simpl.
  - destruct (keq_spec k k); congruence.
  - destruct (keq_spec k k') as [->|Hne]; simpl.
    + destruct (keq_spec k' k'); congruence.
    + destruct (keq_spec k k'); congruence.
Qed.

Lemma dict_get_set_other (k k' : K) (v : V) (d : pydict K V) :
  k <> k' -> dict_get keq k (dict_set keq k' v d) = dict_get keq k d.
Proof.
  intros Hne. induction d as [|[k0 v0] d IH]; simpl.
  - destruct (keq_spec k k'); congruence.
  - destruct (keq_spec k' k0) as [->|Hne0]; simpl.
    + destruct (keq_spec k k0); congruence.
    + destruct (keq_spec k k0); congruence.
Qed.

Lemma dict_fold_fresh (pairs : list (K * V)) (acc : pydict K V) :
  NoDup (map fst (acc ++ pairs)) ->
  fold_left (fun d kv => dict_set keq (fst kv) (snd kv) d) pairs acc
  = acc ++ pairs.
Proof.
  revert acc; induction pairs as [|[k v] pairs IH]; intros acc Hnd; simpl.
  - now rewrite app_nil_r.
  - rewrite dict_set_fresh.
    + rewrite IH; rewrite <- app_assoc; [reflexivity | exact Hnd].
    + rewrite map_app in Hnd. simpl in Hnd.
      apply NoDup_remove_2 in Hnd. intros Hin. apply Hnd.
      apply in_or_app. now left.
Qed.

(** A list of pairs with distinct keys is its own dictionary. *)
Lemma dict_of_pairs_nodup (pairs : list (K * V)) :
  NoDup (map fst pairs) -> dict_of_pairs keq pairs = pairs.
Proof. intros Hnd. unfold dict_of_pairs. now rewrite dict_fold_fresh. Qed.

Lemma dict_set_In_key (k x : K) (v : V) (d : pydict K V) :
  In x (map fst (dict_set keq k v d)) -> x = k \/ In x (map fst d).
Proof.
  induction d as [|[k' v'] d IH]; simpl.
  - intros [<-|[]]. now left.
  - destruct (keq_spec k k') as [->|Hne]; simpl; [tauto|].
    intros [<-|Hin]; [tauto|]. destruct (IH Hin); tauto.
Qed.

Lemma dict_set_nodup (k : K) (v : V) (d : pydict K V) :
  NoDup (map fst d) -> NoDup (map fst (dict_set keq k v d)).
Proof.
  induction d as [|[k' v'] d IH]; simpl; intros Hnd.
  - repeat constructor. simpl. tauto.
  - inversion Hnd as [|x l Hnotin Hnd']; subst.
    destruct (keq_spec k k') as [->|Hne]; simpl.
    + now constructor.
    + constructor; [|now apply IH].
      intros Hin. apply dict_set_In_key in Hin. destruct Hin; congruence.
Qed.

Lemma dict_set_Forall (Q : K * V -> Prop) (k : K) (v : V) (d : pydict K V) :
  Q (k, v) -> Forall Q d -> Forall Q (dict_set keq k v d).
Proof.
  intros Hkv. induction d as [|[k' v'] d IH]; simpl; intros Hd.
  - now repeat constructor.
  - inversion Hd as [|x l Hx Hd']; subst.
    destruct (keq_spec k k') as [->|Hne]; constructor; auto.
Qed.

Lemma dict_of_pairs_wf (Q : K * V -> Prop) (pairs : list (K * V)) :
  Forall Q pairs ->
  NoDup (map fst (dict_of_pairs keq pairs))
  /\ Forall Q (dict_of_pairs keq pairs).
Proof.
  unfold dict_of_pairs.
  assert (H : forall acc, NoDup (map fst acc) -> Forall Q acc ->
            Forall Q pairs ->
            let d := fold_left (fun d kv => dict_set keq (fst kv) (snd kv) d)
                               pairs acc in
            NoDup (map fst d) /\ Forall Q d).
  { induction pairs as [|[k v] pairs IH]; intros acc Hnd Hacc Hpairs; simpl.
    - tauto.
    - inversion Hpairs as [|x l Hx Hpairs']; subst.
      apply IH; [now apply dict_set_nodup | now apply dict_set_Forall | exact Hpairs']. }
  intros Hpairs. apply (H []); [constructor | constructor | exact Hpairs].
Qed.

Lemma dict_set_nonempty (k : K) (v : V) (d : pydict K V) :
  dict_set keq k v d <> [].
Proof. destruct d as [|[k' v'] d]; simpl; [|destruct (keq k k')]; discriminate. Qed.

Lemma dict_sets_nonempty (pairs : list (K * V)) (acc : pydict K V) :
  acc <> [] ->
  fold_left (fun d kv => dict_set keq (fst kv) (snd kv) d) pairs acc <> [].
Proof.
  revert acc. induction pairs as [|kv pairs IH]; intros acc Hacc; simpl;
    [exact Hacc|].
  apply IH, dict_set_nonempty.
Qed.

Lemma dict_of_pairs_nonempty (pairs : list (K * V)) :
  pairs <> [] -> dict_of_pairs keq pairs <> [].
Proof.
  unfold dict_of_pairs. destruct pairs as [|kv pairs]; [congruence|].
  intros _. cbn [fold_left]. apply dict_sets_nonempty, dict_set_nonempty.
Qed.
End DictFacts.

(* ================================================================== *)
(** * The json module: decoding what was encoded *)
(* ================================================================== *)

Module JsonFacts.
Import Json.
Local Open Scope N_scope.

(** ** Hexadecimal digits and surrogate pairs *)

Lemma hex_val_digit d : d < 16 -> hex_val (hex_digit d) = Some d.
Proof.
  intros H. unfold hex_val, hex_digit.
  destruct (N.ltb_spec d 10).
  - replace ((48 <=? 48 + d) && (48 + d <=? 57)) with true.
    + f_equal. lia.
    + symmetry. apply andb_true_iff. split; apply N.leb_le; lia.
  - replace ((48 <=? 87 + d) && (87 + d <=? 57)) with false.
    + replace ((97 <=? 87 + d) && (87 + d <=? 102)) with true.
      * f_equal. lia.
      * symmetry. apply andb_true_iff. split; apply N.leb_le; lia.
    + symmetry. apply andb_false_iff. right. apply N.leb_gt. lia.
Qed.

Lemma nibble n k : N.land (N.shiftr n k) 15 = (n / 2 ^ k) mod 16.
Proof.
  rewrite N.shiftr_div_pow2. change 15 with (N.ones 4).
  rewrite N.land_ones. reflexivity.
Qed.

Lemma hex4_val_hex4 n : n < 65536 ->
  hex4_val (hex_digit (N.land (N.shiftr n 12) 15))
           (hex_digit (N.land (N.shiftr n 8) 15))
           (hex_digit (N.land (N.shiftr n 4) 15))
           (hex_digit (N.land n 15)) = Some n.
Proof.
  intros H. unfold hex4_val.
  replace (N.land n 15) with (N.land (N.shiftr n 0) 15) by now rewrite N.shiftr_0_r.
  rewrite !nibble.
  rewrite !hex_val_digit by (apply N.mod_lt; discriminate).
  f_equal. change (2^12) with 4096. change (2^8) with 256. change (2^4) with 16. change (2^0) with 1.
  rewrite N.div_1_r.
  lia.
Qed.



Lemma lor_shifted a b k : b < 2 ^ k -> N.lor (a * 2 ^ k) b = a * 2 ^ k + b.
Proof.
  intros Hb.
  assert (Hdisjoint : N.land (a * 2 ^ k) b = 0).
  { apply N.bits_inj. intros i. rewrite N.land_spec, N.bits_0.
    destruct (N.ltb_spec i k).
    - now rewrite N.mul_pow2_bits_low.
    - replace b with (b mod 2 ^ k) by now apply N.mod_small.
      rewrite N.mod_pow2_bits_high by assumption. apply andb_false_r. }
  rewrite <- N.lxor_lor by assumption. symmetry.
  now apply N.add_nocarry_lxor.
Qed.

Lemma surrogate_pair n : n < 1048576 ->
  let hi := N.lor 55296 (N.land (N.shiftr n 10) 1023) in
  let lo := N.lor 56320 (N.land n 1023) in
  hi < 65536 /\ lo < 65536
  /\ is_high_surrogate hi = true /\ is_low_surrogate lo = true
  /\ join_surrogates hi lo = 65536 + n.
Proof.
  intros H hi lo.
  assert (Hhi : hi = 55296 + n / 1024).
  { subst hi. change 1023 with (N.ones 10).
    rewrite N.land_ones, N.shiftr_div_pow2.
    change 55296 with (54 * 2 ^ 10) at 1. rewrite lor_shifted.
    - change (2 ^ 10) with 1024. lia.
    - apply N.mod_lt. discriminate. }
  assert (Hlo : lo = 56320 + n mod 1024).
  { subst lo. change 1023 with (N.ones 10). rewrite N.land_ones.
    change 56320 with (55 * 2 ^ 10) at 1. rewrite lor_shifted.
    - change (2 ^ 10) with 1024. lia.
    - apply N.mod_lt. discriminate. }
  rewrite Hhi, Hlo. unfold is_high_surrogate, is_low_surrogate, join_surrogates.
  repeat split.
  - lia.
  - lia.
  - apply andb_true_iff. split; apply N.leb_le; lia.
  - apply andb_true_iff. split; apply N.leb_le; lia.
  - rewrite N.shiftl_mul_pow2.
    replace (55296 + n / 1024 - 55296) with (n / 1024) by lia.
    replace (56320 + n mod 1024 - 56320) with (n mod 1024) by lia.
    rewrite lor_shifted by (apply N.mod_lt; discriminate).
    change (2 ^ 10) with 1024. lia.
Qed.

(** ** One character of a string *)

Lemma scanstring_plain c s :
  c <> quote -> c <> backslash -> 32 <= c ->
  scanstring (c :: s) = cons_char c (scanstring s).
Proof.
  intros H1 H2 H3. simpl.
  apply N.eqb_neq in H1, H2. rewrite H1, H2.
  replace (c <? 32) with false by (symmetry; apply N.ltb_ge; exact H3).
  reflexivity.
Qed.

Lemma scanstring_simple e x s :
  e <> chr "u" -> simple_escape e = Some x ->
  scanstring (backslash :: e :: s) = cons_char x (scanstring s).
Proof.
  intros H1 H2. apply N.eqb_neq in H1. unfold chr in H1. simpl in H1.
  simpl. rewrite H1, H2. reflexivity.
Qed.

Lemma scanstring_u h1 h2 h3 h4 u s :
  hex4_val h1 h2 h3 h4 = Some u -> is_high_surrogate u = false ->
  scanstring (backslash :: chr "u" :: h1 :: h2 :: h3 :: h4 :: s)
  = cons_char u (scanstring s).
Proof.
  intros H1 H2.
  change (scanstring (backslash :: chr "u" :: h1 :: h2 :: h3 :: h4 :: s))
    with (match hex4_val h1 h2 h3 h4 with
          | None => None
          | Some u =>
              if is_high_surrogate u then
                match s with
                | b :: m :: l1 :: l2 :: l3 :: l4 :: s4 =>
                    if (b =? backslash) && (m =? chr "u") then
                      match hex4_val l1 l2 l3 l4 with
                      | None => None
                      | Some u2 =>
                          if is_low_surrogate u2 then
                            cons_char (join_surrogates u u2) (scanstring s4)
                          else cons_char u (scanstring s)
                      end
                    else cons_char u (scanstring s)
                | _ => cons_char u (scanstring s)
                end
              else cons_char u (scanstring s)
          end).
  rewrite H1, H2. reflexivity.
Qed.

Lemma scanstring_pair h1 h2 h3 h4 l1 l2 l3 l4 hi lo s :
  hex4_val h1 h2 h3 h4 = Some hi -> is_high_surrogate hi = true ->
  hex4_val l1 l2 l3 l4 = Some lo -> is_low_surrogate lo = true ->
  scanstring (backslash :: chr "u" :: h1 :: h2 :: h3 :: h4
              :: backslash :: chr "u" :: l1 :: l2 :: l3 :: l4 :: s)
  = cons_char (join_surrogates hi lo) (scanstring s).
Proof.
  intros H1 H2 H3 H4.
  change (scanstring (backslash :: chr "u" :: h1 :: h2 :: h3 :: h4
              :: backslash :: chr "u" :: l1 :: l2 :: l3 :: l4 :: s))
    with (match hex4_val h1 h2 h3 h4 with
          | None => None
          | Some u =>
              if is_high_surrogate u then
                      match hex4_val l1 l2 l3 l4 with
                      | None => None
                      | Some u2 =>
                          if is_low_surrogate u2 then
                            cons_char (join_surrogates u u2) (scanstring s)
                          else cons_char u (scanstring (backslash :: chr "u" :: l1 :: l2 :: l3 :: l4 :: s))
                      end
              else cons_char u (scanstring (backslash :: chr "u" :: l1 :: l2 :: l3 :: l4 :: s))
          end).
  rewrite H1, H2, H3, H4. reflexivity.
Qed.

Lemma scanstring_u_escape c s :
  c < 65536 -> is_high_surrogate c = false ->
  scanstring (u_escape c ++ s) = cons_char c (scanstring s).
Proof.
  intros H1 H2. unfold u_escape, hex4.
  change ((backslash :: chr "u" :: [?a; ?b; ?c; ?d]) ++ s) with (backslash :: chr "u" :: a :: b :: c :: d :: s).
  apply scanstring_u; [now apply hex4_val_hex4 | exact H2].
Qed.

Lemma scanstring_escape_char c s :
  is_scalar c = true ->
  scanstring (escape_char c ++ s) = cons_char c (scanstring s).
Proof.
  intros Hc. unfold is_scalar in Hc. apply andb_true_iff in Hc.
  destruct Hc as [Hmax Hsur]. apply N.ltb_lt in Hmax.
  apply negb_true_iff in Hsur.
  unfold escape_char.
  destruct (N.eqb_spec c quote) as [->|H1];
    [now apply scanstring_simple|].
  destruct (N.eqb_spec c backslash) as [->|H2];
    [now apply scanstring_simple|].
  destruct (N.eqb_spec c 10) as [->|H3];
    [now apply scanstring_simple|].
  destruct (N.eqb_spec c 13) as [->|H4];
    [now apply scanstring_simple|].
  destruct (N.eqb_spec c 9) as [->|H5];
    [now apply scanstring_simple|].
  destruct (N.eqb_spec c 12) as [->|H6];
    [now apply scanstring_simple|].
  destruct (N.eqb_spec c 8) as [->|H7];
    [now apply scanstring_simple|].
  destruct ((32 <=? c) && (c <=? 126)) eqn:Hprint.
  - apply andb_true_iff in Hprint. destruct Hprint as [Hlo _].
    apply N.leb_le in Hlo. now apply scanstring_plain.
  - destruct (N.ltb_spec c 65536) as [Hbmp|Hbig].
    + apply scanstring_u_escape; [exact Hbmp|].
      unfold is_high_surrogate.
      apply andb_false_iff in Hsur. apply andb_false_iff.
      destruct Hsur as [Hs|Hs]; [now left|].
      apply N.leb_gt in Hs. right. apply N.leb_gt. lia.
    + destruct (surrogate_pair (c - 65536)) as (Hhi & Hlo & Hhigh & Hlow & Hjoin);
        [lia|].
      cbv zeta in Hhi, Hlo, Hhigh, Hlow, Hjoin.
      set (hi := N.lor 55296 (N.land (N.shiftr (c - 65536) 10) 1023)) in *.
      set (lo := N.lor 56320 (N.land (c - 65536) 1023)) in *.
      unfold u_escape, hex4. cbn [app].
      rewrite (scanstring_pair _ _ _ _ _ _ _ _ hi lo)
        by auto using hex4_val_hex4.
      replace (join_surrogates hi lo) with c by lia. reflexivity.
Qed.

Lemma scanstring_escaped (str rest : pystr) :
  text_ok str = true ->
  scanstring (flat_map escape_char str ++ quote :: rest) = Some (str, rest).
Proof.
  induction str as [|c str IH]; intros Hok.
  - reflexivity.
  - simpl in Hok. apply andb_true_iff in Hok. destruct Hok as [Hc Hstr].
    cbn [flat_map]. rewrite <- app_assoc.
    rewrite scanstring_escape_char by exact Hc.
    now rewrite IH.
Qed.

Lemma skip_ws_stop c s : is_ws c = false -> skip_ws (c :: s) = c :: s.
Proof. intros H. simpl. now rewrite H. Qed.

Lemma skip_ws_indent n c s :
  is_ws c = false -> skip_ws (newline_indent n ++ c :: s) = c :: s.
Proof.
  intros H. unfold newline_indent.
  change ((10 :: ?l) ++ c :: s) with (10 :: (l ++ c :: s)).
  cbn [app]. change (skip_ws (10 :: ?l)) with (skip_ws l).
  induction (2 * n)%nat as [|k IH]; simpl repeat; cbn [app].
  - now apply skip_ws_stop.
  - exact IH.
Qed.

(** ** Dictionaries *)

Section Roundtrip.
Variable float_repr : float -> pystr.
Variable float_of_str : pystr -> float.
Variable int_max_str_digits : nat.

Abbreviation encode := (Json.encode float_repr).
Abbreviation scan_once := (Json.scan_once float_of_str int_max_str_digits).
Abbreviation scan_members :=
  (Json.scan_members float_of_str int_max_str_digits).

Lemma scan_once_quote depth f s :
  scan_once depth (S f) (quote :: s)
  = match scanstring s with
    | Some (str, rest) => Returns (JStr str, rest)
    | None => Raises JSONDecodeError
    end.
Proof. reflexivity. Qed.

Lemma scan_once_brace depth f s :
  scan_once (S depth) (S f) (chr "{" :: s)
  = match skip_ws s with
    | d :: s2 =>
        if d =? chr "}" then Returns (JObj [], s2)
        else if d =? quote then
          match scan_members depth f s2 with
          | Returns (pairs, rest) =>
              Returns (JObj (dict_of_pairs str_eqb pairs), rest)
          | Raises e => Raises e
          end
        else Raises JSONDecodeError
    | [] => Raises JSONDecodeError
    end.
Proof. reflexivity. Qed.

Lemma scan_members_step depth f s :
  scan_members depth (S f) s
  = match scanstring s with
    | None => Raises JSONDecodeError
    | Some (key, s1) =>
        match skip_ws s1 with
        | c :: s2 =>
            if c =? chr ":" then
              match scan_once depth f (skip_ws s2) with
              | Raises e => Raises e
              | Returns (v, s3) =>
                  match skip_ws s3 with
                  | d :: s4 =>
                      if d =? chr "}" then Returns ([(key, v)], s4)
                      else if d =? chr "," then
                        match skip_ws s4 with
                        | q :: s5 =>
                            if q =? quote then
                              match scan_members depth f s5 with
                              | Returns (more, rest) =>
                                  Returns ((key, v) :: more, rest)
                              | Raises e => Raises e
                              end
                            else Raises JSONDecodeError
                        | [] => Raises JSONDecodeError
                        end
                      else Raises JSONDecodeError
                  | [] => Raises JSONDecodeError
                  end
              end
            else Raises JSONDecodeError
        | [] => Raises JSONDecodeError
        end
    end.
Proof. reflexivity. Qed.

Section Members.
Variable lvl : nat.
(** The depth the values need. *)
Variable need : nat.
Variable good : json -> Prop.
Hypothesis good_scan :
  forall v, good v -> forall depth fuel rest,
    (need <= depth)%nat ->
    (List.length (encode (S lvl) v) <= fuel)%nat ->
    scan_once depth fuel (encode (S lvl) v ++ rest) = Returns (v, rest).
Hypothesis good_start :
  forall v, good v ->
    exists c r, encode (S lvl) v = c :: r /\ is_ws c = false.

Abbreviation member := (Json.member float_repr lvl).
Abbreviation members_tail := (Json.members_tail float_repr lvl).
Abbreviation good_member := (Json.good_member good).

Lemma join_members kv ms :
  join (chr "," :: newline_indent (S lvl)) (map member (kv :: ms))
  ++ newline_indent lvl ++ [chr "}"]
  = member kv ++ members_tail ms.
Proof.
  revert kv. induction ms as [|kv' ms IH]; intros kv.
  - reflexivity.
  - change (map member (kv :: kv' :: ms)) with (member kv :: map member (kv' :: ms)).
    change (join ?sep (?x :: map member (kv' :: ms)))
      with (x ++ sep ++ join sep (map member (kv' :: ms))).
    rewrite <- !app_assoc. rewrite IH. reflexivity.
Qed.

Lemma scan_members_ok depth (Hdepth : (need <= depth)%nat) ms :
  forall k v fuel rest,
  good_member (k, v) -> Forall good_member ms ->
  (List.length (member (k, v) ++ members_tail ms) <= fuel)%nat ->
  scan_members depth fuel
    (flat_map escape_char k ++ quote :: lit ": " ++ encode (S lvl) v
     ++ members_tail ms ++ rest)
  = Returns ((k, v) :: ms, rest).
Proof.
  induction ms as [|[k' v'] ms IH]; intros k v fuel rest [Hk Hv] Hms Hfuel.
  - destruct fuel as [|f]; [simpl in Hfuel; lia|].
    rewrite scan_members_step, scanstring_escaped by exact Hk.
    change (lit ": " ++ ?x) with (chr ":" :: 32 :: x).
    rewrite skip_ws_stop by reflexivity.
    change (chr ":" =? chr ":") with true. cbv iota.
    change (skip_ws (32 :: ?x)) with (skip_ws x).
    destruct (good_start v Hv) as (c & r & Hstart & Hc).
    rewrite Hstart. cbn [app]. rewrite skip_ws_stop by exact Hc.
    change (c :: r ++ ?x) with ((c :: r) ++ x). rewrite <- Hstart.
    rewrite good_scan; [|exact Hv|exact Hdepth|].
    + cbn [members_tail]. rewrite <- app_assoc. cbn [app].
      rewrite skip_ws_indent by reflexivity. reflexivity.
    + clear Hstart. unfold member in Hfuel. cbn [fst snd] in Hfuel.
      lengths. lia.
  - destruct fuel as [|f]; [simpl in Hfuel; lia|].
    rewrite scan_members_step, scanstring_escaped by exact Hk.
    change (lit ": " ++ ?x) with (chr ":" :: 32 :: x).
    rewrite skip_ws_stop by reflexivity.
    change (chr ":" =? chr ":") with true. cbv iota.
    change (skip_ws (32 :: ?x)) with (skip_ws x).
    destruct (good_start v Hv) as (c & r & Hstart & Hc).
    rewrite Hstart. cbn [app]. rewrite skip_ws_stop by exact Hc.
    change (c :: r ++ ?x) with ((c :: r) ++ x). rewrite <- Hstart.
    rewrite good_scan; [|exact Hv|exact Hdepth|].
    + cbn [members_tail]. cbn [app].
      rewrite skip_ws_stop by reflexivity.
      change (chr "," =? chr "}") with false.
      change (chr "," =? chr ",") with true. cbv iota.
      rewrite <- !app_assoc.
      unfold member at 1. cbn [fst snd]. unfold encode_str. cbn [app].
      rewrite skip_ws_indent by reflexivity.
      change (quote =? quote) with true. cbv iota.
      rewrite <- !app_assoc. cbn [app].
      inversion Hms as [|x l Hkv' Hms']; subst.
      rewrite IH; [reflexivity | exact Hkv' | exact Hms' |].
      clear IH Hstart. cbn [members_tail] in Hfuel.
      unfold member in *. cbn [fst snd] in *. lengths. lia.
    + clear IH Hstart. unfold member in Hfuel. cbn [fst snd] in Hfuel.
      lengths. lia.
Qed.

Lemma scan_object_ok ms depth fuel rest :
  Forall good_member ms -> NoDup (map fst ms) ->
  (S need <= depth)%nat ->
  (List.length (encode lvl (JObj ms)) <= fuel)%nat ->
  scan_once depth fuel (encode lvl (JObj ms) ++ rest) = Returns (JObj ms, rest).
Proof.
  intros Hms Hnd Hdepth Hfuel.
  destruct depth as [|depth]; [lia|].
  assert (Hneed : (need <= depth)%nat) by lia.
  destruct ms as [|[k v] ms].
  - destruct fuel as [|f]; [simpl in Hfuel; lia|].
    change (encode lvl (JObj []) ++ rest) with (chr "{" :: chr "}" :: rest).
    rewrite scan_once_brace, skip_ws_stop by reflexivity. reflexivity.
  - change (encode lvl (JObj ((k, v) :: ms)))
      with (chr "{" :: newline_indent (S lvl)
            ++ (join (chr "," :: newline_indent (S lvl))
                     (map member ((k, v) :: ms))
                ++ newline_indent lvl ++ [chr "}"])) in *.
    rewrite join_members in *.
    destruct fuel as [|f]; [simpl in Hfuel; lia|].
    cbn [app]. rewrite scan_once_brace.
    unfold member at 1. cbn [fst snd]. unfold encode_str.
    rewrite <- !app_assoc. cbn [app].
    rewrite skip_ws_indent by reflexivity.
    change (quote =? chr "}") with false.
    change (quote =? quote) with true. cbv iota.
    rewrite <- !app_assoc. cbn [app].
    inversion Hms as [|x l Hkv Hms']; subst.
    rewrite (scan_members_ok depth Hneed); [| exact Hkv | exact Hms' |].
    + now rewrite (dict_of_pairs_nodup str_eqb str_eqb_spec).
    + clear Hkv Hms Hms'. unfold member in *. cbn [fst snd] in *.
      lengths. lia.
Qed.
End Members.

Lemma scan_good_string lvl v :
  good_string v -> forall depth fuel rest,
    (0 <= depth)%nat ->
    (List.length (encode lvl v) <= fuel)%nat ->
    scan_once depth fuel (encode lvl v ++ rest) = Returns (v, rest).
Proof.
  intros [s [-> Hs]] depth fuel rest _ Hfuel.
  destruct fuel as [|f]; [simpl in Hfuel; lia|].
  change (encode lvl (JStr s)) with (quote :: flat_map escape_char s ++ [quote]).
  cbn [app]. rewrite <- app_assoc. cbn [app].
  now rewrite scan_once_quote, scanstring_escaped.
Qed.

Lemma start_good_string lvl v :
  good_string v -> exists c r, encode lvl v = c :: r /\ is_ws c = false.
Proof. intros [s [-> Hs]]. now eexists _, _. Qed.

Lemma start_good_dict inner lvl v :
  good_dict inner v -> exists c r, encode lvl v = c :: r /\ is_ws c = false.
Proof. intros [[|kv ms] [-> _]]; now eexists _, _. Qed.

Lemma scan_good_dict inner need lvl v :
  (forall v, inner v -> forall depth fuel rest,
      (need <= depth)%nat ->
      (List.length (encode (S lvl) v) <= fuel)%nat ->
      scan_once depth fuel (encode (S lvl) v ++ rest) = Returns (v, rest)) ->
  (forall v, inner v ->
      exists c r, encode (S lvl) v = c :: r /\ is_ws c = false) ->
  good_dict inner v -> forall depth fuel rest,
    (S need <= depth)%nat ->
    (List.length (encode lvl v) <= fuel)%nat ->
    scan_once depth fuel (encode lvl v ++ rest) = Returns (v, rest).
Proof.
  intros Hscan Hstart [ms [-> [Hnd Hms]]] depth fuel rest Hdepth Hfuel.
  now apply (scan_object_ok lvl need inner Hscan Hstart).
Qed.

(** [loads] undoes [dumps] on a dictionary of dictionaries of strings,
    when it may go two containers deep. *)
Lemma loads_dumps m depth :
  good_dict (good_dict good_string) m ->
  (2 <= depth)%nat ->
  Json.loads float_of_str int_max_str_digits depth (Json.dumps float_repr m)
  = Returns m.
Proof.
  intros Hm Hdepth.
  assert (Hscan : forall fuel rest,
             (List.length (encode 0 m) <= fuel)%nat ->
             scan_once depth fuel (encode 0 m ++ rest) = Returns (m, rest)).
  { intros fuel rest.
    apply (scan_good_dict (good_dict good_string) 1 0 m); [| |exact Hm|exact Hdepth].
    - intros v Hv. apply (scan_good_dict good_string 0 1 v); [| |exact Hv].
      + intros v'. apply scan_good_string.
      + intros v'. apply start_good_string.
    - intros v. apply start_good_dict. }
  destruct (start_good_dict _ 0 m Hm) as (c & r & Hstart & Hc).
  assert (Hbom : c <> 65279).
  { destruct Hm as [[|kv ms] [-> _]]; inversion Hstart; discriminate. }
  unfold Json.loads, Json.dumps.
  specialize (Hscan (2 * List.length (encode 0 m) + 2)%nat []).
  rewrite app_nil_r in Hscan.
  rewrite Hstart in *.
  rewrite skip_ws_stop by exact Hc.
  rewrite Hscan by lia.
  destruct c as [|p]; [reflexivity|].
  repeat (destruct p as [p|p|]; try reflexivity). congruence.
Qed.
End Roundtrip.

(** ** What the decoder builds *)

Section Decoded.
Variable float_of_str : pystr -> float.
Variable int_max_str_digits : nat.
Abbreviation scan_once := (Json.scan_once float_of_str int_max_str_digits).
Abbreviation scan_members :=
  (Json.scan_members float_of_str int_max_str_digits).
Abbreviation scan_items := (Json.scan_items float_of_str int_max_str_digits).
Abbreviation scan_number :=
  (Json.scan_number float_of_str int_max_str_digits).

Lemma scan_once_step depth f c s1 :
  scan_once depth (S f) (c :: s1)
  = let s := c :: s1 in
    if c =? quote then
      match scanstring s1 with
      | Some (str, rest) => Returns (JStr str, rest)
      | None => Raises JSONDecodeError
      end
    else if c =? chr "{" then
      match depth with
      | O => Raises RecursionError
      | S depth' =>
          match skip_ws s1 with
          | d :: s2 =>
              if d =? chr "}" then Returns (JObj [], s2)
              else if d =? quote then
                match scan_members depth' f s2 with
                | Returns (pairs, rest) =>
                    Returns (JObj (dict_of_pairs str_eqb pairs), rest)
                | Raises e => Raises e
                end
              else Raises JSONDecodeError
          | [] => Raises JSONDecodeError
          end
      end
    else if c =? chr "[" then
      match depth with
      | O => Raises RecursionError
      | S depth' =>
          match skip_ws s1 with
          | d :: s2 =>
              if d =? chr "]" then Returns (JArr [], s2)
              else
                match scan_items depth' f (d :: s2) with
                | Returns (items, rest) => Returns (JArr items, rest)
                | Raises e => Raises e
                end
          | [] => Raises JSONDecodeError
          end
      end
    else
      match strip_prefix (lit "null") s with
      | Some rest => Returns (JNull, rest)
      | None =>
      match strip_prefix (lit "true") s with
      | Some rest => Returns (JBool true, rest)
      | None =>
      match strip_prefix (lit "false") s with
      | Some rest => Returns (JBool false, rest)
      | None =>
      match scan_number s with
      | Some r => r
      | None =>
      match strip_prefix (lit "NaN") s with
      | Some rest => Returns (JFloat PrimFloat.nan, rest)
      | None =>
      match strip_prefix (lit "Infinity") s with
      | Some rest => Returns (JFloat PrimFloat.infinity, rest)
      | None =>
      match strip_prefix (lit "-Infinity") s with
      | Some rest => Returns (JFloat PrimFloat.neg_infinity, rest)
      | None => Raises JSONDecodeError
      end end end end end end end.
Proof. reflexivity. Qed.

Lemma scan_number_keys s v rest :
  scan_number s = Some (Returns (v, rest)) -> distinct_keys2 v.
Proof.
  unfold Json.scan_number.
  destruct (match s with
            | [] => ([], s)
            | c :: s' => if c =? chr "-" then ([c], s') else ([], s)
            end) as [sign s0].
  destruct (scan_int s0) as [[int_part s1]|]; [|discriminate].
  destruct (scan_frac s1) as [frac s2]. destruct (scan_exp s2) as [exp s3].
  destruct frac, exp; try destruct (Json.too_many_digits _ _);
    intros H; inversion H; exact I.
Qed.

Lemma distinct_keys2_1 v : distinct_keys2 v -> distinct_keys v.
Proof. destruct v; simpl; tauto. Qed.

Lemma scan_once_distinct depth fuel s v rest :
  scan_once depth fuel s = Returns (v, rest) -> distinct_keys v.
Proof.
  destruct fuel as [|f]; [discriminate|]. destruct s as [|c s1]; [discriminate|].
  rewrite scan_once_step. cbv zeta.
  split_scan; intros H; inversion H; subst; simpl; try exact I.
  - constructor.
  - apply (dict_of_pairs_wf str_eqb str_eqb_spec (fun _ => True)).
    apply Forall_forall. auto.
  - eapply distinct_keys2_1, scan_number_keys. eassumption.
Qed.

Lemma scan_members_distinct depth fuel : forall s pairs rest,
  scan_members depth fuel s = Returns (pairs, rest) ->
  Forall (fun kv => distinct_keys (snd kv)) pairs.
Proof.
  induction fuel as [|f IH]; intros s pairs rest; [discriminate|].
  rewrite scan_members_step.
  split_scan; intros H; inversion H; subst; constructor;
    eauto using scan_once_distinct.
Qed.

Lemma scan_once_distinct2 depth fuel s v rest :
  scan_once depth fuel s = Returns (v, rest) -> distinct_keys2 v.
Proof.
  destruct fuel as [|f]; [discriminate|]. destruct s as [|c s1]; [discriminate|].
  rewrite scan_once_step. cbv zeta.
  split_scan; intros H; inversion H; subst; simpl; try exact I.
  - split; constructor.
  - apply (dict_of_pairs_wf str_eqb str_eqb_spec).
    eapply scan_members_distinct. eassumption.
  - eapply scan_number_keys. eassumption.
Qed.

Lemma loads_distinct depth text m :
  Json.loads float_of_str int_max_str_digits depth text = Returns m ->
  distinct_keys2 m.
Proof.
  unfold Json.loads. intros H.
  assert (H' : match scan_once depth (2 * List.length text + 2) (skip_ws text) with
               | Returns (v, rest) =>
                   match skip_ws rest with
                   | [] => Returns v
                   | _ => Raises JSONDecodeError
                   end
               | Raises e => Raises e
               end = Returns m).
  { destruct text as [|c t]; [exact H|]. destruct c as [|p]; [exact H|].
    repeat (destruct p as [p|p|]; try exact H; try discriminate H). }
  clear H.
  destruct (scan_once _ _ _) as [[v rest]|] eqn:E; [|discriminate].
  destruct (skip_ws rest); [|discriminate].
  inversion H'; subst. eapply scan_once_distinct2. eassumption.
Qed.

Lemma scan_number_atom s v rest :
  scan_number s = Some (Returns (v, rest)) -> forall ms, v <> JObj ms.
Proof.
  unfold Json.scan_number.
  destruct (match s with
            | [] => ([], s)
            | c :: s' => if c =? chr "-" then ([c], s') else ([], s)
            end) as [sign s0].
  destruct (scan_int s0) as [[int_part s1]|]; [|discriminate].
  destruct (scan_frac s1) as [frac s2]. destruct (scan_exp s2) as [exp s3].
  destruct frac, exp; try destruct (Json.too_many_digits _ _);
    intros H; inversion H; discriminate.
Qed.

(** With no container left to enter, the decoder returns no
    dictionary. *)
Lemma scan_once_flat fuel s v rest :
  scan_once 0 fuel s = Returns (v, rest) -> forall ms, v <> JObj ms.
Proof.
  destruct fuel as [|f]; [discriminate|]. destruct s as [|c s1]; [discriminate|].
  rewrite scan_once_step. cbv zeta.
  split_scan; intros H; inversion H; subst; try discriminate.
  eapply scan_number_atom. eassumption.
Qed.

Lemma scan_members_flat fuel : forall s pairs rest,
  scan_members 0 fuel s = Returns (pairs, rest) ->
  pairs <> []
  /\ Forall (fun kv => forall ms, snd kv <> JObj ms) pairs.
Proof.
  induction fuel as [|f IH]; intros s pairs rest; [discriminate|].
  rewrite scan_members_step.
  split_scan; intros H; inversion H; subst; (split; [discriminate|]);
    (constructor;
     [simpl; eapply scan_once_flat; eassumption
     | first [constructor | eapply IH; eassumption]]).
Qed.

(** A validator mapping that the decoder returns tells how deep the
    decoder could go. *)
Lemma loads_depth depth text m :
  Json.loads float_of_str int_max_str_digits depth text = Returns m ->
  Fetcher.validator_mapping m = true ->
  (m = JObj [] /\ 1 <= depth)%nat \/ (2 <= depth)%nat.
Proof.
  unfold Json.loads. intros H Hshape.
  assert (H' : match scan_once depth (2 * List.length text + 2) (skip_ws text) with
               | Returns (v, rest) =>
                   match skip_ws rest with
                   | [] => Returns v
                   | _ => Raises JSONDecodeError
                   end
               | Raises e => Raises e
               end = Returns m).
  { destruct text as [|c t]; [exact H|]. destruct c as [|p]; [exact H|].
    repeat (destruct p as [p|p|]; try exact H; try discriminate H). }
  clear H.
  destruct (scan_once _ _ _) as [[v rest]|] eqn:E; [|discriminate].
  destruct (skip_ws rest); [|discriminate].
  inversion H'; subst v. clear H'. revert E.
  destruct (2 * List.length text + 2)%nat as [|f]; [discriminate|].
  destruct (skip_ws text) as [|c s1]; [discriminate|].
  rewrite scan_once_step. cbv zeta.
  destruct depth as [|[|depth]]; [| |intros _; right; lia].
  - split_scan; intros H; inversion H; subst; try discriminate.
    exfalso. destruct m; try discriminate.
    eapply scan_number_atom; [eassumption | reflexivity].
  - split_scan; intros H; inversion H; subst; try discriminate.
    + left. split; [reflexivity | lia].
    + exfalso.
      match goal with
      | Hscan : scan_members 0 _ _ = Returns _ |- _ =>
          apply scan_members_flat in Hscan; destruct Hscan as [Hne Hflat]
      end.
      pose proof (dict_of_pairs_nonempty str_eqb _ Hne) as Hne'.
      pose proof (proj2 (dict_of_pairs_wf str_eqb str_eqb_spec _ _ Hflat))
        as Hflat'.
      simpl in Hshape.
      destruct (dict_of_pairs str_eqb _) as [|[k v] d]; [congruence|].
      apply Forall_inv in Hflat'. simpl in Hshape, Hflat'.
      apply andb_true_iff in Hshape. destruct Hshape as [Hkv _].
      apply andb_true_iff in Hkv. destruct Hkv as [_ Hv'].
      destruct v as [| | | | | |ms]; try discriminate.
      now apply (Hflat' ms).
    + exfalso. destruct m; try discriminate.
      eapply scan_number_atom; [eassumption | reflexivity].
Qed.
End Decoded.

End JsonFacts.

(* ================================================================== *)
(** * fetcher.py: the cache file *)
(* ================================================================== *)

Module CacheSpec.
Import Json JsonFacts Fetcher.

Lemma validator_mapping_good m :
  validator_mapping m = true -> distinct_keys2 m ->
  good_dict (good_dict good_string) m.
Proof.
  destruct m as [| | | | | |ms]; try discriminate. simpl.
  intros Hshape [Hnd Hvals]. exists ms. split; [reflexivity|]. split; [exact Hnd|].
  rewrite forallb_forall in Hshape. rewrite Forall_forall in *.
  intros [k v] Hin. specialize (Hshape _ Hin). specialize (Hvals _ Hin).
  simpl in *. apply andb_true_iff in Hshape. destruct Hshape as [Hk Hv].
  split; [exact Hk|]. simpl.
  destruct v as [| | | | | |ms']; try discriminate. simpl in Hv, Hvals.
  exists ms'. split; [reflexivity|]. split; [exact Hvals|].
  rewrite forallb_forall in Hv. apply Forall_forall.
  intros [k' v'] Hin'. specialize (Hv _ Hin'). simpl in Hv.
  apply andb_true_iff in Hv. destruct Hv as [Hk' Hv'].
  split; [exact Hk'|]. simpl.
  destruct v'; try discriminate. now exists s.
Qed.

Lemma first_error_none (errors : list (option pystr)) :
  Forall (fun e => e = None) errors -> first_error errors = None.
Proof.
  induction 1 as [|e errors He _ IH]; simpl; [reflexivity|].
  now rewrite He.
Qed.

(** The encoder has nothing to object to in a validator mapping, when
    it may go two containers deep. *)
Lemma good_cache_encodes (limit depth : nat) m :
  good_dict (good_dict good_string) m -> (2 <= depth)%nat ->
  encoder_error limit depth m = None.
Proof.
  intros [ms [-> [_ Hms]]] Hdepth.
  destruct depth as [|[|depth]]; try lia. cbn [encoder_error].
  apply first_error_none, Forall_map.
  eapply Forall_impl; [|exact Hms].
  intros [k v] [_ [ms' [Hv [_ Hms']]]]. simpl in Hv |- *. subst v.
  cbn [encoder_error].
  apply first_error_none, Forall_map.
  eapply Forall_impl; [|exact Hms'].
  intros [k' v'] [_ [s [Hv' _]]]. simpl in Hv' |- *. now subst v'.
Qed.

Section CacheFile.
Variable float_repr : float -> pystr.
Variable float_of_str : pystr -> float.
Variable int_max_str_digits : nat.
Variable decoder_depth : nat.
Variable encoder_depth : nat.

Abbreviation load_cache :=
  (Fetcher.load_cache float_of_str int_max_str_digits decoder_depth).
Abbreviation save_cache :=
  (Fetcher.save_cache float_repr int_max_str_digits encoder_depth).

(** [save_cache] writes a validator mapping, and [load_cache] reads it
    back. *)
Lemma save_then_load m :
  good_dict (good_dict good_string) m ->
  (2 <= decoder_depth)%nat -> (2 <= encoder_depth)%nat ->
  save_cache m = Returns (Text (Json.dumps float_repr m))
  /\ load_cache (Text (Json.dumps float_repr m)) = Returns m.
Proof.
  intros Hm Hdec Henc. unfold Fetcher.save_cache, Fetcher.load_cache.
  rewrite (good_cache_encodes _ _ m Hm Henc).
  now rewrite (loads_dumps float_repr float_of_str int_max_str_digits m
                 decoder_depth Hm Hdec).
Qed.

(** C9.  When the cache file holds a validator mapping, [load_cache]
    gives that mapping, and it gives the same mapping again from the
    file that [save_cache] writes for it: [save(load())] leaves the
    mapping as it was.  (The interpreter lets the encoder go two
    containers deep, which is what a validator mapping has; that it
    lets the decoder do so follows from what [json.loads] returned.) *)
Theorem cache_round_trip :
  forall (text : pystr) (m : json),
    Json.loads float_of_str int_max_str_digits decoder_depth text = Returns m ->
    validator_mapping m = true ->
    (2 <= encoder_depth)%nat ->
    load_cache (Text text) = Returns m
    /\ exists saved,
         save_cache m = Returns saved /\ load_cache saved = Returns m.
Proof.
  intros text m Hloads Hshape Henc.
  split; [unfold Fetcher.load_cache; now rewrite Hloads|].
  exists (Text (Json.dumps float_repr m)).
  assert (Hgood : good_dict (good_dict good_string) m).
  { apply validator_mapping_good; [exact Hshape|].
    now apply (loads_distinct float_of_str int_max_str_digits decoder_depth
                 text). }
  split.
  - unfold Fetcher.save_cache.
    now rewrite (good_cache_encodes _ _ m Hgood Henc).
  - unfold Fetcher.load_cache.
    destruct (loads_depth float_of_str int_max_str_digits decoder_depth
                text m Hloads Hshape) as [[-> Hdec]|Hdec].
    + destruct decoder_depth as [|d]; [lia | reflexivity].
    + now rewrite (loads_dumps float_repr float_of_str int_max_str_digits m
                     decoder_depth Hgood Hdec).
Qed.
End CacheFile.

Lemma cache_round_trip_witness :
  Fetcher.load_cache Sample.no_float Sample.max_digits Sample.depth
    (Text Sample.cache_text)
  = Returns Sample.cache_mapping
  /\ exists saved,
       Fetcher.save_cache Sample.no_float_repr Sample.max_digits Sample.depth
         Sample.cache_mapping = Returns saved
       /\ Fetcher.load_cache Sample.no_float Sample.max_digits Sample.depth saved
          = Returns Sample.cache_mapping.
Proof.
  apply (cache_round_trip Sample.no_float_repr Sample.no_float
           Sample.max_digits Sample.depth Sample.depth
           Sample.cache_text Sample.cache_mapping);
    try (vm_compute; reflexivity); unfold Sample.depth; lia.
Defined.

End CacheSpec.

(* ================================================================== *)
(** * storage.py: the store keeps one record per fingerprint *)
(* ================================================================== *)

Module StorageFacts.
Import Storage.

Lemma hashes_of_kept (h : pystr) (rs : list row) :
  NoDup (map r_url_hash rs) ->
  NoDup (map r_url_hash (filter (fun r => negb (str_eqb (r_url_hash r) h)) rs)).
Proof.
  induction rs as [|r rs IH]; simpl; intros Hnd; [constructor|].
  inversion Hnd as [|x l Hnotin Hnd']; subst.
  destruct (str_eqb (r_url_hash r) h); simpl; [now apply IH|].
  constructor; [|now apply IH].
  intros Hin. apply Hnotin. apply in_map_iff in Hin.
  destruct Hin as [r' [Heq Hin]]. apply filter_In in Hin.
  apply in_map_iff. exists r'. tauto.
Qed.

Lemma hash_not_kept (h : pystr) (rs : list row) :
  ~ In h (map r_url_hash (filter (fun r => negb (str_eqb (r_url_hash r) h)) rs)).
Proof.
  intros Hin. apply in_map_iff in Hin. destruct Hin as [r [Heq Hin]].
  apply filter_In in Hin. destruct Hin as [_ Hne].
  rewrite Heq, str_eqb_refl in Hne. discriminate.
Qed.

Lemma mark_processed_unique (t : table) a s now :
  unique_hash t -> unique_hash (mark_processed t a s now).
Proof.
  unfold unique_hash, mark_processed; simpl. intros Hnd.
  rewrite map_app. simpl.
  apply NoDup_app; [|repeat constructor; simpl; tauto|].
  - now apply hashes_of_kept.
  - intros x Hin [<-|[]]. revert Hin. apply hash_not_kept.
Qed.

Lemma none_kept_under (h : pystr) (rs : list row) :
  filter (fun r => str_eqb (r_url_hash r) h)
         (filter (fun r => negb (str_eqb (r_url_hash r) h)) rs) = [].
Proof.
  induction rs as [|r rs IH]; simpl; [reflexivity|].
  destruct (str_eqb (r_url_hash r) h) eqn:E; simpl; [exact IH|].
  now rewrite E.
Qed.

(** After [mark_processed], the article's fingerprint has exactly the
    record just written. *)
Lemma records_after_mark (t : table) a s now :
  records_of (mark_processed t a s now) a
  = [mkRow (next_id t) (url_hash a) (url a) (Some (title a))
           (Some (feed_name a)) s (Some now)].
Proof.
  unfold records_of, mark_processed; simpl.
  rewrite filter_app, none_kept_under. simpl.
  now rewrite str_eqb_refl.
Qed.

Lemma reachable_unique (t : table) : reachable t -> unique_hash t.
Proof.
  induction 1 as [|t a s now _ IH].
  - constructor.
  - now apply mark_processed_unique.
Qed.

Lemma is_processed_iff (t : table) (a : Article) :
  is_processed t a = true <-> In (url_hash a) (map r_url_hash (rows t)).
Proof.
  unfold is_processed. rewrite existsb_exists, in_map_iff.
  split; intros [r [H1 H2]]; exists r.
  - apply str_eqb_eq in H2. tauto.
  - split; [tauto|]. apply str_eqb_eq. tauto.
Qed.

(** Whether an article is recorded depends on its url alone. *)
Lemma is_processed_same_url (t : table) (a b : Article) :
  url a = url b -> is_processed t a = is_processed t b.
Proof.
  intros Hurl. unfold is_processed, url_hash. now rewrite Hurl.
Qed.

Lemma is_processed_after_mark (t : table) a s now :
  is_processed (mark_processed t a s now) a = true.
Proof.
  apply is_processed_iff. unfold mark_processed; simpl.
  rewrite map_app. apply in_or_app. right. simpl. now left.
Qed.

(** A record, once written, stays: later calls replace it but never
    leave its fingerprint without one. *)
Lemma is_processed_kept (t : table) a b s now :
  is_processed t b = true -> is_processed (mark_processed t a s now) b = true.
Proof.
  rewrite !is_processed_iff. unfold mark_processed; simpl.
  rewrite map_app; simpl. intros Hin.
  destruct (str_eqb_spec (url_hash b) (url_hash a)) as [->|Hne].
  - apply in_or_app. right. now left.
  - apply in_or_app. left. apply in_map_iff in Hin.
    destruct Hin as [r [Heq Hin]]. apply in_map_iff. exists r.
    split; [exact Heq|]. apply filter_In. split; [exact Hin|].
    apply negb_true_iff, str_eqb_neq. congruence.
Qed.

End StorageFacts.

Module StorageSpec.
Import Storage StorageFacts.

(** C1.  Every operation of the store keeps at most one record per
    fingerprint, and so does the initialisation of an empty database.
    When [mark_processed] is called on an item with a summary [s1] and
    then again with a summary [s2], the item's fingerprint has exactly one
    record: it carries [s2] and the time of the second call. *)
Theorem store_keeps_one_record_per_fingerprint :
  forall t : table,
    unique_hash t ->
    unique_hash (_init_db None)
    /\ (forall q, unique_hash (snd (exec q t)))
    /\ (forall item s1 s2 now1 now2,
          let t1 := mark_processed t item s1 now1 in
          let t2 := mark_processed t1 item s2 now2 in
          unique_hash t2
          /\ records_of t2 item
             = [mkRow (next_id t1) (url_hash item) (url item)
                      (Some (title item)) (Some (feed_name item))
                      s2 (Some now2)]).
Proof.
  intros t Ht. split; [constructor|]. split.
  - intros [| a | a s now | l |]; simpl; auto using mark_processed_unique.
  - intros item s1 s2 now1 now2 t1 t2. split.
    + subst t1 t2. auto using mark_processed_unique.
    + apply records_after_mark.
Qed.

Lemma store_keeps_one_record_witness :
  unique_hash Sample.one_row
  /\ records_of
       (mark_processed (mark_processed Sample.one_row Sample.post1 None 1)
                       Sample.post1 (Some (lit "new")) 2)
       Sample.post1
     = [mkRow 3 (url_hash Sample.post1) (url Sample.post1)
              (Some (title Sample.post1)) (Some (feed_name Sample.post1))
              (Some (lit "new")) (Some 2)].
Proof.
  assert (H : unique_hash Sample.one_row).
  { unfold unique_hash. vm_compute. constructor; [intros []|constructor]. }
  split; [exact H|].
  exact (proj2 (proj2 (proj2 (store_keeps_one_record_per_fingerprint Sample.one_row H))
                      Sample.post1 None (Some (lit "new")) 1 2)).
Defined.

Lemma filter_none (A : Type) (f : A -> bool) (l : list A) :
  (forall x, In x l -> f x = false) -> filter f l = [].
Proof.
  induction l as [|x l IH]; simpl; intros H; [reflexivity|].
  rewrite (H x) by now left. apply IH. intros y Hy. apply H. now right.
Qed.

Lemma filter_new_is_kept (t : table) (articles : list Article) :
  kept (fun a => ~ recorded t a) articles (filter_new_articles t articles).
Proof.
  induction articles as [|a l IH]; simpl; [constructor|].
  destruct (is_processed t a) eqn:E; simpl.
  - apply kept_out; [|exact IH]. apply is_processed_iff in E. tauto.
  - apply kept_in; [|exact IH].
    intros Hrec. apply is_processed_iff in Hrec. congruence.
Qed.

Lemma marked_all_processed (t t' : table) (items : list Article) :
  marked_all t items t' ->
  (forall b, is_processed t b = true -> is_processed t' b = true)
  /\ (forall a, In a items -> is_processed t' a = true).
Proof.
  induction 1 as [t | t a s now items t' _ [IHkept IHnew]].
  - split; [auto | intros a []].
  - split.
    + intros b Hb. apply IHkept. now apply is_processed_kept.
    + intros b [<-|Hb]; [|now apply IHnew].
      apply IHkept. apply is_processed_after_mark.
Qed.

(** C2.  [filter_new_articles] returns the input items whose fingerprint
    is not recorded, in their input order; and once [mark_processed] was
    called on every item it returned, it returns nothing for the same
    input. *)
Theorem filter_new_articles_then_mark_all :
  forall (t : table) (articles : list Article),
    kept (fun a => ~ recorded t a) articles (filter_new_articles t articles)
    /\ (forall t',
          marked_all t (filter_new_articles t articles) t' ->
          filter_new_articles t' articles = []).
Proof.
  intros t articles. split; [apply filter_new_is_kept|].
  intros t' Hmarked. apply marked_all_processed in Hmarked.
  destruct Hmarked as [Hkept Hnew].
  apply filter_none. intros a Ha. apply negb_false_iff.
  destruct (is_processed t a) eqn:E; [now apply Hkept|].
  apply Hnew. apply filter_In. split; [exact Ha|]. now rewrite E.
Qed.

Lemma filter_new_articles_witness :
  filter_new_articles Sample.one_row [Sample.post1; Sample.post2; Sample.post1]
  = [Sample.post2]
  /\ filter_new_articles
       (mark_processed Sample.one_row Sample.post2 None 5)
       [Sample.post1; Sample.post2; Sample.post1] = [].
Proof.
  split; [vm_compute; reflexivity|].
  apply (proj2 (filter_new_articles_then_mark_all Sample.one_row
                  [Sample.post1; Sample.post2; Sample.post1])).
  change (filter_new_articles Sample.one_row
            [Sample.post1; Sample.post2; Sample.post1])
    with [Sample.post2].
  apply (@marked_cons _ _ None 5). apply marked_nil.
Defined.

(** ** Statistics *)

Lemma sum_bump (k : option pystr) (gs : list (option pystr * Z)) :
  sum_counts (bump k gs) = sum_counts gs + 1.
Proof.
  unfold sum_counts.
  induction gs as [|[k' n] gs IH]; simpl; [lia|].
  destruct (opt_str_eqb k k'); simpl; lia.
Qed.

Lemma keys_bump (k : option pystr) (gs : list (option pystr * Z)) :
  NoDup (map fst gs) -> NoDup (map fst (bump k gs)).
Proof.
  intros Hnd.
  assert (Hkeys : map fst (bump k gs)
                  = if existsb (opt_str_eqb k) (map fst gs)
                    then map fst gs else map fst gs ++ [k]).
  { clear Hnd. induction gs as [|[k' n] gs IH]; simpl; [reflexivity|].
    destruct (opt_str_eqb k k'); simpl; [reflexivity|].
    rewrite IH. now destruct (existsb (opt_str_eqb k) (map fst gs)). }
  rewrite Hkeys.
  destruct (existsb (opt_str_eqb k) (map fst gs)) eqn:E; [exact Hnd|].
  apply NoDup_app; [exact Hnd | repeat constructor; simpl; tauto |].
  intros x Hx [Heq|[]]. subst x.
  assert (existsb (opt_str_eqb k) (map fst gs) = true); [|congruence].
  apply existsb_exists. exists k. split; [exact Hx|].
  now destruct (opt_str_eqb_spec k k).
Qed.

Lemma group_by_feed_name_acc (rs : list row) (acc : list (option pystr * Z)) :
  NoDup (map fst acc) ->
  let gs := fold_left (fun gs r => bump (r_feed_name r) gs) rs acc in
  sum_counts gs = sum_counts acc + Z.of_nat (List.length rs)
  /\ NoDup (map fst gs).
Proof.
  revert acc. induction rs as [|r rs IH]; intros acc Hnd; simpl.
  - split; [lia | exact Hnd].
  - destruct (IH (bump (r_feed_name r) acc) (keys_bump (r_feed_name r) acc Hnd)) as [Hs Hk].
    split; [|exact Hk]. rewrite Hs, sum_bump. lia.
Qed.

Lemma insert_desc_perm g gs : Permutation (insert_desc g gs) (g :: gs).
Proof.
  induction gs as [|g' gs IH]; simpl; [reflexivity|].
  destruct (snd g' <? snd g); [reflexivity|].
  rewrite IH. apply perm_swap.
Qed.

Lemma order_by_count_desc_perm gs : Permutation (order_by_count_desc gs) gs.
Proof.
  induction gs as [|g gs IH]; simpl; [reflexivity|].
  rewrite insert_desc_perm. now constructor.
Qed.

Lemma sum_counts_perm gs gs' :
  Permutation gs gs' -> sum_counts gs = sum_counts gs'.
Proof.
  unfold sum_counts. induction 1; simpl; lia.
Qed.

(** C10.  In every reachable state of the store, [total_articles] is the
    sum of the counts of [by_feed]. *)
Theorem get_stats_total_is_sum_by_feed :
  forall t : table,
    reachable t ->
    total_articles (get_stats t) = sum_counts (by_feed (get_stats t)).
Proof.
  intros t Hreach. unfold get_stats; simpl.
  destruct (group_by_feed_name_acc (rows t) [] (NoDup_nil _)) as [Hsum Hkeys].
  fold (group_by_feed_name (rows t)) in Hsum, Hkeys.
  rewrite (dict_of_pairs_nodup opt_str_eqb opt_str_eqb_spec).
  - rewrite (sum_counts_perm _ _ (order_by_count_desc_perm _)), Hsum.
    unfold sum_counts; simpl. lia.
  - eapply Permutation_NoDup; [|exact Hkeys].
    apply Permutation_map. symmetry. apply order_by_count_desc_perm.
Qed.

Lemma get_stats_total_witness :
  total_articles (get_stats (mark_processed Sample.one_row Sample.post2 None 5))
  = sum_counts (by_feed (get_stats (mark_processed Sample.one_row Sample.post2 None 5))).
Proof.
  apply get_stats_total_is_sum_by_feed.
  apply reach_mark. unfold Sample.one_row. apply reach_mark. apply reach_init.
Defined.

End StorageSpec.

(* ================================================================== *)
(** * fetcher.py: the age filter *)
(* ================================================================== *)

Module AgeFilterSpec.
Import Fetcher.

Lemma age_loop_is_filter (cutoff : datetime) (articles acc : list Article) :
  fold_left
    (fun filtered article =>
       match published article with
       | None => filtered ++ [article]
       | Some p => if cutoff <=? p then filtered ++ [article] else filtered
       end) articles acc
  = acc ++ filter (fun a => match published a with
                            | None => true
                            | Some p => cutoff <=? p
                            end) articles.
Proof.
  revert acc. induction articles as [|a l IH]; intros acc; simpl.
  - now rewrite app_nil_r.
  - rewrite IH. destruct (published a) as [p|].
    + destruct (cutoff <=? p); [now rewrite <- app_assoc | reflexivity].
    + now rewrite <- app_assoc.
Qed.

Lemma filter_recent_kept (cutoff : datetime) (articles : list Article) :
  kept (recent cutoff) articles
       (filter (fun a => match published a with
                         | None => true
                         | Some p => cutoff <=? p
                         end) articles).
Proof.
  induction articles as [|a l IH]; simpl; [constructor|].
  unfold recent at 1.
  destruct (published a) as [p|] eqn:E.
  - destruct (Z.leb_spec cutoff p).
    + apply kept_in; [unfold recent; rewrite E; lia | exact IH].
    + apply kept_out; [unfold recent; rewrite E; lia | exact IH].
  - apply kept_in; [unfold recent; now rewrite E | exact IH].
Qed.

Lemma kept_In {A : Type} (P : A -> Prop) (items out : list A) :
  kept P items out -> forall a, In a out <-> In a items /\ P a.
Proof.
  induction 1 as [|a items out Ha _ IH|a items out Ha _ IH]; intros b; simpl.
  - tauto.
  - rewrite IH. split.
    + intros [<-|[H1 H2]]; tauto.
    + intros [[<-|H1] H2]; tauto.
  - rewrite IH. split.
    + tauto.
    + intros [[<-|H1] H2]; tauto.
Qed.

(** The cutoff is a [datetime] whenever both [now] and the cutoff fall
    in the years 1 to 9999. *)
Lemma cutoff_in_range (now h : Z) :
  valid_datetime now = true ->
  valid_datetime (now - h * us_per_hour) = true ->
  timedelta_hours h = Returns (h * us_per_hour)
  /\ datetime_sub now (h * us_per_hour) = Returns (now - h * us_per_hour).
Proof.
  intros Hnow Hcut. unfold datetime_sub. rewrite Hcut. split; [|reflexivity].
  unfold valid_datetime, datetime_max, us_per_hour in Hnow, Hcut.
  unfold timedelta_hours.
  apply andb_true_iff in Hnow, Hcut.
  destruct Hnow as [H1 H2], Hcut as [H3 H4].
  apply Z.leb_le in H1, H2, H3, H4.
  assert (Hlo : -999999999 <= h / 24) by (apply Z.div_le_lower_bound; lia).
  assert (Hhi : h / 24 <= 999999999).
  { apply Z.lt_succ_r. apply Z.div_lt_upper_bound; lia. }
  apply Z.leb_le in Hlo, Hhi. now rewrite Hlo, Hhi.
Qed.

(** C6, as the code has it.  Whenever the cutoff, [now] minus
    [max_age_hours] hours, is a [datetime] (it falls in the years 1 to
    9999), [filter_by_age] returns the items that carry no date or a date
    that is not before the cutoff, in their input order.  An item dated
    exactly at the cutoff is returned, an item dated before it by any
    amount is not, an item with no date is returned. *)
Theorem filter_by_age_keeps_recent :
  forall (now : datetime) (articles : list Article) (max_age_hours : Z),
    valid_datetime now = true ->
    valid_datetime (now - max_age_hours * us_per_hour) = true ->
    let cutoff := now - max_age_hours * us_per_hour in
    exists filtered,
      filter_by_age now articles max_age_hours = Returns filtered
      /\ kept (recent cutoff) articles filtered
      /\ (forall a, In a articles -> published a = Some cutoff -> In a filtered)
      /\ (forall a p, published a = Some p -> p < cutoff -> ~ In a filtered)
      /\ (forall a, In a articles -> published a = None -> In a filtered).
Proof.
  intros now articles h Hnow Hcut cutoff.
  destruct (cutoff_in_range now h Hnow Hcut) as [Hdelta Hsub].
  eexists. split.
  - unfold filter_by_age. rewrite Hdelta, Hsub.
    rewrite age_loop_is_filter. reflexivity.
  - simpl. fold cutoff.
    pose proof (filter_recent_kept cutoff articles) as Hkept.
    pose proof (kept_In _ _ _ Hkept) as Hin.
    split; [exact Hkept|]. repeat split.
    + intros a Ha Hp. apply Hin. split; [exact Ha|].
      unfold recent. rewrite Hp. lia.
    + intros a p Hp Hlt Ha. apply Hin in Ha. destruct Ha as [_ Ha].
      unfold recent in Ha. rewrite Hp in Ha. lia.
    + intros a Ha Hp. apply Hin. split; [exact Ha|].
      unfold recent. now rewrite Hp.
Qed.

Lemma filter_by_age_witness :
  exists filtered,
    filter_by_age Sample.noon [Sample.before_cutoff; Sample.at_cutoff; Sample.post2] 24
    = Returns filtered
    /\ kept (recent (Sample.noon - 24 * us_per_hour))
            [Sample.before_cutoff; Sample.at_cutoff; Sample.post2] filtered
    /\ (forall a, In a [Sample.before_cutoff; Sample.at_cutoff; Sample.post2] ->
                  published a = Some (Sample.noon - 24 * us_per_hour) ->
                  In a filtered)
    /\ (forall a p, published a = Some p ->
                    p < Sample.noon - 24 * us_per_hour -> ~ In a filtered)
    /\ (forall a, In a [Sample.before_cutoff; Sample.at_cutoff; Sample.post2] ->
                  published a = None -> In a filtered).
Proof.
  apply (filter_by_age_keeps_recent Sample.noon
           [Sample.before_cutoff; Sample.at_cutoff; Sample.post2] 24);
    reflexivity.
Defined.

(** C6 as the specification states it fails: not every [max_age_hours]
    has an answer.  With 999999999 hours the cutoff would lie before the
    year 1 and the subtraction raises OverflowError. *)
Lemma filter_by_age_overflow :
  filter_by_age Sample.noon [Sample.post1] 999999999
  = Raises (lit "OverflowError").
Proof. reflexivity. Qed.

End AgeFilterSpec.

(* ================================================================== *)
(** * fetcher.py: one feed, all feeds *)
(* ================================================================== *)

Module FetcherSpec.
Import Fetcher.

Section Feeds.
Variable html_unescape : pystr -> pystr.
Variable world : Type.
Variable feedparser_parse :
  pystr -> json -> json -> world -> outcome feed * world.

Abbreviation fetch_feed := (Fetcher.fetch_feed html_unescape feedparser_parse).
Abbreviation fetch_loop := (Fetcher.fetch_loop html_unescape feedparser_parse).
Abbreviation conditional_request := (Fetcher.conditional_request feedparser_parse).

Lemma fetch_loop_app (before rest : list feed_config) all0 cache0 w0
      all cache w :
  fetch_loop before all0 cache0 w0 = (Returns (all, cache), w) ->
  fetch_loop (before ++ rest) all0 cache0 w0 = fetch_loop rest all cache w.
Proof.
  revert all0 cache0 w0.
  induction before as [|cfg before IH]; intros all0 cache0 w0; simpl.
  - intros H. now inversion H.
  - destruct (fetch_feed cfg cache0 w0) as [[[arts cache1]|e] w1].
    + apply IH.
    + discriminate.
Qed.

Lemma fetch_feed_raised (cfg : feed_config) (cache : json) (w w' : world) e :
  conditional_request cfg cache w = Returns (Raises e, w') ->
  fetch_feed cfg cache w = (Returns ([], cache), w').
Proof.
  unfold Fetcher.conditional_request, Fetcher.fetch_feed.
  destruct (cached_validators cache (feed_url cfg)) as [[c fc]|e0];
    [|discriminate].
  destruct (feedparser_parse _ _ _ w) as [answer w1].
  intros H. now inversion H.
Qed.

(** C7.  When the conditional request for a source answers 304,
    [fetch_feed] returns no article and leaves the cache as it was,
    whatever entries the answer carries. *)
Theorem fetch_feed_not_modified :
  forall (cfg : feed_config) (cache : json) (w w' : world) (fd : feed),
    conditional_request cfg cache w = Returns (Returns fd, w') ->
    status fd = Some 304 ->
    fetch_feed cfg cache w = (Returns ([], cache), w').
Proof.
  intros cfg cache w w' fd Hreq Hstatus.
  unfold Fetcher.conditional_request in Hreq. unfold Fetcher.fetch_feed.
  destruct (cached_validators cache (feed_url cfg)) as [[c fc]|e0];
    [|discriminate].
  destruct (feedparser_parse _ _ _ w) as [answer w1].
  inversion Hreq; subst. now rewrite Hstatus.
Qed.

(** C4.  When fetching a source raises, [fetch_feed] catches the
    exception: it returns no article for that source and leaves the
    cache as it was.  The loop over the sources then goes on with the
    sources that remain, from the articles and the cache it had. *)
Theorem fetch_error_is_contained :
  forall (cfg : feed_config) (cache : json) (w w' : world) (e : pystr),
    conditional_request cfg cache w = Returns (Raises e, w') ->
    fetch_feed cfg cache w = (Returns ([], cache), w')
    /\ (forall before rest all0 cache0 w0 all,
          fetch_loop before all0 cache0 w0 = (Returns (all, cache), w) ->
          fetch_loop (before ++ cfg :: rest) all0 cache0 w0
          = fetch_loop rest all cache w').
Proof.
  intros cfg cache w w' e Hreq.
  pose proof (fetch_feed_raised cfg cache w w' e Hreq) as Hfeed.
  split; [exact Hfeed|].
  intros before rest all0 cache0 w0 all Hbefore.
  rewrite (fetch_loop_app before (cfg :: rest) _ _ _ _ _ _ Hbefore).
  simpl. rewrite Hfeed. now rewrite app_nil_r.
Qed.

(** A feed that the parser flags as broken and that has no entry gives
    no article either. *)
Lemma fetch_feed_bozo (cfg : feed_config) (cache : json) (w w' : world) fd :
  conditional_request cfg cache w = Returns (Returns fd, w') ->
  bozo fd = true -> entries fd = [] ->
  exists cache',
    fetch_feed cfg cache w = (Returns ([], cache'), w').
Proof.
  intros Hreq Hbozo Hentries.
  unfold Fetcher.conditional_request in Hreq. unfold Fetcher.fetch_feed.
  destruct (cached_validators cache (feed_url cfg)) as [[c fc]|e0];
    [|discriminate].
  destruct (feedparser_parse _ _ _ w) as [answer w1].
  inversion Hreq; subst. rewrite Hbozo, Hentries.
  destruct (match status fd with Some code => code =? 304 | None => false end);
    eexists; reflexivity.
Qed.
End Feeds.

Lemma fetch_feed_not_modified_witness :
  Fetcher.fetch_feed Sample.no_entities Sample.web Sample.up Sample.seen_cache 0%nat
  = (Returns ([], Sample.seen_cache), 1%nat).
Proof.
  apply (fetch_feed_not_modified Sample.no_entities nat Sample.web
           Sample.up Sample.seen_cache 0%nat 1%nat Sample.feed_unchanged);
    reflexivity.
Defined.

Lemma fetch_error_is_contained_witness :
  Fetcher.fetch_feed Sample.no_entities Sample.web Sample.down (JObj []) 0%nat
  = (Returns ([], JObj []), 1%nat)
  /\ Fetcher.fetch_loop Sample.no_entities Sample.web
       [Sample.down; Sample.up] [] (JObj []) 0%nat
     = Fetcher.fetch_loop Sample.no_entities Sample.web
         [Sample.up] [] (JObj []) 1%nat.
Proof.
  destruct (fetch_error_is_contained Sample.no_entities nat Sample.web
              Sample.down (JObj []) 0%nat 1%nat (lit "URLError") eq_refl)
    as [Hfeed Hloop].
  split; [exact Hfeed|].
  exact (Hloop [] [Sample.up] [] (JObj []) 0%nat [] eq_refl).
Defined.

End FetcherSpec.

(* ================================================================== *)
(** * notifier.py: how far one channel's failure stays with that channel *)
(* ================================================================== *)

Module NotifierSpec.
Import Notifier.

Lemma init_names_distinct (c : config) notifiers :
  __init__ c = Returns notifiers -> NoDup (map fst notifiers).
Proof.
  unfold __init__, telegram_entry, email_entry, feishu_entry.
  destruct c as [[fe fw] [te tt tc] [ee eh ep eu epw et]]; simpl.
  destruct te, (Fetcher.truthy tt), tc, ee, (Fetcher.truthy eu), eh, ep, epw, et,
    fe, (Fetcher.truthy fw);
    intros H; inversion H; subst; clear H; simpl;
    repeat (constructor; [simpl; intuition discriminate|]); constructor.
Qed.

Section Channels.
Variable world : Type.
Variable requests_post : pystr -> json -> world -> outcome response * world.
Variable smtp_session :
  pystr -> Z -> pystr -> pystr -> message -> world -> outcome unit * world.

Abbreviation send_try := (Notifier.send_try requests_post smtp_session).
Abbreviation send := (Notifier.send requests_post smtp_session).
Abbreviation notify_loop := (Notifier.notify_loop requests_post smtp_session).
Abbreviation notify := (Notifier.notify requests_post smtp_session).

Lemma notify_loop_app before rest article summary results w :
  notify_loop (before ++ rest) article summary results w
  = match notify_loop before article summary results w with
    | (Returns r1, w1) => notify_loop rest article summary r1 w1
    | (Raises e, w1) => (Raises e, w1)
    end.
Proof.
  revert results w. induction before as [|[name n] before IH];
    intros results w; simpl.
  - reflexivity.
  - destruct (send n article summary w) as [[v|e] w']; [apply IH|reflexivity].
Qed.

Lemma notify_loop_other name rest article summary results w out w' :
  ~ In name (map fst rest) ->
  notify_loop rest article summary results w = (Returns out, w') ->
  dict_get str_eqb name out = dict_get str_eqb name results.
Proof.
  revert results w. induction rest as [|[name' n] rest IH];
    intros results w Hnot; simpl.
  - intros H. now inversion H.
  - destruct (send n article summary w) as [[v|e] w1]; [|discriminate].
    intros H. rewrite (IH _ _ (fun Hin => Hnot (or_intror Hin)) H).
    apply (dict_get_set_other str_eqb str_eqb_spec).
    simpl in Hnot. intros ->. tauto.
Qed.

(** When [notify] returns, each channel's entry of the result is what
    its own [send] gave. *)
Lemma notify_entry before name n rest article summary w results_before w1
      results w_end :
  ~ In name (map fst rest) ->
  notify_loop before article summary [] w = (Returns results_before, w1) ->
  notify (before ++ (name, n) :: rest) article summary w
  = (Returns results, w_end) ->
  exists v w2,
    send n article summary w1 = (Returns v, w2)
    /\ dict_get str_eqb name results = Some v.
Proof.
  intros Hnot Hbefore. unfold Notifier.notify.
  rewrite notify_loop_app, Hbefore. simpl.
  destruct (send n article summary w1) as [[v|e] w2]; [|discriminate].
  intros Hrest. exists v, w2. split; [reflexivity|].
  rewrite (notify_loop_other name rest _ _ _ _ _ _ Hnot Hrest).
  apply (dict_get_set_same str_eqb str_eqb_spec).
Qed.

Lemma send_of_raise n article summary w e w' :
  build n article summary = Returns tt ->
  send_try n article summary w = (Raises e, w') ->
  send n article summary w = (Returns (JBool false), w').
Proof. unfold Notifier.send. now intros -> ->. Qed.

(** What is raised in a [send] before its [try] leaves [notify], with
    the results of the channels before it. *)
Lemma notify_left_by_build before name n rest article summary w
      results_before w1 e :
  notify_loop before article summary [] w = (Returns results_before, w1) ->
  build n article summary = Raises e ->
  notify (before ++ (name, n) :: rest) article summary w = (Raises e, w1).
Proof.
  intros Hbefore Hbuild. unfold Notifier.notify.
  rewrite notify_loop_app, Hbefore. simpl.
  unfold Notifier.send. now rewrite Hbuild.
Qed.

(** What holds of the isolation of the channels: when [notify] returns
    (no [send] raised before its [try]), a channel whose [send] raised
    inside its [try] has the entry False, and every configured channel
    has its entry, which is what its own [send] returned. *)
Lemma notify_contains_failure_in_try :
  forall (c : config) (notifiers : list (pystr * adapter)),
    __init__ c = Returns notifiers ->
    forall article summary w results w_end,
      notify notifiers article summary w = (Returns results, w_end) ->
      forall before name n rest results_before w1,
        notifiers = before ++ (name, n) :: rest ->
        notify_loop before article summary [] w = (Returns results_before, w1) ->
        exists v w2,
          send n article summary w1 = (Returns v, w2)
          /\ dict_get str_eqb name results = Some v
          /\ (forall e w2', send_try n article summary w1 = (Raises e, w2') ->
                            v = JBool false).
Proof.
  intros c notifiers Hinit article summary w results w_end Hnotify
         before name n rest results_before w1 Hsplit Hbefore.
  apply init_names_distinct in Hinit.
  rewrite Hsplit, map_app in Hinit. simpl in Hinit.
  apply NoDup_remove_2 in Hinit.
  rewrite Hsplit in Hnotify.
  destruct (notify_entry before name n rest article summary w results_before
              w1 results w_end) as (v & w2 & Hsend & Hget);
    [intros Hin; apply Hinit, in_or_app; now right | exact Hbefore
     | exact Hnotify |].
  exists v, w2. split; [exact Hsend|]. split; [exact Hget|].
  intros e w2' Hraise. unfold Notifier.send in Hsend.
  destruct (build n article summary); [|discriminate].
  rewrite Hraise in Hsend. now inversion Hsend.
Qed.
End Channels.

(** C3.  The claim fails on the code.  The message of the e-mail is
    built, and its body encoded, before the [try] of
    [EmailNotifier.send], and [notify] has no [try] of its own.  With
    the three channels configured and a summary that holds a lone
    surrogate (U+D800), the webhook fails inside its [try] and is
    contained, Telegram is sent, and then the UnicodeEncodeError of the
    e-mail leaves [notify]: there is no result map, neither for the
    faulty channel nor for the two others.  With the summary "summary"
    the same call returns its three entries. *)
Theorem notify_is_left_by_the_encoding_error :
  Notifier.notify Sample.post Sample.smtp Sample.three_notifiers
    Sample.post1 Sample.odd_summary 0%nat
  = (Raises (lit "UnicodeEncodeError"), 2%nat)
  /\ Notifier.notify Sample.post Sample.smtp Sample.three_notifiers
       Sample.post1 (lit "summary") 0%nat
     = (Returns [(feishu_name, JBool false); (lit "Telegram", JBool true);
                 (lit "Email", JBool true)], 3%nat).
Proof. split; vm_compute; reflexivity. Qed.

End NotifierSpec.

(* ================================================================== *)
(** * notifier.py: what the adapters escape *)
(* ================================================================== *)

Module EscapingSpec.
Import Notifier.

Lemma replace_char_app (x : N) (new l1 l2 : pystr) :
  replace_char x new (l1 ++ l2) = replace_char x new l1 ++ replace_char x new l2.
Proof. unfold replace_char. apply flat_map_app. Qed.

Lemma existsb_snoc (c x : N) (done : list N) :
  existsb (N.eqb c) (done ++ [x]) = existsb (N.eqb c) done || N.eqb c x.
Proof. rewrite existsb_app. simpl. now rewrite orb_false_r. Qed.

Lemma replace_char_cons (x c : N) (new l : pystr) :
  replace_char x new (c :: l)
  = (if N.eqb c x then new else [c]) ++ replace_char x new l.
Proof. reflexivity. Qed.

(** One more turn of the loop escapes one more character. *)
Lemma escape_one_more (x : N) (done : list N) (text : pystr) :
  x <> Json.backslash ->
  ~ In x done ->
  replace_char x [Json.backslash; x] (backslash_escaped done text)
  = backslash_escaped (done ++ [x]) text.
Proof.
  intros Hbs Hnew. induction text as [|c text IH]; [reflexivity|].
  unfold backslash_escaped in *. cbn [flat_map].
  rewrite replace_char_app, IH, existsb_snoc.
  f_equal.
  destruct (existsb (N.eqb c) done) eqn:E; cbn [orb].
  - apply existsb_exists in E. destruct E as [y [Hy Hcy]].
    apply N.eqb_eq in Hcy. subst y.
    assert (H1 : N.eqb Json.backslash x = false) by (apply N.eqb_neq; congruence).
    assert (H2 : N.eqb c x = false) by (apply N.eqb_neq; intros ->; tauto).
    rewrite !replace_char_cons, H1, H2. reflexivity.
  - rewrite replace_char_cons.
    destruct (N.eqb_spec c x); [subst|]; reflexivity.
Qed.

Lemma escape_loop (chars done : list N) (text : pystr) :
  ~ In Json.backslash chars ->
  NoDup (done ++ chars) ->
  fold_left (fun text char => replace_char char [Json.backslash; char] text)
            chars (backslash_escaped done text)
  = backslash_escaped (done ++ chars) text.
Proof.
  revert done. induction chars as [|x chars IH]; intros done Hbs Hnd; simpl.
  - now rewrite app_nil_r.
  - rewrite escape_one_more.
    + replace (done ++ x :: chars) with ((done ++ [x]) ++ chars)
        by (now rewrite <- app_assoc).
      apply IH; [simpl in Hbs; tauto|]. now rewrite <- app_assoc.
    + simpl in Hbs. intros ->. tauto.
    + apply NoDup_remove_2 in Hnd. intros Hin. apply Hnd.
      apply in_or_app. now left.
Qed.

Lemma backslash_escaped_nothing (text : pystr) :
  backslash_escaped [] text = text.
Proof.
  unfold backslash_escaped. induction text as [|c text IH]; simpl;
    [reflexivity | f_equal; exact IH].
Qed.

Lemma markdown_chars_distinct :
  NoDup markdown_chars /\ ~ In Json.backslash markdown_chars.
Proof.
  split.
  - vm_compute. repeat (constructor; [simpl; intuition discriminate|]).
    constructor.
  - vm_compute. intuition discriminate.
Qed.

(** The loop of replacements of [_escape_markdown] is the one-pass
    escaping of its eighteen characters. *)
Lemma escape_markdown_one_pass (text : pystr) :
  _escape_markdown text = backslash_escaped markdown_chars text.
Proof.
  unfold _escape_markdown.
  rewrite <- (backslash_escaped_nothing text) at 1.
  destruct markdown_chars_distinct as [Hnd Hbs].
  now rewrite escape_loop.
Qed.

(** For every item and summary, the text the Telegram adapter posts
    holds the title and the summary escaped for Markdown: a backslash
    goes before each of the eighteen characters of [markdown_chars],
    nothing else changes. *)
Lemma telegram_text_is_escaped (chat_id : pystr) (article : Article)
    (summary : pystr) :
  json_at [Key (lit "text")] (telegram_payload chat_id article summary)
  = Some (JStr (render (telegram_parts article summary)))
  /\ hole_value Title (telegram_parts article summary)
     = Some (backslash_escaped markdown_chars (title article))
  /\ hole_value Summary (telegram_parts article summary)
     = Some (backslash_escaped markdown_chars summary).
Proof.
  split; [reflexivity|].
  cbn [telegram_parts hole_value field_eqb].
  now rewrite !escape_markdown_one_pass.
Qed.

(** C8.  The claim fails on the code.  The Email adapter encodes
    nothing: the HTML body it hands to the mail server holds the title
    of the item as it came.  For the title <b>AT&T</b> the heading of
    the body is that markup, with its less-than sign, its ampersand and
    its greater-than sign, and the encoded title is nowhere in the body.
    The Telegram adapter, given the same item, posts a text in which the
    title is escaped for its own transport. *)
Theorem email_body_keeps_the_markup_of_the_title :
  let mail :=
    Notifier.send Sample.recording_post Sample.recording_smtp
                  Sample.mail_channel Sample.tagged (lit "In short.") [] in
  let chat :=
    Notifier.send Sample.recording_post Sample.recording_smtp
                  Sample.chat_channel Sample.tagged (lit "In short.") [] in
  title Sample.tagged = lit "<b>AT&T</b>"
  /\ fst mail = Returns (JBool true)
  /\ map (is_infix (lit "><b>AT&T</b></h2>")) (Sample.mailed_html (snd mail))
     = [true]
  /\ map (is_infix (lit "&lt;b&gt;AT&amp;T&lt;/b&gt;"))
         (Sample.mailed_html (snd mail))
     = [false]
  /\ fst chat = Returns (JBool true)
  /\ map (is_infix (lit "*<b\>AT&T</b\>*")) (Sample.posted_text (snd chat))
     = [true].
Proof. vm_compute. repeat split; reflexivity. Qed.

End EscapingSpec.

(* ================================================================== *)
(** * main.py: an item without summary is recorded all the same *)
(* ================================================================== *)

Module MainSpec.
Import Storage StorageFacts Main.

Section Run.
Variable world : Type.
Variable requests_post :
  pystr -> json -> world -> outcome Notifier.response * world.
Variable smtp_session :
  pystr -> Z -> pystr -> pystr -> Notifier.message -> world
  -> outcome unit * world.
Variable llm_config : Type.
Variable summarize : llm_config -> Article -> world -> option pystr * world.
Variable clock : world -> datetime * world.

Abbreviation process_article :=
  (Main.process_article requests_post smtp_session summarize clock).
Abbreviation process_articles :=
  (Main.process_articles requests_post smtp_session summarize clock).

(** Whatever the summarizer says, a turn that ends ends with
    [mark_processed]; a turn that is left by an exception leaves the
    table as it was. *)
Lemma process_article_marks notifiers lc st article :
  match fst (process_article notifiers lc st article) with
  | Returns _ =>
      exists s now,
        storage (snd (process_article notifiers lc st article))
        = mark_processed (storage st) article s now
  | Raises _ =>
      storage (snd (process_article notifiers lc st article)) = storage st
  end.
Proof.
  unfold Main.process_article.
  destruct (summarize lc article (net st)) as [summary w1].
  destruct (Fetcher.truthy summary) as [text|].
  - destruct (if Notifier.has_notifiers notifiers then _ else _)
      as [[results|e] w2]; [|reflexivity].
    destruct (clock w2) as [now w3]. now exists (Some text), now.
  - destruct (clock w1) as [now w2]. now exists None, now.
Qed.

Lemma process_article_none notifiers lc st article :
  fst (summarize lc article (net st)) = None ->
  fst (process_article notifiers lc st article) = Returns tt
  /\ storage (snd (process_article notifiers lc st article))
     = mark_processed (storage st) article None
         (fst (clock (snd (summarize lc article (net st))))).
Proof.
  unfold Main.process_article.
  destruct (summarize lc article (net st)) as [summary w1]. simpl.
  intros ->. simpl. now destruct (clock w1) as [now w2].
Qed.

Lemma process_article_keeps notifiers lc st article b :
  is_processed (storage st) b = true ->
  is_processed (storage (snd (process_article notifiers lc st article))) b
  = true.
Proof.
  intros Hb. pose proof (process_article_marks notifiers lc st article) as H.
  destruct (fst (process_article notifiers lc st article)).
  - destruct H as [s [now ->]]. now apply is_processed_kept.
  - now rewrite H.
Qed.

Lemma process_articles_app notifiers lc before rest st0 :
  process_articles notifiers lc (before ++ rest) st0
  = match process_articles notifiers lc before st0 with
    | (Returns _, st) => process_articles notifiers lc rest st
    | (Raises e, st) => (Raises e, st)
    end.
Proof.
  revert st0. induction before as [|a l IH]; intros st0; simpl.
  - reflexivity.
  - destruct (process_article notifiers lc st0 a) as [[u|e] st1];
      [apply IH | reflexivity].
Qed.

Lemma process_articles_keep notifiers lc articles st b :
  is_processed (storage st) b = true ->
  is_processed (storage (snd (process_articles notifiers lc articles st))) b
  = true.
Proof.
  revert st. induction articles as [|a l IH]; intros st Hb; simpl.
  - exact Hb.
  - pose proof (process_article_keeps notifiers lc st a b Hb) as Hkeep.
    destruct (process_article notifiers lc st a) as [[u|e] st1].
    + now apply IH.
    + exact Hkeep.
Qed.

(** C5.  When the summarizer returns nothing for an item of the batch
    that the loop has reached, the loop still records it: the item's
    turn ends, right after it the item's fingerprint has exactly one
    record, whose summary is absent; at the end of the run the item is
    still recorded, so that [filter_new_articles] does not return it
    again, nor any item of the same url. *)
Theorem unsummarized_item_is_recorded :
  forall (notifiers : list (pystr * Notifier.adapter)) (lc : llm_config)
         (before rest : list Article) (item : Article)
         (st0 st : progress world),
    process_articles notifiers lc before st0 = (Returns tt, st) ->
    fst (summarize lc item (net st)) = None ->
    let after_item := process_article notifiers lc st item in
    let final :=
      snd (process_articles notifiers lc (before ++ item :: rest) st0) in
    fst after_item = Returns tt
    /\ records_of (storage (snd after_item)) item
       = [mkRow (next_id (storage st)) (url_hash item) (url item)
                (Some (title item)) (Some (feed_name item)) None
                (Some (fst (clock (snd (summarize lc item (net st))))))]
    /\ is_processed (storage final) item = true
    /\ (forall articles again,
          url again = url item ->
          ~ In again (filter_new_articles (storage final) articles)).
Proof.
  intros notifiers lc before rest item st0 st Hbefore Hnone after_item final.
  destruct (process_article_none notifiers lc st item Hnone)
    as [Hends Hafter].
  fold after_item in Hends, Hafter.
  assert (Hfinal : is_processed (storage final) item = true).
  { subst final. rewrite process_articles_app, Hbefore. simpl.
    fold after_item.
    destruct after_item as [[u|e] st1] eqn:E; [|discriminate Hends].
    apply process_articles_keep. simpl in Hafter.
    rewrite Hafter. apply is_processed_after_mark. }
  split; [exact Hends|]. split; [|split].
  - rewrite Hafter. apply records_after_mark.
  - exact Hfinal.
  - intros articles again Hurl Hin. apply filter_In in Hin.
    destruct Hin as [_ Hnew].
    rewrite (is_processed_same_url _ _ _ Hurl), Hfinal in Hnew.
    discriminate.
Qed.
End Run.

Lemma unsummarized_item_is_recorded_witness :
  records_of
    (storage
       (snd
          (Main.process_article Sample.post Sample.smtp Sample.summarizer
             Sample.clock Sample.three_notifiers tt
             (snd
                (Main.process_articles Sample.post Sample.smtp
                   Sample.summarizer Sample.clock Sample.three_notifiers tt
                   [Sample.post1] (mkProgress (_init_db None) 0%nat 0)))
             Sample.post2)))
    Sample.post2
  = [mkRow 2 (url_hash Sample.post2) (url Sample.post2)
           (Some (title Sample.post2)) (Some (feed_name Sample.post2)) None
           (Some (Sample.noon + 6))]
  /\ is_processed
       (storage
          (snd
             (Main.process_articles Sample.post Sample.smtp Sample.summarizer
                Sample.clock Sample.three_notifiers tt
                ([Sample.post1] ++ Sample.post2 :: [Sample.tagged])
                (mkProgress (_init_db None) 0%nat 0))))
       Sample.post2 = true
  /\ (forall articles again,
        url again = url Sample.post2 ->
        ~ In again
            (filter_new_articles
               (storage
                  (snd
                     (Main.process_articles Sample.post Sample.smtp
                        Sample.summarizer Sample.clock Sample.three_notifiers
                        tt ([Sample.post1] ++ Sample.post2 :: [Sample.tagged])
                        (mkProgress (_init_db None) 0%nat 0))))
               articles)).
Proof.
  exact (proj2
           (unsummarized_item_is_recorded nat Sample.post Sample.smtp unit
              Sample.summarizer Sample.clock Sample.three_notifiers tt
              [Sample.post1] [Sample.tagged] Sample.post2
              (mkProgress (_init_db None) 0%nat 0)
              (snd
                 (Main.process_articles Sample.post Sample.smtp
                    Sample.summarizer Sample.clock Sample.three_notifiers tt
                    [Sample.post1] (mkProgress (_init_db None) 0%nat 0)))
              eq_refl eq_refl)).
Defined.

End MainSpec.

(* ================================================================== *)
(** * Two runs in a row *)
(* ================================================================== *)

Module Scenario.
Import Storage.

(** The first run finds the two entries of the one source that answers,
    records both and writes the ETag it was given into the cache file. *)
Example first_run :
  let '(result, t, f, w) := Sample.run (_init_db None) Fetcher.Absent 0%nat in
  result = Returns tt
  /\ total_articles (get_stats t) = 2
  /\ map r_url (rows t)
     = [lit "https://example.org/1"; lit "https://example.org/2"]
  /\ Fetcher.load_cache Sample.no_float Sample.max_digits Sample.depth f
     = Returns Sample.seen_cache.
Proof. vm_compute. repeat split; reflexivity. Qed.

(** The second run sends the ETag, is answered 304 and changes neither
    the table nor the cache. *)
Example second_run :
  let '(_, t, f, w) := Sample.run (_init_db None) Fetcher.Absent 0%nat in
  let '(result', t', f', _) := Sample.run t f w in
  result' = Returns tt /\ t' = t
  /\ Fetcher.load_cache Sample.no_float Sample.max_digits Sample.depth f'
     = Returns Sample.seen_cache.
Proof. vm_compute. repeat split; reflexivity. Qed.

(** With a window of 17 million hours the cutoff is still a date (in the
    year 87); with 18 million hours it is none. *)
Example wide_window :
  Fetcher.filter_by_age Sample.noon [Sample.post2] 17000000
  = Returns [Sample.post2]
  /\ Fetcher.filter_by_age Sample.noon [Sample.post2] 18000000
     = Raises (lit "OverflowError").
Proof. split; reflexivity. Qed.

(** A cache file that is no text, one that nests deeper than the
    interpreter goes and one with a number of more digits than the
    interpreter takes make [load_cache] raise; text that is no JSON is
    an empty cache. *)
Example unreadable_cache :
  Fetcher.load_cache Sample.no_float Sample.max_digits Sample.depth
    Fetcher.NotText
  = Raises (lit "UnicodeDecodeError")
  /\ Fetcher.load_cache Sample.no_float Sample.max_digits Sample.depth
       (Fetcher.Text (repeat 91%N 5000))
     = Raises Json.RecursionError
  /\ Fetcher.load_cache Sample.no_float Sample.max_digits Sample.depth
       (Fetcher.Text (repeat 57%N 4301))
     = Raises Json.ValueError
  /\ Fetcher.load_cache Sample.no_float Sample.max_digits Sample.depth
       (Fetcher.Text (repeat 91%N 5))
     = Returns (JObj []).
Proof. repeat split; vm_compute; reflexivity. Qed.

(** A run whose summarizer answers a text with a lone surrogate is left
    in the first turn of its loop, when the e-mail is built: the cache
    file is written, the two entries are not recorded. *)
Example run_left_in_the_loop :
  let '(result, t, f, w) :=
    Sample.odd_run (_init_db None) Fetcher.Absent 0%nat in
  result = Raises (lit "UnicodeEncodeError")
  /\ t = _init_db None
  /\ Fetcher.load_cache Sample.no_float Sample.max_digits Sample.depth f
     = Returns Sample.seen_cache.
Proof. vm_compute. repeat split; reflexivity. Qed.

End Scenario.

(* ================================================================== *)
(** * Dictionaries with distinct keys *)
(* ================================================================== *)

Section DictOrder.
Context {K V : Type} (keq : K -> K -> bool).
Hypothesis keq_spec : forall a b, reflect (a = b) (keq a b).

(** With distinct keys, what a key holds does not depend on the order of
    the pairs. *)
Lemma dict_get_perm (k : K) (l l' : pydict K V) :
  Permutation l l' -> NoDup (map fst l) ->
  dict_get keq k l = dict_get keq k l'.
Proof.
  induction 1 as [| [k1 v1] l l' Hperm IH | [k1 v1] [k2 v2] l
                  | l l' l'' Hp1 IH1 Hp2 IH2]; intros Hnd; simpl.
  - reflexivity.
  - simpl in Hnd. apply NoDup_cons_iff in Hnd. destruct (keq k k1); tauto.
  - simpl in Hnd. apply NoDup_cons_iff in Hnd. destruct Hnd as [Hnotin _].
    simpl in Hnotin.
    destruct (keq_spec k k1) as [E1|E1], (keq_spec k k2) as [E2|E2];
      try reflexivity. subst k1 k2. tauto.
  - rewrite IH1 by exact Hnd. apply IH2.
    eapply Permutation_NoDup; [|exact Hnd]. now apply Permutation_map.
Qed.
End DictOrder.

(* ================================================================== *)
(** * storage.py: what the table and the statistics hold *)
(* ================================================================== *)

Module TableFacts.
Import Storage StorageFacts.

Lemma dict_get_bump_same (k : option pystr) gs :
  dict_get opt_str_eqb k (bump k gs)
  = Some (match dict_get opt_str_eqb k gs with Some n => n + 1 | None => 1 end).
Proof.
  induction gs as [|[k' n] gs IH]; simpl.
  - destruct (opt_str_eqb_spec k k); congruence.
  - destruct (opt_str_eqb k k') eqn:E; simpl; rewrite E; [reflexivity|exact IH].
Qed.

Lemma dict_get_bump_other (k k' : option pystr) gs :
  k' <> k ->
  dict_get opt_str_eqb k' (bump k gs) = dict_get opt_str_eqb k' gs.
Proof.
  intros Hne. induction gs as [|[k0 n] gs IH]; simpl.
  - destruct (opt_str_eqb_spec k' k); congruence.
  - destruct (opt_str_eqb_spec k k0) as [->|Hne0]; simpl.
    + destruct (opt_str_eqb_spec k' k0); congruence.
    + now rewrite IH.
Qed.

Lemma rows_of_feed_cons k r rs :
  rows_of_feed k (r :: rs)
  = (if opt_str_eqb k (r_feed_name r) then 1 else 0) + rows_of_feed k rs.
Proof.
  unfold rows_of_feed. simpl.
  destruct (opt_str_eqb k (r_feed_name r)); simpl List.length; lia.
Qed.

Lemma rows_of_feed_nonneg k rs : 0 <= rows_of_feed k rs.
Proof. unfold rows_of_feed. lia. Qed.

Lemma group_counts (k : option pystr) (rs : list row) acc :
  (forall n, dict_get opt_str_eqb k acc = Some n -> 0 < n) ->
  dict_get opt_str_eqb k
    (fold_left (fun gs r => bump (r_feed_name r) gs) rs acc)
  = add_count (dict_get opt_str_eqb k acc) (rows_of_feed k rs).
Proof.
  revert acc. induction rs as [|r rs IH]; intros acc Hpos.
  - simpl. unfold rows_of_feed. simpl.
    destruct (dict_get opt_str_eqb k acc); simpl; [f_equal; lia | reflexivity].
  - cbn [fold_left]. rewrite rows_of_feed_cons.
    pose proof (rows_of_feed_nonneg k rs) as Hnn.
    destruct (opt_str_eqb_spec k (r_feed_name r)) as [<-|Hne].
    + rewrite IH.
      * rewrite dict_get_bump_same.
        destruct (dict_get opt_str_eqb k acc) as [m|]; cbn [add_count].
        -- f_equal. lia.
        -- destruct (1 + rows_of_feed k rs =? 0) eqn:E; [lia|reflexivity].
      * intros n. rewrite dict_get_bump_same.
        destruct (dict_get opt_str_eqb k acc) as [m|] eqn:E;
          intros H; inversion H; subst; [|lia].
        specialize (Hpos m eq_refl). lia.
    + rewrite IH.
      * rewrite dict_get_bump_other by exact Hne. reflexivity.
      * intros n. rewrite dict_get_bump_other by exact Hne. apply Hpos.
Qed.

Lemma group_keys (rs : list row) :
  NoDup (map fst (group_by_feed_name rs)).
Proof.
  exact (proj2 (StorageSpec.group_by_feed_name_acc rs [] (NoDup_nil _))).
Qed.

Lemma ordered_keys (gs : list (option pystr * Z)) :
  NoDup (map fst gs) -> NoDup (map fst (order_by_count_desc gs)).
Proof.
  intros Hnd. eapply Permutation_NoDup; [|exact Hnd].
  apply Permutation_map. symmetry. apply StorageSpec.order_by_count_desc_perm.
Qed.

(** [by_feed] is the list the second query answers, as it is. *)
Lemma by_feed_is_query (t : table) :
  by_feed (get_stats t) = order_by_count_desc (group_by_feed_name (rows t)).
Proof.
  unfold get_stats; simpl.
  apply (dict_of_pairs_nodup opt_str_eqb opt_str_eqb_spec).
  apply ordered_keys, group_keys.
Qed.

Lemma insert_desc_sorted g gs :
  Sorted count_ge gs -> Sorted count_ge (insert_desc g gs).
Proof.
  induction gs as [|g' gs IH]; simpl; intros Hs.
  - repeat constructor.
  - destruct (Z.ltb_spec (snd g') (snd g)) as [Hlt|Hge].
    + constructor; [exact Hs|]. constructor. unfold count_ge. lia.
    + inversion Hs as [|x xs Hs' Hhd]; subst.
      constructor; [now apply IH|].
      destruct gs as [|g'' gs]; simpl.
      * constructor. unfold count_ge. lia.
      * destruct (snd g'' <? snd g); constructor.
        -- unfold count_ge. lia.
        -- now inversion Hhd.
Qed.

Lemma count_ge_trans : Relations_1.Transitive count_ge.
Proof. intros a b c. unfold count_ge. lia. Qed.

Lemma order_by_count_desc_sorted gs :
  StronglySorted count_ge (order_by_count_desc gs).
Proof.
  apply Sorted_StronglySorted; [exact count_ge_trans|].
  induction gs as [|g gs IH]; simpl; [constructor|].
  now apply insert_desc_sorted.
Qed.

(** The rows kept and the rows dropped by [mark_processed] make up the
    table. *)
Lemma filter_split (A : Type) (f : A -> bool) (l : list A) :
  (List.length (filter f l) + List.length (filter (fun x => negb (f x)) l)
   = List.length l)%nat.
Proof.
  induction l as [|x l IH]; simpl; [reflexivity|].
  destruct (f x); simpl; lia.
Qed.

Lemma records_at_most_one (h : pystr) (rs : list row) :
  NoDup (map r_url_hash rs) ->
  List.length (filter (fun r => str_eqb (r_url_hash r) h) rs)
  = if existsb (fun r => str_eqb (r_url_hash r) h) rs then 1%nat else 0%nat.
Proof.
  induction rs as [|r rs IH]; simpl; intros Hnd; [reflexivity|].
  inversion Hnd as [|x xs Hnotin Hnd']; subst.
  destruct (str_eqb_spec (r_url_hash r) h) as [Heq|Hne]; simpl.
  - rewrite IH by exact Hnd'.
    destruct (existsb (fun r0 => str_eqb (r_url_hash r0) h) rs) eqn:E;
      [|reflexivity].
    apply existsb_exists in E. destruct E as [r' [Hin Hr']].
    apply str_eqb_eq in Hr'. exfalso. apply Hnotin.
    apply in_map_iff. exists r'. split; [congruence | exact Hin].
  - now apply IH.
Qed.

Lemma records_of_kept (ha hb : pystr) (rs : list row) :
  hb <> ha ->
  filter (fun r => str_eqb (r_url_hash r) hb)
         (filter (fun r => negb (str_eqb (r_url_hash r) ha)) rs)
  = filter (fun r => str_eqb (r_url_hash r) hb) rs.
Proof.
  intros Hne. induction rs as [|r rs IH]; simpl; [reflexivity|].
  destruct (str_eqb_spec (r_url_hash r) ha) as [Ha|Ha]; simpl.
  - destruct (str_eqb_spec (r_url_hash r) hb); [congruence | exact IH].
  - destruct (str_eqb (r_url_hash r) hb); [f_equal|]; exact IH.
Qed.

(** ** The most recent rows *)

Lemma not_before_total a b : not_before a b = false -> not_before b a = true.
Proof.
  destruct a as [x|], b as [y|]; simpl; try congruence.
  intros H. apply Z.leb_le. apply Z.leb_gt in H. lia.
Qed.

Lemma later_trans : Relations_1.Transitive later.
Proof.
  intros a b c. unfold later.
  destruct (r_processed_at a), (r_processed_at b), (r_processed_at c);
    simpl; try congruence.
  rewrite !Z.leb_le. lia.
Qed.

Lemma insert_recent_perm r rs : Permutation (insert_recent r rs) (r :: rs).
Proof.
  induction rs as [|r' rs IH]; simpl; [reflexivity|].
  destruct (not_before (r_processed_at r') (r_processed_at r)); [|reflexivity].
  rewrite IH. apply perm_swap.
Qed.

Lemma insert_recent_sorted r rs :
  Sorted later rs -> Sorted later (insert_recent r rs).
Proof.
  induction rs as [|r' rs IH]; simpl; intros Hs.
  - repeat constructor.
  - destruct (not_before (r_processed_at r') (r_processed_at r)) eqn:E.
    + inversion Hs as [|x xs Hs' Hhd]; subst.
      constructor; [now apply IH|].
      destruct rs as [|r'' rs]; simpl.
      * constructor. exact E.
      * destruct (not_before (r_processed_at r'') (r_processed_at r));
          constructor; [now inversion Hhd | exact E].
    + constructor; [exact Hs|]. constructor.
      now apply not_before_total.
Qed.

Lemma order_by_processed_at_desc_acc rs acc :
  Sorted later acc ->
  let out := fold_left (fun sorted r => insert_recent r sorted) rs acc in
  Sorted later out /\ Permutation out (acc ++ rs).
Proof.
  revert acc. induction rs as [|r rs IH]; intros acc Hacc; simpl.
  - split; [exact Hacc | now rewrite app_nil_r].
  - destruct (IH (insert_recent r acc) (insert_recent_sorted r acc Hacc))
      as [Hs Hp].
    split; [exact Hs|]. rewrite Hp, insert_recent_perm.
    simpl. apply Permutation_middle.
Qed.

End TableFacts.

Module TableSpec.
Import Storage StorageFacts TableFacts.

(** X1.  [get_stats]: what [by_feed] holds under a feed name is the
    number of rows of that name, and a name without rows is no key of
    it. *)
Theorem by_feed_counts_the_rows :
  forall (t : table) (k : option pystr),
    dict_get opt_str_eqb k (by_feed (get_stats t))
    = if rows_of_feed k (rows t) =? 0 then None
      else Some (rows_of_feed k (rows t)).
Proof.
  intros t k. rewrite by_feed_is_query.
  rewrite <- (dict_get_perm opt_str_eqb opt_str_eqb_spec k
                (group_by_feed_name (rows t))
                (order_by_count_desc (group_by_feed_name (rows t)))).
  - unfold group_by_feed_name. rewrite group_counts; [reflexivity|].
    simpl. discriminate.
  - symmetry. apply StorageSpec.order_by_count_desc_perm.
  - apply group_keys.
Qed.

(** X2.  [get_stats]: [by_feed] lists each feed name once, the names
    with more rows first. *)
Theorem by_feed_lists_larger_counts_first :
  forall t : table,
    NoDup (map fst (by_feed (get_stats t)))
    /\ StronglySorted count_ge (by_feed (get_stats t)).
Proof.
  intros t. rewrite by_feed_is_query. split.
  - apply ordered_keys, group_keys.
  - apply order_by_count_desc_sorted.
Qed.

(** X3.  [mark_processed] touches one fingerprint only: the records of
    every other fingerprint stay as they are, and the table grows by one
    row when the item was not recorded and keeps its size when it was. *)
Theorem mark_processed_touches_one_fingerprint :
  forall (t : table) (item : Article) (s : option pystr) (now : datetime),
    unique_hash t ->
    (forall other,
        url_hash other <> url_hash item ->
        records_of (mark_processed t item s now) other = records_of t other)
    /\ Z.of_nat (List.length (rows (mark_processed t item s now)))
       = Z.of_nat (List.length (rows t))
         + (if is_processed t item then 0 else 1).
Proof.
  intros t item s now Hunique. split.
  - intros other Hne. unfold records_of, mark_processed; simpl.
    rewrite filter_app, records_of_kept by exact Hne. simpl.
    destruct (str_eqb_spec (url_hash item) (url_hash other));
      [congruence | apply app_nil_r].
  - unfold mark_processed, is_processed; simpl.
    rewrite length_app. simpl.
    pose proof (filter_split row
                  (fun r => str_eqb (r_url_hash r) (url_hash item)) (rows t))
      as Hsplit.
    rewrite (records_at_most_one (url_hash item) (rows t) Hunique) in Hsplit.
    destruct (existsb (fun r => str_eqb (r_url_hash r) (url_hash item)) (rows t));
      lia.
Qed.

Lemma mark_processed_touches_one_fingerprint_witness :
  records_of (mark_processed Sample.one_row Sample.post2 None 5) Sample.post1
  = records_of Sample.one_row Sample.post1
  /\ Z.of_nat (List.length
                 (rows (mark_processed Sample.one_row Sample.post2 None 5)))
     = 2.
Proof.
  assert (H : unique_hash Sample.one_row).
  { unfold unique_hash. vm_compute. constructor; [intros []|constructor]. }
  destruct (mark_processed_touches_one_fingerprint
              Sample.one_row Sample.post2 None 5 H) as [Hframe Hsize].
  split; [|exact Hsize].
  apply Hframe. vm_compute. discriminate.
Defined.

(** X4.  [get_recent_articles], for a limit that fits an SQLite integer,
    answers the first rows of the table put in the order of
    [processed_at], the latest first: as many as the limit says, all of
    them when the limit is negative or exceeds their number; each comes
    without its [id]. *)
Theorem get_recent_articles_latest_first :
  forall (t : table) (limit : Z),
    sqlite_integer limit = true ->
    exists picked rest,
      get_recent_articles t limit = Returns (map selected picked)
      /\ Permutation (rows t) (picked ++ rest)
      /\ StronglySorted later (picked ++ rest)
      /\ List.length picked
         = if limit <? 0 then List.length (rows t)
           else Nat.min (Z.to_nat limit) (List.length (rows t)).
Proof.
  intros t limit Hfits. unfold get_recent_articles. rewrite Hfits.
  destruct (order_by_processed_at_desc_acc (rows t) []) as [Hs Hp];
    [constructor|].
  fold (order_by_processed_at_desc (rows t)) in Hs, Hp. simpl in Hp.
  apply Sorted_StronglySorted in Hs; [|exact later_trans].
  assert (Hlen : List.length (order_by_processed_at_desc (rows t))
                 = List.length (rows t)) by now apply Permutation_length.
  destruct (limit <? 0).
  - exists (order_by_processed_at_desc (rows t)), [].
    rewrite app_nil_r. repeat split; [now symmetry | exact Hs | exact Hlen].
  - exists (firstn (Z.to_nat limit) (order_by_processed_at_desc (rows t))),
           (skipn (Z.to_nat limit) (order_by_processed_at_desc (rows t))).
    rewrite firstn_skipn, length_firstn, Hlen.
    repeat split; [now symmetry | exact Hs].
Qed.

Lemma get_recent_articles_latest_first_witness :
  exists picked rest,
    get_recent_articles
      (mark_processed Sample.one_row Sample.post2 None (Sample.noon + 5)) 1
    = Returns (map selected picked)
    /\ Permutation
         (rows (mark_processed Sample.one_row Sample.post2 None (Sample.noon + 5)))
         (picked ++ rest)
    /\ StronglySorted later (picked ++ rest)
    /\ List.length picked = 1%nat.
Proof.
  apply (get_recent_articles_latest_first
           (mark_processed Sample.one_row Sample.post2 None (Sample.noon + 5)) 1).
  reflexivity.
Defined.

End TableSpec.

(* ================================================================== *)
(** * main.py: what a run does to the table *)
(* ================================================================== *)

Module RunSpec.
Import Storage StorageFacts Main.

Lemma slice_to_length (A : Type) (n : Z) (l : list A) :
  0 <= n -> Z.of_nat (List.length (slice_to n l)) <= n.
Proof.
  intros Hn. unfold slice_to.
  destruct (Z.leb_spec 0 n); [|lia].
  rewrite length_firstn. lia.
Qed.

Lemma slice_to_all (A : Type) (n : Z) (l : list A) :
  Z.of_nat (List.length l) <= n -> slice_to n l = l.
Proof.
  intros Hn. unfold slice_to.
  destruct (Z.leb_spec 0 n); [|lia].
  apply firstn_all2. lia.
Qed.

Lemma mark_processed_grows (t : table) a s now :
  (List.length (rows (mark_processed t a s now)) <= S (List.length (rows t)))%nat.
Proof.
  unfold mark_processed; simpl. rewrite length_app. simpl.
  pose proof (filter_length_le
                (fun r => negb (str_eqb (r_url_hash r) (url_hash a))) (rows t)).
  lia.
Qed.

Section Run.
Variable world : Type.
Variable html_unescape : pystr -> pystr.
Variable feedparser_parse :
  pystr -> json -> json -> world -> outcome Fetcher.feed * world.
Variable float_repr : float -> pystr.
Variable float_of_str : pystr -> float.
Variable int_max_str_digits : nat.
Variable decoder_depth : nat.
Variable encoder_depth : nat.
Variable requests_post :
  pystr -> json -> world -> outcome Notifier.response * world.
Variable smtp_session :
  pystr -> Z -> pystr -> pystr -> Notifier.message -> world
  -> outcome unit * world.
Variable llm_config : Type.
Variable summarize : llm_config -> Article -> world -> option pystr * world.
Variable clock : world -> datetime * world.

Abbreviation process_article :=
  (Main.process_article requests_post smtp_session summarize clock).
Abbreviation process_articles :=
  (Main.process_articles requests_post smtp_session summarize clock).
Abbreviation run_once :=
  (Main.run_once html_unescape feedparser_parse float_repr float_of_str
                 int_max_str_digits decoder_depth encoder_depth
                 requests_post smtp_session summarize clock).
Abbreviation fetch_all_feeds :=
  (Fetcher.fetch_all_feeds html_unescape feedparser_parse float_repr
                           float_of_str int_max_str_digits decoder_depth
                           encoder_depth).

Lemma process_article_unique notifiers lc st a :
  unique_hash (storage st) ->
  unique_hash (storage (snd (process_article notifiers lc st a))).
Proof.
  intros Hu.
  pose proof (MainSpec.process_article_marks _ requests_post smtp_session _
                summarize clock notifiers lc st a) as H.
  destruct (fst (process_article notifiers lc st a)).
  - destruct H as [s [now ->]]. now apply mark_processed_unique.
  - now rewrite H.
Qed.

Lemma process_articles_unique notifiers lc articles st :
  unique_hash (storage st) ->
  unique_hash (storage (snd (process_articles notifiers lc articles st))).
Proof.
  revert st. induction articles as [|a l IH]; intros st Hu; simpl.
  - exact Hu.
  - pose proof (process_article_unique notifiers lc st a Hu) as Hone.
    destruct (process_article notifiers lc st a) as [[u|e] st1].
    + now apply IH.
    + exact Hone.
Qed.

(** A loop that comes to its end has marked every article it was given. *)
Lemma process_articles_all notifiers lc articles st a :
  fst (process_articles notifiers lc articles st) = Returns tt ->
  In a articles ->
  is_processed (storage (snd (process_articles notifiers lc articles st))) a
  = true.
Proof.
  revert st. induction articles as [|b l IH]; intros st; simpl; [tauto|].
  pose proof (MainSpec.process_article_marks _ requests_post smtp_session _
                summarize clock notifiers lc st b) as Hmark.
  destruct (process_article notifiers lc st b) as [[u|e] st1];
    [|discriminate].
  intros Hends [->|Hin]; [|now apply IH].
  apply MainSpec.process_articles_keep.
  simpl in Hmark. destruct Hmark as [s [now ->]].
  apply is_processed_after_mark.
Qed.

Lemma process_articles_grow notifiers lc articles st :
  (List.length
     (rows (storage (snd (process_articles notifiers lc articles st))))
   <= List.length (rows (storage st)) + List.length articles)%nat.
Proof.
  revert st. induction articles as [|a l IH]; intros st; simpl; [lia|].
  pose proof (MainSpec.process_article_marks _ requests_post smtp_session _
                summarize clock notifiers lc st a) as Hmark.
  destruct (process_article notifiers lc st a) as [[u|e] st1]; simpl in *.
  - specialize (IH st1). destruct Hmark as [s [now Hst]].
    rewrite Hst in IH.
    pose proof (mark_processed_grows (storage st) a s now). lia.
  - rewrite Hmark. lia.
Qed.

(** What a run does to the table: nothing, or the loop over a batch
    cut to the configured number, as far as the loop came. *)
Lemma run_once_table cfg t f w :
  table_after (run_once cfg t f w) = t
  \/ exists notifiers new_articles w2,
       table_after (run_once cfg t f w)
       = storage (snd (process_articles notifiers (llm cfg)
            (slice_to (or_default (max_articles_per_run (schedule cfg)) 10)
                      new_articles)
            (mkProgress t w2 0))).
Proof.
  unfold Main.run_once, table_after.
  destruct (feeds cfg) as [|fc fcs]; [now left|].
  destruct (Fetcher.fetch_all_feeds _ _ _ _ _ _ _ _ _ _)
    as [[[all|e] f1] w1]; [|now left].
  destruct (clock w1) as [now w2].
  destruct (Fetcher.filter_by_age _ _ _) as [recent|e]; [|now left].
  destruct (filter_new_articles t recent) as [|a new] eqn:Hnew; [now left|].
  destruct (Notifier.__init__ _) as [notifiers|e]; [|now left].
  right. exists notifiers, (a :: new), w2.
  now destruct (Main.process_articles _ _ _ _ _ _ _ _).
Qed.

(** X5.  A run that is ended by an exception of the fetch, of the age
    filter or of the construction of the channels has recorded nothing:
    the run raises that exception and the table is as it was. *)
Theorem failed_run_records_nothing :
  forall cfg t f w e,
    feeds cfg <> [] ->
    match fetch_all_feeds (feeds cfg) f w with
    | (Raises e1, _, _) => e1 = e
    | (Returns all_articles, _, w1) =>
        match Fetcher.filter_by_age (fst (clock w1)) all_articles
                (or_default (max_age_hours (schedule cfg)) 24) with
        | Raises e2 => e2 = e
        | Returns recent_articles =>
            filter_new_articles t recent_articles <> []
            /\ Notifier.__init__ (notify cfg) = Raises e
        end
    end ->
    exists f' w', run_once cfg t f w = (Raises e, t, f', w').
Proof.
  intros cfg t f w e Hfeeds. unfold Main.run_once.
  destruct (feeds cfg) as [|fc fcs]; [congruence|].
  destruct (Fetcher.fetch_all_feeds _ _ _ _ _ _ _ _ _ _)
    as [[[all|e1] f1] w1]; [|intros ->; now exists f1, w1].
  destruct (clock w1) as [now w2]. simpl.
  destruct (Fetcher.filter_by_age _ _ _) as [recent|e2];
    [|intros ->; now exists f1, w2].
  intros [Hnew Hinit].
  destruct (filter_new_articles t recent) as [|a new]; [congruence|].
  rewrite Hinit. now exists f1, w2.
Qed.

(** X6.  A run never forgets: whatever was recorded before it is
    recorded after it, and the table still has at most one record per
    fingerprint. *)
Theorem run_keeps_what_was_recorded :
  forall cfg t f w,
    unique_hash t ->
    unique_hash (table_after (run_once cfg t f w))
    /\ (forall a, is_processed t a = true ->
                  is_processed (table_after (run_once cfg t f w)) a = true).
Proof.
  intros cfg t f w Hu.
  destruct (run_once_table cfg t f w) as [->|[ns [new [w2 ->]]]].
  - split; [exact Hu | auto].
  - split.
    + now apply process_articles_unique.
    + intros a Ha. now apply MainSpec.process_articles_keep.
Qed.

(** X7.  A run adds at most [max_articles_per_run] rows (10 when the
    configuration does not say), when that number is not negative. *)
Theorem run_adds_at_most_the_cap :
  forall cfg t f w,
    0 <= or_default (max_articles_per_run (schedule cfg)) 10 ->
    Z.of_nat (List.length (rows (table_after (run_once cfg t f w))))
    <= Z.of_nat (List.length (rows t))
       + or_default (max_articles_per_run (schedule cfg)) 10.
Proof.
  intros cfg t f w Hcap.
  destruct (run_once_table cfg t f w) as [->|[ns [new [w2 ->]]]]; [lia|].
  pose proof (process_articles_grow ns (llm cfg)
                (slice_to (or_default (max_articles_per_run (schedule cfg)) 10) new)
                (mkProgress t w2 0)) as Hgrow.
  pose proof (slice_to_length _ _ new Hcap) as Hslice.
  simpl in Hgrow. lia.
Qed.

(** X8.  When the fetch, the age filter and the construction of the
    channels succeed and the run comes to its end, not left by an
    exception in a turn of the loop, every item of the batch is recorded
    at the end of the run; and when the batch was not cut short, none of
    the fetched items of the window is new any more. *)
Theorem run_records_the_batch :
  forall cfg t f w all_articles f1 w1 now w2 recent_articles notifiers,
    feeds cfg <> [] ->
    fetch_all_feeds (feeds cfg) f w = (Returns all_articles, f1, w1) ->
    clock w1 = (now, w2) ->
    Fetcher.filter_by_age now all_articles
      (or_default (max_age_hours (schedule cfg)) 24)
    = Returns recent_articles ->
    Notifier.__init__ (notify cfg) = Returns notifiers ->
    fst (fst (fst (run_once cfg t f w))) = Returns tt ->
    let cap := or_default (max_articles_per_run (schedule cfg)) 10 in
    let new_articles := filter_new_articles t recent_articles in
    let t' := table_after (run_once cfg t f w) in
    (forall a, In a (slice_to cap new_articles) -> is_processed t' a = true)
    /\ (Z.of_nat (List.length new_articles) <= cap ->
        filter_new_articles t' recent_articles = []).
Proof.
  intros cfg t f w all f1 w1 now w2 recent notifiers
         Hfeeds Hfetch Hclock Hage Hinit Hends cap new t'.
  assert (Hrun : fst (process_articles notifiers (llm cfg)
                        (slice_to cap new) (mkProgress t w2 0)) = Returns tt
                 /\ t' = storage (snd (process_articles notifiers (llm cfg)
                                         (slice_to cap new)
                                         (mkProgress t w2 0)))).
  { subst t'. revert Hends. unfold Main.run_once, table_after.
    destruct (feeds cfg) as [|fc fcs] eqn:Hf; [congruence|].
    rewrite Hfetch, Hclock, Hage.
    fold new. destruct new as [|a l] eqn:Hnew.
    - simpl. unfold slice_to. simpl.
      destruct (0 <=? cap); now rewrite ?firstn_nil.
    - rewrite Hinit. fold cap.
      now destruct (Main.process_articles _ _ _ _ _ _ _ _). }
  destruct Hrun as [Hloop Ht'].
  assert (Hbatch : forall a, In a (slice_to cap new) -> is_processed t' a = true).
  { intros a Ha. rewrite Ht'. now apply process_articles_all. }
  split; [exact Hbatch|].
  intros Hall. rewrite (slice_to_all _ _ new Hall) in Hbatch.
  apply StorageSpec.filter_none. intros a Ha. apply negb_false_iff.
  destruct (is_processed t a) eqn:E.
  - rewrite Ht'. now apply MainSpec.process_articles_keep.
  - apply Hbatch. subst new. apply filter_In. now rewrite E.
Qed.

End Run.

Lemma failed_run_records_nothing_witness :
  exists f' w',
    Sample.wide_run Sample.one_row Fetcher.Absent 0%nat
    = (Raises (lit "OverflowError"), Sample.one_row, f', w').
Proof.
  apply (failed_run_records_nothing nat Sample.no_entities Sample.web
           Sample.no_float_repr Sample.no_float Sample.max_digits
           Sample.depth Sample.depth Sample.post Sample.smtp unit
           Sample.summarizer Sample.clock Sample.wide_settings
           Sample.one_row Fetcher.Absent 0%nat (lit "OverflowError")).
  - discriminate.
  - vm_compute. reflexivity.
Defined.

Lemma run_keeps_what_was_recorded_witness :
  unique_hash (table_after (Sample.run Sample.one_row Fetcher.Absent 0%nat))
  /\ is_processed
       (table_after (Sample.run Sample.one_row Fetcher.Absent 0%nat))
       Sample.post1 = true.
Proof.
  assert (H : unique_hash Sample.one_row).
  { unfold unique_hash. vm_compute. constructor; [intros []|constructor]. }
  destruct (run_keeps_what_was_recorded nat Sample.no_entities Sample.web
              Sample.no_float_repr Sample.no_float Sample.max_digits
              Sample.depth Sample.depth Sample.post Sample.smtp
              unit Sample.summarizer Sample.clock Sample.settings
              Sample.one_row Fetcher.Absent 0%nat H) as [Hu Hkeep].
  split; [exact Hu|]. apply Hkeep. vm_compute. reflexivity.
Defined.

Lemma run_adds_at_most_the_cap_witness :
  Z.of_nat
    (List.length
       (rows (table_after (Sample.run Sample.one_row Fetcher.Absent 0%nat))))
  <= 1 + 10.
Proof.
  apply (run_adds_at_most_the_cap nat Sample.no_entities Sample.web
           Sample.no_float_repr Sample.no_float Sample.max_digits
           Sample.depth Sample.depth Sample.post Sample.smtp
           unit Sample.summarizer Sample.clock Sample.settings
           Sample.one_row Fetcher.Absent 0%nat).
  simpl. lia.
Defined.

Lemma run_records_the_batch_witness :
  fst (fst (fst (Sample.run Sample.one_row Fetcher.Absent 0%nat)))
  = Returns tt
  /\ filter_new_articles
       (table_after (Sample.run Sample.one_row Fetcher.Absent 0%nat))
       (match fst (fst (Fetcher.fetch_all_feeds Sample.no_entities Sample.web
                          Sample.no_float_repr Sample.no_float
                          Sample.max_digits Sample.depth Sample.depth
                          [Sample.up; Sample.down] Fetcher.Absent 0%nat)) with
        | Returns l => l
        | Raises _ => []
        end)
     = [].
Proof.
  split; [vm_compute; reflexivity|].
  refine (proj2 (run_records_the_batch nat Sample.no_entities Sample.web
           Sample.no_float_repr Sample.no_float Sample.max_digits
           Sample.depth Sample.depth Sample.post Sample.smtp
           unit Sample.summarizer Sample.clock Sample.settings
           Sample.one_row Fetcher.Absent 0%nat _ _ 2%nat (Sample.noon + 2)
           3%nat _ Sample.three_notifiers _ _ _ _ _ _) _).
  - discriminate.
  - vm_compute. reflexivity.
  - reflexivity.
  - vm_compute. reflexivity.
  - reflexivity.
  - vm_compute. reflexivity.
  - vm_compute. discriminate.
Defined.

End RunSpec.

(* ================================================================== *)
(** * notifier.py: the channels that are built, and the escaping *)
(* ================================================================== *)

Module ChannelsSpec.
Import Notifier.

(** X9.  [Notifier.__init__] builds the channels that are switched on
    and have their credential, in the order Feishu, Telegram, Email, under
    these three names; and it raises (a KeyError) exactly when Telegram
    is to be built without [chat_id], or Email without one of
    [smtp_host], [smtp_port], [password] and [to]. *)
Theorem init_builds_the_enabled_channels :
  forall c : config,
    let fs := switched_on (feishu_enabled (feishu c))
                          (feishu_webhook_url (feishu c)) in
    let tg := switched_on (tg_enabled (telegram c)) (tg_bot_token (telegram c)) in
    let em := switched_on (email_enabled (email c)) (email_username (email c)) in
    let complete :=
      (negb tg || is_some (tg_chat_id (telegram c)))
      && (negb em
          || is_some (email_smtp_host (email c))
             && is_some (email_smtp_port (email c))
             && is_some (email_password (email c))
             && is_some (email_to (email c))) in
    match __init__ c with
    | Returns notifiers =>
        complete = true
        /\ map fst notifiers
           = (if fs then [feishu_name] else [])
             ++ (if tg then [lit "Telegram"] else [])
             ++ (if em then [lit "Email"] else [])
    | Raises e => complete = false /\ e = lit "KeyError"
    end.
Proof.
  intros [[fe fw] [te tt tc] [ee eh ep eu epw et]]; simpl.
  unfold __init__, telegram_entry, email_entry, feishu_entry, switched_on; simpl.
  destruct te, (Fetcher.truthy tt), tc, ee, (Fetcher.truthy eu), eh, ep, epw, et,
    fe, (Fetcher.truthy fw); simpl; split; reflexivity.
Qed.

Lemma escaped_cons (reserved : list N) (c : N) (text : pystr) :
  backslash_escaped reserved (c :: text)
  = (if existsb (N.eqb c) reserved then [Json.backslash; c] else [c])
    ++ backslash_escaped reserved text.
Proof. reflexivity. Qed.

Lemma escaped_head (reserved : list N) (x : N) (text rest : pystr) :
  ~ In Json.backslash reserved ->
  existsb (N.eqb x) reserved = true ->
  backslash_escaped reserved text <> x :: rest.
Proof.
  intros Hbs Hx. destruct text as [|z text]; [discriminate|].
  rewrite escaped_cons.
  destruct (existsb (N.eqb z) reserved) eqn:Ez; simpl; intros H;
    inversion H; subst.
  - apply Hbs. apply existsb_exists in Hx. destruct Hx as [y [Hy Heq]].
    apply N.eqb_eq in Heq. now subst.
  - congruence.
Qed.

Lemma backslash_free (reserved : list N) :
  ~ In Json.backslash reserved ->
  existsb (N.eqb Json.backslash) reserved = false.
Proof.
  intros Hbs. destruct (existsb _ reserved) eqn:E; [|reflexivity].
  apply existsb_exists in E. destruct E as [y [Hy Heq]].
  apply N.eqb_eq in Heq. subst. tauto.
Qed.

Lemma backslash_escaped_injective (reserved : list N) (a b : pystr) :
  ~ In Json.backslash reserved ->
  backslash_escaped reserved a = backslash_escaped reserved b -> a = b.
Proof.
  intros Hbs. revert b. induction a as [|x a IH]; intros [|y b].
  - reflexivity.
  - rewrite escaped_cons. destruct (existsb (N.eqb y) reserved); discriminate.
  - rewrite escaped_cons. destruct (existsb (N.eqb x) reserved); discriminate.
  - rewrite !escaped_cons.
    destruct (existsb (N.eqb x) reserved) eqn:Ex,
             (existsb (N.eqb y) reserved) eqn:Ey; simpl; intros H;
      inversion H; subst.
    + f_equal. now apply IH.
    + exfalso. symmetry in H2. revert H2. now apply escaped_head.
    + exfalso. revert H2. now apply escaped_head.
    + f_equal. now apply IH.
Qed.

(** X10.  [_escape_markdown] tells texts apart: two different texts are
    never escaped to the same text, so that what was escaped can be
    found again. *)
Theorem escape_markdown_tells_texts_apart :
  forall a b : pystr,
    a <> b -> _escape_markdown a <> _escape_markdown b.
Proof.
  intros a b Hne Heq. apply Hne.
  rewrite !EscapingSpec.escape_markdown_one_pass in Heq.
  apply (backslash_escaped_injective markdown_chars); [|exact Heq].
  apply EscapingSpec.markdown_chars_distinct.
Qed.

Section Channels.
Variable world : Type.
Variable requests_post : pystr -> json -> world -> outcome response * world.
Variable smtp_session :
  pystr -> Z -> pystr -> pystr -> message -> world -> outcome unit * world.

Abbreviation send := (Notifier.send requests_post smtp_session).
Abbreviation notify_loop := (Notifier.notify_loop requests_post smtp_session).
Abbreviation notify := (Notifier.notify requests_post smtp_session).

Lemma notify_loop_keys notifiers article summary results w out w' :
  NoDup (map fst results ++ map fst notifiers) ->
  notify_loop notifiers article summary results w = (Returns out, w') ->
  map fst out = map fst results ++ map fst notifiers.
Proof.
  revert results w. induction notifiers as [|[name n] rest IH];
    intros results w Hnd; simpl.
  - intros H. inversion H; subst. now rewrite app_nil_r.
  - destruct (send n article summary w) as [[v|e] w1]; [|discriminate].
    intros Hloop.
    assert (Hfresh : ~ In name (map fst results)).
    { simpl in Hnd. apply NoDup_remove_2 in Hnd. intros Hin. apply Hnd.
      apply in_or_app. now left. }
    apply IH in Hloop.
    + rewrite Hloop.
      rewrite (dict_set_fresh str_eqb str_eqb_spec name v results Hfresh).
      rewrite map_app; simpl; rewrite <- app_assoc; reflexivity.
    + rewrite (dict_set_fresh str_eqb str_eqb_spec name v results Hfresh).
      rewrite map_app; simpl; rewrite <- app_assoc; simpl. exact Hnd.
Qed.

(** X11.  The result that [notify] returns has one entry for each
    channel that [Notifier.__init__] built and no other, in the order of
    the channels. *)
Theorem notify_reports_each_channel_once :
  forall (c : config) (notifiers : list (pystr * adapter)) article summary w
         results w',
    __init__ c = Returns notifiers ->
    notify notifiers article summary w = (Returns results, w') ->
    map fst results = map fst notifiers.
Proof.
  intros c notifiers article summary w results w' Hinit Hnotify.
  apply NotifierSpec.init_names_distinct in Hinit.
  unfold Notifier.notify in Hnotify.
  now apply notify_loop_keys in Hnotify.
Qed.
End Channels.

Lemma notify_reports_each_channel_once_witness :
  Notifier.notify Sample.post Sample.smtp Sample.three_notifiers
    Sample.post1 (lit "summary") 0%nat
  = (Returns [(feishu_name, JBool false); (lit "Telegram", JBool true);
              (lit "Email", JBool true)], 3%nat)
  /\ map fst [(feishu_name, JBool false); (lit "Telegram", JBool true);
              (lit "Email", JBool true)]
     = map fst Sample.three_notifiers.
Proof.
  split; [vm_compute; reflexivity|].
  apply (notify_reports_each_channel_once nat Sample.post Sample.smtp
           Sample.all_channels Sample.three_notifiers Sample.post1
           (lit "summary") 0%nat _ 3%nat eq_refl).
  vm_compute. reflexivity.
Defined.

Lemma escape_markdown_tells_texts_apart_witness :
  _escape_markdown (lit "a_b") = lit "a\_b"
  /\ _escape_markdown (lit "a\_b") = lit "a\\_b"
  /\ _escape_markdown (lit "a_b") <> _escape_markdown (lit "a\_b").
Proof.
  split; [reflexivity|]. split; [reflexivity|].
  apply escape_markdown_tells_texts_apart. discriminate.
Defined.

End ChannelsSpec.

(* ================================================================== *)
(** * fetcher.py: the fingerprint, and the text of an article *)
(* ================================================================== *)

Module HashFacts.
Import Sha256.

Lemma round_length st kw : List.length (round st kw) = List.length st.
Proof.
  unfold round.
  destruct st as [|a [|b [|c [|d [|e [|f [|g [|h [|i st]]]]]]]]]; reflexivity.
Qed.

Lemma rounds_length kws st :
  List.length (fold_left round kws st) = List.length st.
Proof.
  revert st. induction kws as [|kw kws IH]; intros st; simpl; [reflexivity|].
  now rewrite IH, round_length.
Qed.

Lemma compress_length h block :
  List.length (compress h block) = List.length h.
Proof.
  unfold compress. rewrite length_map, length_combine, rounds_length.
  apply Nat.min_id.
Qed.

Lemma blocks_length fuel ws h :
  List.length (blocks fuel ws h) = List.length h.
Proof.
  revert ws h. induction fuel as [|fuel IH]; intros ws h; simpl; [reflexivity|].
  destruct ws; [reflexivity|]. now rewrite IH, compress_length.
Qed.

Lemma digest_length msg : List.length (digest msg) = 8%nat.
Proof. unfold digest. now rewrite blocks_length. Qed.

Lemma hex_digit_lower (x : Z) :
  lower_hex (hex_digit (Z.land x 15)) = true.
Proof.
  change 15 with (Z.ones 4). rewrite Z.land_ones by lia.
  assert (H : 0 <= x mod 2 ^ 4 < 16) by (apply Z.mod_pos_bound; lia).
  unfold hex_digit, lower_hex.
  destruct (Z.ltb_spec (x mod 2 ^ 4) 10).
  - apply orb_true_iff. left. apply andb_true_iff.
    split; apply N.leb_le; lia.
  - apply orb_true_iff. right. apply andb_true_iff.
    split; apply N.leb_le; lia.
Qed.

Lemma hex_word_lower w :
  List.length (hex_word w) = 8%nat
  /\ Forall (fun c => lower_hex c = true) (hex_word w).
Proof.
  split; [reflexivity|]. unfold hex_word.
  apply Forall_forall. intros c Hc. apply in_map_iff in Hc.
  destruct Hc as [i [<- _]]. apply hex_digit_lower.
Qed.

Lemma hex_words_lower ws :
  List.length (flat_map hex_word ws) = (8 * List.length ws)%nat
  /\ Forall (fun c => lower_hex c = true) (flat_map hex_word ws).
Proof.
  induction ws as [|w ws [IHlen IHall]]; [split; [reflexivity|constructor]|].
  cbn [flat_map]. destruct (hex_word_lower w) as [Hlen Hall]. split.
  - rewrite length_app, Hlen, IHlen. simpl. lia.
  - apply Forall_app. now split.
Qed.

End HashFacts.

Module TextSpec.
Import Fetcher.

(** X12.  The fingerprint of an article is a text of sixteen characters,
    each one of [0-9a-f]. *)
Theorem url_hash_is_sixteen_hex_digits :
  forall a : Article,
    List.length (url_hash a) = 16%nat
    /\ forallb lower_hex (url_hash a) = true.
Proof.
  intros a. unfold url_hash, Sha256.hexdigest.
  destruct (HashFacts.hex_words_lower (Sha256.digest (Sha256.encode (url a))))
    as [Hlen Hall].
  rewrite HashFacts.digest_length in Hlen. split.
  - rewrite length_firstn, Hlen. reflexivity.
  - apply forallb_forall. intros c Hc.
    rewrite Forall_forall in Hall. apply Hall.
    rewrite <- (firstn_skipn 16). apply in_or_app. now left.
Qed.

(** ** The pass that drops the tags *)

Lemma span_not_gt_app (s : pystr) :
  s = fst (span_not_gt s) ++ snd (span_not_gt s)
  /\ ~ In gt_sign (fst (span_not_gt s))
  /\ match snd (span_not_gt s) with
     | [] => True
     | c :: _ => c = gt_sign
     end.
Proof.
  induction s as [|c s [IHapp [IHrun IHrest]]]; simpl; [tauto|].
  destruct (N.eqb_spec c gt_sign) as [->|Hne]; simpl; [tauto|].
  destruct (span_not_gt s) as [run rest]; simpl in *.
  split; [now f_equal|]. split; [|exact IHrest].
  intros [Heq|Hin]; [congruence | tauto].
Qed.

Lemma span_not_gt_none (s : pystr) :
  ~ In gt_sign s -> span_not_gt s = (s, []).
Proof.
  induction s as [|c s IH]; simpl; intros Hnot; [reflexivity|].
  destruct (N.eqb_spec c gt_sign) as [->|Hne]; [tauto|].
  rewrite IH by tauto. reflexivity.
Qed.

Lemma span_not_gt_rest_length (s : pystr) :
  (List.length (snd (span_not_gt s)) <= List.length s)%nat.
Proof.
  destruct (span_not_gt_app s) as [Happ _].
  rewrite Happ at 2. rewrite length_app. lia.
Qed.

(** What the pass leaves was there before. *)
Lemma strip_tags_In (fuel : nat) (s : pystr) (c : N) :
  In c (strip_tags fuel s) -> In c s.
Proof.
  revert s. induction fuel as [|fuel IH]; intros s; simpl; [tauto|].
  destruct s as [|x s]; [tauto|].
  assert (Hkeep : In c (x :: strip_tags fuel s) -> In c (x :: s)).
  { intros [->|Hin]; [now left | right; now apply IH]. }
  destruct (N.eqb x lt_sign); [|exact Hkeep].
  destruct (span_not_gt_app s) as [Happ _].
  destruct (span_not_gt s) as [[|r run] [|g rest]]; try exact Hkeep.
  simpl in Happ. intros Hin. apply IH in Hin. right. rewrite Happ.
  right. apply in_or_app. right. now right.
Qed.

Lemma strip_tags_no_tag (fuel : nat) (s : pystr) :
  (List.length s <= fuel)%nat -> has_tag (strip_tags fuel s) = false.
Proof.
  revert s. induction fuel as [|fuel IH]; intros s Hlen.
  - destruct s; [reflexivity | simpl in Hlen; lia].
  - destruct s as [|c s]; [reflexivity|]. simpl in Hlen.
    cbn [strip_tags].
    assert (Hs : has_tag (strip_tags fuel s) = false) by (apply IH; lia).
    destruct (N.eqb_spec c lt_sign) as [->|Hne].
    + pose proof (span_not_gt_app s) as [Happ [Hrun Hrest]].
      pose proof (span_not_gt_rest_length s) as Hshort.
      destruct (span_not_gt s) as [run rest] eqn:Hspan. simpl in *.
      assert (Hopen : match span_not_gt (strip_tags fuel s) with
                      | (_ :: _, _ :: _) => true
                      | _ => false
                      end = false ->
                      has_tag (lt_sign :: strip_tags fuel s) = false).
      { intros Hno. cbn [has_tag]. now rewrite Hno, Hs, andb_false_r. }
      destruct run as [|r run].
      * (* nothing between the two signs, or nothing at all *)
        apply Hopen. destruct rest as [|g rest].
        -- simpl in Happ. subst s. now destruct fuel.
        -- simpl in Happ. subst s g. destruct fuel; [simpl in Hlen; lia|].
           reflexivity.
      * destruct rest as [|g rest].
        -- (* no closing sign at all *)
           apply Hopen.
           rewrite span_not_gt_none; [now destruct (strip_tags fuel s)|].
           intros Hin. apply strip_tags_In in Hin.
           rewrite Happ, app_nil_r in Hin. tauto.
        -- apply IH. simpl in Hshort. lia.
    + cbn [has_tag]. rewrite Hs.
      destruct (N.eqb_spec c lt_sign); [contradiction | reflexivity].
Qed.

(** X13.  The first pass of [clean_html] leaves no tag: the pattern
    [<[^>]+>] matches nowhere in the text it returns, and what it returns
    is made of characters of its input. *)
Theorem strip_tags_leaves_no_tag :
  forall raw_html : pystr,
    has_tag (strip_tags (List.length raw_html) raw_html) = false
    /\ incl (strip_tags (List.length raw_html) raw_html) raw_html.
Proof.
  intros raw. split.
  - apply strip_tags_no_tag. lia.
  - intros c. apply strip_tags_In.
Qed.

End TextSpec.
Module CleanFacts.
Import Fetcher.

Lemma single_spaced_weaken b s :
  single_spaced true s = true -> single_spaced b s = true.
Proof.
  destruct s as [|c s]; simpl; [reflexivity|].
  destruct (isspace c); [|auto].
  rewrite andb_false_r. discriminate.
Qed.

Lemma single_spaced_app b s1 s2 :
  single_spaced b (s1 ++ s2)
  = single_spaced b s1 && single_spaced (ends_in_space b s1) s2.
Proof.
  revert b. induction s1 as [|c s1 IH]; intros b; simpl; [reflexivity|].
  destruct (isspace c) eqn:E.
  - rewrite IH. now rewrite !andb_assoc.
  - apply IH.
Qed.

Lemma ends_in_space_app b s1 s2 :
  ends_in_space b (s1 ++ s2) = ends_in_space (ends_in_space b s1) s2.
Proof.
  revert b. induction s1 as [|c s1 IH]; intros b; simpl; [reflexivity|].
  apply IH.
Qed.

Lemma ends_rev s : ends_in_space false (rev s) = starts_with_space s.
Proof.
  destruct s as [|c s]; [reflexivity|]. simpl.
  now rewrite ends_in_space_app.
Qed.

Lemma single_spaced_start s :
  single_spaced true s = true -> starts_with_space s = false.
Proof.
  destruct s as [|c s]; simpl; [reflexivity|].
  destruct (isspace c); [|reflexivity].
  rewrite andb_false_r. discriminate.
Qed.

Lemma single_spaced_rev s :
  single_spaced false s = true -> single_spaced false (rev s) = true.
Proof.
  induction s as [|c s IH]; simpl; [reflexivity|].
  intros H. rewrite single_spaced_app, ends_rev. simpl.
  destruct (isspace c) eqn:E.
  - apply andb_true_iff in H. destruct H as [H32 Hs].
    simpl in H32. rewrite andb_true_r in H32.
    rewrite (single_spaced_start s Hs), H32.
    rewrite IH by now apply single_spaced_weaken. reflexivity.
  - rewrite andb_true_r.
    destruct s as [|d s]; [reflexivity|].
    apply IH. simpl in H |- *.
    destruct (isspace d); [|exact H].
    now rewrite !andb_true_r in *.
Qed.

Lemma collapse_single_spaced in_run s :
  single_spaced in_run (collapse_spaces in_run s) = true.
Proof.
  revert in_run. induction s as [|c s IH]; intros in_run; simpl;
    [reflexivity|].
  destruct (isspace c) eqn:E.
  - destruct in_run; [apply IH|]. simpl. now rewrite IH.
  - simpl. rewrite E. apply IH.
Qed.

Lemma lstrip_suffix s : exists spaces, s = spaces ++ lstrip s.
Proof.
  induction s as [|c s [spaces IH]]; simpl; [now exists []|].
  destruct (isspace c); [|now exists []].
  exists (c :: spaces). simpl. now f_equal.
Qed.

Lemma lstrip_start s : starts_with_space (lstrip s) = false.
Proof.
  induction s as [|c s IH]; simpl; [reflexivity|].
  destruct (isspace c) eqn:E; [exact IH|]. simpl. exact E.
Qed.

Lemma single_spaced_suffix b s1 s2 :
  single_spaced b (s1 ++ s2) = true -> single_spaced false s2 = true.
Proof.
  rewrite single_spaced_app. intros H. apply andb_true_iff in H.
  destruct H as [_ H].
  destruct (ends_in_space b s1); [now apply single_spaced_weaken | exact H].
Qed.

Lemma single_spaced_strict s :
  single_spaced false s = true -> starts_with_space s = false ->
  single_spaced true s = true.
Proof.
  destruct s as [|c s]; simpl; [reflexivity|].
  intros H Hc. now rewrite Hc in *.
Qed.

Lemma lstrip_single_spaced s :
  single_spaced false s = true -> single_spaced true (lstrip s) = true.
Proof.
  intros H. apply single_spaced_strict; [|apply lstrip_start].
  destruct (lstrip_suffix s) as [spaces Hs]. rewrite Hs in H.
  now apply single_spaced_suffix in H.
Qed.

Lemma strip_single_spaced s :
  single_spaced false s = true ->
  single_spaced true (strip s) = true
  /\ single_spaced true (rev (strip s)) = true.
Proof.
  intros H. unfold strip. rewrite rev_involutive.
  pose proof (lstrip_single_spaced s H) as Hleft.
  assert (Hright : single_spaced true (lstrip (rev (lstrip s))) = true).
  { apply lstrip_single_spaced, single_spaced_rev.
    now apply single_spaced_weaken. }
  split; [|exact Hright].
  destruct (lstrip_suffix (rev (lstrip s))) as [spaces Hs].
  apply (f_equal (@rev N)) in Hs. rewrite rev_involutive, rev_app_distr in Hs.
  rewrite Hs, single_spaced_app in Hleft.
  now apply andb_true_iff in Hleft.
Qed.

End CleanFacts.

Module CleanHtmlSpec.
Import Fetcher CleanFacts.

(** X14.  Whatever [html.unescape] answers, the text [clean_html]
    returns has no white space at its start or at its end, and inside it
    white space is one plain space at a time. *)
Theorem clean_html_is_single_spaced :
  forall (html_unescape : pystr -> pystr) (raw_html : pystr),
    single_spaced true (clean_html html_unescape raw_html) = true
    /\ single_spaced true (rev (clean_html html_unescape raw_html)) = true.
Proof.
  intros html_unescape raw. unfold clean_html.
  apply strip_single_spaced, collapse_single_spaced.
Qed.

End CleanHtmlSpec.

(* ================================================================== *)
(** * fetcher.py: dates, the articles of a feed, the cache across runs *)
(* ================================================================== *)

Module DateFacts.
Import Fetcher.

Lemma days_before_year_bounds y :
  1 <= y <= 9999 ->
  0 <= days_before_year y
  /\ days_before_year y + (if is_leap y then 366 else 365) <= 3652059.
Proof.
  intros Hy. unfold days_before_year, is_leap. split; [lia|].
  destruct (Z.eqb_spec (y mod 4) 0); simpl; [|lia].
  destruct (Z.eqb_spec (y mod 100) 0); simpl; [|lia].
  destruct (Z.eqb_spec (y mod 400) 0); simpl; lia.
Qed.

Lemma day_of_year_bounds y m d :
  1 <= m <= 12 -> 1 <= d <= days_in_month y m ->
  0 <= days_before_month y m + d - 1 < (if is_leap y then 366 else 365).
Proof.
  intros Hm Hd.
  assert (Hcases : m = 1 \/ m = 2 \/ m = 3 \/ m = 4 \/ m = 5 \/ m = 6 \/ m = 7
                   \/ m = 8 \/ m = 9 \/ m = 10 \/ m = 11 \/ m = 12) by lia.
  clear Hm.
  repeat (destruct Hcases as [->|Hcases]); [..|subst m];
    unfold days_before_month, days_in_month in *;
    destruct (is_leap y); simpl in Hd;
    match goal with
    | |- context [fold_left ?f ?l 0] =>
        let v := eval vm_compute in (fold_left f l 0) in
        change (fold_left f l 0) with v
    end; lia.
Qed.

Lemma make_datetime_valid t d :
  make_datetime t = Returns d -> valid_datetime d = true.
Proof.
  unfold make_datetime.
  destruct (_ && _) eqn:E; [|discriminate].
  intros H. inversion H; subst; clear H.
  repeat (apply andb_true_iff in E; destruct E as [E ?]).
  repeat match goal with
         | H : (_ <=? _) = true |- _ => apply Z.leb_le in H
         end.
  pose proof (days_before_year_bounds (tm_year t)) as Hy.
  pose proof (day_of_year_bounds (tm_year t) (tm_mon t) (tm_mday t)) as Hd.
  unfold valid_datetime, datetime_max.
  apply andb_true_iff. split; apply Z.leb_le;
    destruct (is_leap (tm_year t)); nia.
Qed.

End DateFacts.

Module FetchFacts.
Import Json Fetcher.

Lemma dict_get_In (k : pystr) (v : json) (d : pydict pystr json) :
  dict_get str_eqb k d = Some v -> In (k, v) d.
Proof.
  induction d as [|[k' v'] d IH]; simpl; [discriminate|].
  destruct (str_eqb_spec k k') as [->|Hne].
  - intros H. inversion H. now left.
  - intros H. right. now apply IH.
Qed.

Lemma truthy_some (s : option pystr) (t : pystr) :
  truthy s = Some t -> s = Some t /\ t <> [].
Proof.
  destruct s as [[|c s]|]; simpl; try discriminate.
  intros H. inversion H. split; [reflexivity | discriminate].
Qed.

Lemma parse_published_date_valid (e : entry) (d : datetime) :
  parse_published_date e = Some d -> valid_datetime d = true.
Proof.
  unfold parse_published_date.
  destruct (e_published_parsed e) as [t|], (e_updated_parsed e) as [t'|];
    try destruct (make_datetime t) as [d1|] eqn:E1;
    try destruct (make_datetime t') as [d2|] eqn:E2;
    intros H; inversion H; subst;
    eauto using DateFacts.make_datetime_valid.
Qed.

Section Entries.
Variable html_unescape : pystr -> pystr.

Abbreviation add_entry := (Fetcher.add_entry html_unescape).

Lemma add_entry_well_formed (cfg : feed_config) articles e :
  Forall (well_formed_article cfg) articles ->
  Forall (well_formed_article cfg)
    (add_entry (name cfg)
       match feed_category cfg with Some c => c | None => lit "general" end
       articles e).
Proof.
  intros Hacc. unfold Fetcher.add_entry.
  destruct (e_link e) as [[|c link]|]; try exact Hacc.
  apply Forall_app. split; [exact Hacc|]. constructor; [|constructor].
  unfold well_formed_article;
    cbn [url feed_name category content published].
  split; [discriminate|]. split; [reflexivity|]. split; [reflexivity|]. split.
  - destruct (Nat.ltb_spec 3000 (List.length (clean_html html_unescape (entry_content e)))).
    + rewrite length_app, length_firstn.
      change (List.length (lit "...")) with 3%nat. lia.
    + lia.
  - destruct (parse_published_date e) as [d|] eqn:E; [|exact I].
    now apply parse_published_date_valid with e.
Qed.

Lemma add_entries_well_formed (cfg : feed_config) es articles :
  Forall (well_formed_article cfg) articles ->
  Forall (well_formed_article cfg)
    (fold_left
       (add_entry (name cfg)
          match feed_category cfg with Some c => c | None => lit "general" end)
       es articles).
Proof.
  revert articles. induction es as [|e es IH]; intros articles Hacc; simpl.
  - exact Hacc.
  - apply IH. now apply add_entry_well_formed.
Qed.

Lemma add_entries_count (name category : pystr) es articles :
  (List.length (fold_left (add_entry name category) es articles)
   <= List.length articles + List.length es)%nat.
Proof.
  revert articles. induction es as [|e es IH]; intros articles; simpl; [lia|].
  specialize (IH (add_entry name category articles e)).
  assert (List.length (add_entry name category articles e)
          <= S (List.length articles))%nat; [|lia].
  unfold Fetcher.add_entry.
  destruct (e_link e) as [[|c link]|]; try lia.
  rewrite length_app. simpl. lia.
Qed.

Lemma add_entries_links (name category : pystr) es articles :
  map url (fold_left (add_entry name category) es articles)
  = map url articles ++ links es.
Proof.
  revert articles. induction es as [|e es IH]; intros articles; simpl.
  - now rewrite app_nil_r.
  - rewrite IH. unfold Fetcher.add_entry.
    destruct (e_link e) as [[|c link]|]; try reflexivity.
    rewrite map_app. simpl. now rewrite <- app_assoc.
Qed.

End Entries.

(** ** A cache that stays well-formed *)

Section Feeds.
Variable html_unescape : pystr -> pystr.
Variable world : Type.
Variable feedparser_parse :
  pystr -> json -> json -> world -> outcome feed * world.

Abbreviation fetch_feed := (Fetcher.fetch_feed html_unescape feedparser_parse).
Abbreviation fetch_loop := (Fetcher.fetch_loop html_unescape feedparser_parse).

Lemma good_cache_mapping m : good_cache m -> validator_mapping m = true.
Proof.
  intros [ms [-> [_ Hms]]]. simpl. apply forallb_forall.
  rewrite Forall_forall in Hms. intros [k v] Hin.
  destruct (Hms _ Hin) as [Hk [ms' [Hv [_ Hms']]]]. simpl in *.
  rewrite Hk, Hv. simpl. apply forallb_forall.
  rewrite Forall_forall in Hms'. intros [k' v'] Hin'.
  destruct (Hms' _ Hin') as [Hk' [s [Hv' Hs]]]. simpl in *.
  now rewrite Hk', Hv', Hs.
Qed.

Lemma set_validator (key : pystr) (t : option pystr) (fc : pydict pystr json) :
  text_ok key = true ->
  (forall s, t = Some s -> text_ok s = true) ->
  NoDup (map fst fc) /\ Forall (good_member good_string) fc ->
  let fc' := match truthy t with
             | Some s => dict_set str_eqb key (JStr s) fc
             | None => fc
             end in
  NoDup (map fst fc') /\ Forall (good_member good_string) fc'.
Proof.
  intros Hkey Ht [Hnd Hall]. simpl.
  destruct (truthy t) as [s|] eqn:E; [|now split].
  apply truthy_some in E. destruct E as [-> _]. split.
  - now apply (dict_set_nodup str_eqb str_eqb_spec).
  - apply (dict_set_Forall str_eqb str_eqb_spec); [|exact Hall].
    split; [exact Hkey|]. exists s. split; [reflexivity|]. now apply Ht.
Qed.

Hypothesis parse_text :
  forall u e m w fd w',
    feedparser_parse u e m w = (Returns fd, w') -> text_validators fd.

Lemma fetch_feed_good (cfg : feed_config) (cache : json) (w : world) :
  text_ok (feed_url cfg) = true -> good_cache cache ->
  exists articles cache' w',
    fetch_feed cfg cache w = (Returns (articles, cache'), w')
    /\ good_cache cache'.
Proof.
  intros Hurl Hcache. pose proof Hcache as [ms [-> [Hnd Hms]]].
  unfold Fetcher.fetch_feed, cached_validators.
  assert (Hentry : exists fc,
             match dict_get str_eqb (feed_url cfg) ms with
             | None => Returns (ms, [])
             | Some (JObj feed_cache) => Returns (ms, feed_cache)
             | Some _ => Raises (lit "AttributeError")
             end = Returns (ms, fc)
             /\ NoDup (map fst fc) /\ Forall (good_member good_string) fc).
  { destruct (dict_get str_eqb (feed_url cfg) ms) as [v|] eqn:E.
    - apply dict_get_In in E. rewrite Forall_forall in Hms.
      destruct (Hms _ E) as [_ [fc [Hv Hfc]]]. simpl in Hv. subst v.
      now exists fc.
    - exists []. repeat split; constructor. }
  destruct Hentry as [fc [-> Hfc]].
  destruct (feedparser_parse _ _ _ w) as [[fd|e] w1] eqn:Hparse;
    [|now eexists _, _, _].
  destruct (match status fd with Some code => code =? 304 | None => false end);
    [now eexists _, _, _|].
  destruct (parse_text _ _ _ _ _ _ Hparse) as [Hetag Hmod].
  pose proof (set_validator (lit "etag") (etag fd) fc eq_refl Hetag Hfc) as Hfc1.
  simpl in Hfc1.
  pose proof (set_validator (lit "modified") (modified fd) _ eq_refl Hmod Hfc1)
    as Hfc2.
  simpl in Hfc2. destruct Hfc2 as [Hnd2 Hall2].
  match goal with
  | |- context [JObj (dict_set str_eqb (feed_url cfg) (JObj ?fc2) ms)] =>
      assert (Hgood : good_cache (JObj (dict_set str_eqb (feed_url cfg) (JObj fc2) ms)))
  end.
  { eexists. split; [reflexivity|]. split.
    - now apply (dict_set_nodup str_eqb str_eqb_spec).
    - apply (dict_set_Forall str_eqb str_eqb_spec); [|exact Hms].
      split; [exact Hurl|]. simpl. eexists. split; [reflexivity|]. now split. }
  destruct (bozo fd && _); now eexists _, _, _.
Qed.

Lemma fetch_loop_good (feeds : list feed_config) all0 cache w :
  Forall (fun cfg => text_ok (feed_url cfg) = true) feeds ->
  good_cache cache ->
  exists all cache' w',
    fetch_loop feeds all0 cache w = (Returns (all, cache'), w')
    /\ good_cache cache'.
Proof.
  revert all0 cache w. induction feeds as [|cfg feeds IH];
    intros all0 cache w Hurls Hcache; simpl.
  - now eexists _, _, _.
  - inversion Hurls as [|x l Hurl Hurls']; subst.
    destruct (fetch_feed_good cfg cache w Hurl Hcache)
      as (articles & cache1 & w1 & -> & Hcache1).
    now apply IH.
Qed.

End Feeds.
End FetchFacts.

Module FeedSpec.
Import Json Fetcher FetchFacts.

(** X15.  A date that [parse_published_date] returns is a [datetime] of
    the years 1 to 9999, made of the entry's [published_parsed] or of
    its [updated_parsed]; it returns none only when neither of the two
    makes a date. *)
Theorem parse_published_date_gives_a_date :
  forall e : entry,
    match parse_published_date e with
    | Some d =>
        valid_datetime d = true
        /\ exists t, (e_published_parsed e = Some t
                      \/ e_updated_parsed e = Some t)
                     /\ make_datetime t = Returns d
    | None =>
        forall t, e_published_parsed e = Some t \/ e_updated_parsed e = Some t ->
                  make_datetime t = Raises (lit "ValueError")
    end.
Proof.
  intros e. destruct (parse_published_date e) as [d|] eqn:E.
  - split; [now apply parse_published_date_valid with e|].
    unfold parse_published_date in E.
    destruct (e_published_parsed e) as [t|], (e_updated_parsed e) as [t'|];
      try destruct (make_datetime t) as [d1|] eqn:E1;
      try destruct (make_datetime t') as [d2|] eqn:E2;
      inversion E; subst; eauto.
  - unfold parse_published_date in E.
    assert (Hraise : forall t e0, make_datetime t = Raises e0 ->
                                  make_datetime t = Raises (lit "ValueError")).
    { intros t e0. unfold make_datetime. destruct (_ && _); [discriminate|auto]. }
    destruct (e_published_parsed e) as [t|], (e_updated_parsed e) as [t'|];
      try destruct (make_datetime t) as [d1|] eqn:E1;
      try destruct (make_datetime t') as [d2|] eqn:E2;
      try discriminate E;
      intros t0 [H|H]; inversion H; subst; eauto.
Qed.

Section Feeds.
Variable html_unescape : pystr -> pystr.
Variable world : Type.
Variable feedparser_parse :
  pystr -> json -> json -> world -> outcome feed * world.

Abbreviation fetch_feed := (Fetcher.fetch_feed html_unescape feedparser_parse).
Abbreviation fetch_loop := (Fetcher.fetch_loop html_unescape feedparser_parse).
Abbreviation add_entry := (Fetcher.add_entry html_unescape).
Abbreviation conditional_request := (Fetcher.conditional_request feedparser_parse).

(** X16.  Every article [fetch_feed] returns has a link that is not
    empty, the name and the category of its source ("general" when the
    source names none), a content of at most 3003 characters and, when
    it has a date, one of the years 1 to 9999. *)
Theorem fetch_feed_builds_well_formed_articles :
  forall (cfg : feed_config) (cache : json) (w w' : world) articles cache',
    fetch_feed cfg cache w = (Returns (articles, cache'), w') ->
    Forall (well_formed_article cfg) articles.
Proof.
  intros cfg cache w w' articles cache'. unfold Fetcher.fetch_feed.
  destruct (cached_validators cache (feed_url cfg)) as [[c fc]|e0];
    [|discriminate].
  destruct (feedparser_parse _ _ _ w) as [[fd|e] w1].
  - destruct (match status fd with Some code => code =? 304 | None => false end).
    + intros H. inversion H. constructor.
    + destruct (bozo fd && _); intros H; inversion H; subst; [constructor|].
      apply add_entries_well_formed. constructor.
  - intros H. inversion H. constructor.
Qed.

(** X17.  When the answer to the conditional request is a feed whose
    status is not 304, [fetch_feed] returns one article for each entry
    that has a link, in the order of the feed; an entry without link is
    passed over. *)
Theorem fetch_feed_returns_the_linked_entries :
  forall (cfg : feed_config) (cache : json) (w w' : world) (fd : feed),
    conditional_request cfg cache w = Returns (Returns fd, w') ->
    status fd <> Some 304 ->
    exists articles cache',
      fetch_feed cfg cache w = (Returns (articles, cache'), w')
      /\ map url articles = links (entries fd).
Proof.
  intros cfg cache w w' fd Hreq Hstatus.
  unfold Fetcher.conditional_request in Hreq. unfold Fetcher.fetch_feed.
  destruct (cached_validators cache (feed_url cfg)) as [[c fc]|e0];
    [|discriminate].
  destruct (feedparser_parse _ _ _ w) as [answer w1].
  inversion Hreq; subst.
  assert (H304 : match status fd with Some code => code =? 304 | None => false end
                 = false).
  { destruct (status fd) as [code|]; [|reflexivity].
    apply Z.eqb_neq. congruence. }
  rewrite H304.
  destruct (bozo fd && _) eqn:Hbozo; eexists _, _; (split; [reflexivity|]).
  - destruct (entries fd); [reflexivity|].
    now rewrite andb_false_r in Hbozo.
  - apply (add_entries_links html_unescape).
Qed.

(** X18.  [fetch_feed] changes the validators of its own url only: what
    the cache holds under every other url stays, and no url leaves the
    cache. *)
Theorem fetch_feed_keeps_the_other_validators :
  forall (cfg : feed_config) (c : pydict pystr json) (w w' : world)
         articles cache',
    fetch_feed cfg (JObj c) w = (Returns (articles, cache'), w') ->
    exists c',
      cache' = JObj c'
      /\ (forall u, u <> feed_url cfg ->
                    dict_get str_eqb u c' = dict_get str_eqb u c)
      /\ incl (map fst c) (map fst c').
Proof.
  intros cfg c w w' articles cache'. unfold Fetcher.fetch_feed.
  assert (Hsame : exists c', JObj c = JObj c'
             /\ (forall u, u <> feed_url cfg ->
                           dict_get str_eqb u c' = dict_get str_eqb u c)
             /\ incl (map fst c) (map fst c')).
  { exists c. split; [reflexivity|]. split; [reflexivity | apply incl_refl]. }
  destruct (cached_validators (JObj c) (feed_url cfg)) as [[c0 fc]|e0] eqn:Hcv;
    [|discriminate].
  assert (c0 = c); [|subst c0].
  { simpl in Hcv. destruct (dict_get str_eqb (feed_url cfg) c) as [[]|];
      now inversion Hcv. }
  destruct (feedparser_parse _ _ _ w) as [[fd|e] w1];
    [|intros H; inversion H; subst; exact Hsame].
  destruct (match status fd with Some code => code =? 304 | None => false end);
    [intros H; inversion H; subst; exact Hsame|].
  match goal with
  | |- context [JObj (dict_set str_eqb (feed_url cfg) ?v c)] =>
      assert (Hset : exists c', JObj (dict_set str_eqb (feed_url cfg) v c) = JObj c'
                /\ (forall u, u <> feed_url cfg ->
                              dict_get str_eqb u c' = dict_get str_eqb u c)
                /\ incl (map fst c) (map fst c'))
  end.
  { eexists. split; [reflexivity|]. split.
    - intros u Hu. now apply (dict_get_set_other str_eqb str_eqb_spec).
    - intros u Hin.
      destruct (in_dec (list_eq_dec N.eq_dec) (feed_url cfg) (map fst c))
        as [Hold|Hnew].
      + now rewrite (dict_set_keys str_eqb str_eqb_spec).
      + rewrite (dict_set_fresh str_eqb str_eqb_spec) by exact Hnew.
        rewrite map_app. apply in_or_app. now left. }
  destruct (bozo fd && _); intros H; inversion H; subst; exact Hset.
Qed.

Variable float_repr : float -> pystr.
Variable float_of_str : pystr -> float.
Variable int_max_str_digits : nat.
Variable decoder_depth : nat.
Variable encoder_depth : nat.

Abbreviation fetch_all_feeds :=
  (Fetcher.fetch_all_feeds html_unescape feedparser_parse float_repr
                           float_of_str int_max_str_digits decoder_depth
                           encoder_depth).
Abbreviation load_cache :=
  (Fetcher.load_cache float_of_str int_max_str_digits decoder_depth).
Abbreviation save_cache :=
  (Fetcher.save_cache float_repr int_max_str_digits encoder_depth).

Lemma load_cache_good (f : file) (m : json) :
  load_cache f = Returns m -> validator_mapping m = true -> good_cache m.
Proof.
  intros Hload Hshape. apply CacheSpec.validator_mapping_good; [exact Hshape|].
  revert Hload. unfold Fetcher.load_cache.
  destruct f as [|text|]; [| |discriminate].
  - intros H. inversion H. repeat constructor.
  - destruct (Json.loads float_of_str int_max_str_digits decoder_depth text)
      as [v|e] eqn:E.
    + intros H. inversion H; subst.
      now apply (JsonFacts.loads_distinct float_of_str int_max_str_digits
                   decoder_depth text).
    + destruct (str_eqb e Json.JSONDecodeError); [|discriminate].
      intros H. inversion H. repeat constructor.
Qed.

(** X19.  When [load_cache] returns a validator mapping (the cache file
    is absent, holds text that is no JSON, or holds such a mapping), the
    interpreter lets the decoder and the encoder go two containers deep,
    the urls of the sources are well-formed text and so are the
    validators the parser hands back, then [fetch_all_feeds] returns,
    the cache it saves is a validator mapping, and the next [load_cache]
    returns it as it was written.  A cache file that makes [load_cache]
    raise is outside this statement. *)
Theorem fetch_all_feeds_saves_what_it_loads_next :
  forall (feeds_config : list feed_config) (f : file) (w : world) (m : json),
    load_cache f = Returns m ->
    validator_mapping m = true ->
    (2 <= decoder_depth)%nat ->
    (2 <= encoder_depth)%nat ->
    Forall (fun cfg => text_ok (feed_url cfg) = true) feeds_config ->
    (forall u e m w0 fd w1,
        feedparser_parse u e m w0 = (Returns fd, w1) -> text_validators fd) ->
    exists all_articles cache saved w',
      fetch_all_feeds feeds_config f w = (Returns all_articles, saved, w')
      /\ save_cache cache = Returns saved
      /\ validator_mapping cache = true
      /\ load_cache saved = Returns cache.
Proof.
  intros feeds f w m Hload Hshape Hdec Henc Hurls Hparse.
  destruct (fetch_loop_good html_unescape world feedparser_parse Hparse
              feeds [] m w Hurls (load_cache_good f m Hload Hshape))
    as (all & cache & w' & Hloop & Hgood).
  destruct (CacheSpec.save_then_load float_repr float_of_str
              int_max_str_digits decoder_depth encoder_depth cache
              Hgood Hdec Henc) as [Hsave Hnext].
  exists all, cache, (Text (Json.dumps float_repr cache)), w'.
  unfold Fetcher.fetch_all_feeds. rewrite Hload, Hloop, Hsave.
  split; [reflexivity|]. split; [reflexivity|].
  split; [now apply good_cache_mapping | exact Hnext].
Qed.

(** X20.  When the cache file holds JSON that is no dictionary (a list,
    a number, a string), fetching any source raises an AttributeError
    before anything is requested, and the cache file is left as it
    was. *)
Theorem fetch_all_feeds_needs_a_dictionary :
  forall (cfg : feed_config) (rest : list feed_config) (f : file) (w : world)
         (v : json),
    load_cache f = Returns v ->
    (forall members, v <> JObj members) ->
    fetch_all_feeds (cfg :: rest) f w = (Raises (lit "AttributeError"), f, w).
Proof.
  intros cfg rest f w v Hload Hshape.
  unfold Fetcher.fetch_all_feeds. rewrite Hload. simpl.
  unfold Fetcher.fetch_feed.
  destruct v as [| | | | | |members]; try reflexivity.
  now destruct (Hshape members).
Qed.

End Feeds.

(** X21.  When the cutoff, [now] minus [max_age_hours] hours, is no
    [datetime], [filter_by_age] raises an OverflowError, whatever the
    articles. *)
Theorem filter_by_age_raises_out_of_range :
  forall (now : datetime) (articles : list Article) (max_age_hours : Z),
    valid_datetime (now - max_age_hours * us_per_hour) = false ->
    filter_by_age now articles max_age_hours = Raises (lit "OverflowError").
Proof.
  intros now articles h Hcut. unfold filter_by_age, timedelta_hours.
  destruct (_ && _); [|reflexivity].
  unfold datetime_sub. now rewrite Hcut.
Qed.

(** X22.  A wider window keeps what a narrower one keeps: an article
    that [filter_by_age] returns for some number of hours is returned
    for every larger number for which it returns at all; and what it
    returns are articles of its input. *)
Theorem filter_by_age_grows_with_the_window :
  forall (now : datetime) (articles : list Article) (h1 h2 : Z) out1 out2,
    h1 <= h2 ->
    filter_by_age now articles h1 = Returns out1 ->
    filter_by_age now articles h2 = Returns out2 ->
    incl out1 out2 /\ incl out2 articles.
Proof.
  intros now articles h1 h2 out1 out2 Hle. unfold filter_by_age.
  unfold timedelta_hours, datetime_sub.
  destruct (_ && _); [|discriminate].
  destruct (valid_datetime (now - h1 * us_per_hour)); [|discriminate].
  destruct (_ && _); [|discriminate].
  destruct (valid_datetime (now - h2 * us_per_hour)); [|discriminate].
  rewrite !AgeFilterSpec.age_loop_is_filter. simpl.
  intros H1 H2. inversion H1; inversion H2; subst. split.
  - intros a Ha. apply filter_In in Ha. destruct Ha as [Hin Hrecent].
    apply filter_In. split; [exact Hin|].
    destruct (published a) as [p|]; [|reflexivity].
    apply Z.leb_le in Hrecent. apply Z.leb_le.
    unfold us_per_hour in *. lia.
  - intros a Ha. apply filter_In in Ha. tauto.
Qed.

End FeedSpec.

Module FeedSamples.
Import Json Fetcher FetchFacts FeedSpec.

Lemma fetch_feed_builds_well_formed_articles_witness :
  Forall (well_formed_article Sample.up)
    [mkArticle (lit "First") (lit "https://example.org/1") (lit "one") None
               (lit "Example") (lit "general");
     mkArticle default_title (lit "https://example.org/2") [] None
               (lit "Example") (lit "general")].
Proof.
  apply (fetch_feed_builds_well_formed_articles Sample.no_entities nat
           Sample.web Sample.up (JObj []) 0%nat 1%nat _ Sample.seen_cache).
  vm_compute. reflexivity.
Defined.

Lemma fetch_feed_returns_the_linked_entries_witness :
  exists articles cache',
    Fetcher.fetch_feed Sample.no_entities Sample.web Sample.up (JObj []) 0%nat
    = (Returns (articles, cache'), 1%nat)
    /\ map url articles
       = [lit "https://example.org/1"; lit "https://example.org/2"].
Proof.
  apply (fetch_feed_returns_the_linked_entries Sample.no_entities nat
           Sample.web Sample.up (JObj []) 0%nat 1%nat Sample.feed_full).
  - reflexivity.
  - discriminate.
Defined.

Lemma fetch_feed_keeps_the_other_validators_witness :
  exists c',
    JObj [(lit "https://b.example/", JObj []);
          (lit "https://example.org/rss", JObj [(lit "etag", JStr (lit "v1"))])]
    = JObj c'
    /\ (forall u, u <> feed_url Sample.up ->
                  dict_get str_eqb u c'
                  = dict_get str_eqb u [(lit "https://b.example/", JObj [])])
    /\ incl (map fst [(lit "https://b.example/", JObj [])]) (map fst c').
Proof.
  apply (fetch_feed_keeps_the_other_validators Sample.no_entities nat
           Sample.web Sample.up [(lit "https://b.example/", JObj [])]
           0%nat 1%nat
           [mkArticle (lit "First") (lit "https://example.org/1") (lit "one")
                      None (lit "Example") (lit "general");
            mkArticle default_title (lit "https://example.org/2") [] None
                      (lit "Example") (lit "general")]).
  vm_compute. reflexivity.
Defined.

Lemma web_text_validators :
  forall u e m w0 fd w1,
    Sample.web u e m w0 = (Returns fd, w1) -> text_validators fd.
Proof.
  intros u e m w0 fd w1. unfold Sample.web.
  destruct (str_eqb u _); [discriminate|].
  destruct e; intros H; inversion H; subst; split; intros t Ht;
    inversion Ht; reflexivity.
Qed.

Lemma fetch_all_feeds_saves_what_it_loads_next_witness :
  exists all_articles cache saved w',
    Fetcher.fetch_all_feeds Sample.no_entities Sample.web Sample.no_float_repr
      Sample.no_float Sample.max_digits Sample.depth Sample.depth
      [Sample.up; Sample.down] Absent 0%nat
    = (Returns all_articles, saved, w')
    /\ Fetcher.save_cache Sample.no_float_repr Sample.max_digits Sample.depth
         cache = Returns saved
    /\ validator_mapping cache = true
    /\ Fetcher.load_cache Sample.no_float Sample.max_digits Sample.depth saved
       = Returns cache.
Proof.
  apply (fetch_all_feeds_saves_what_it_loads_next Sample.no_entities nat
           Sample.web Sample.no_float_repr Sample.no_float Sample.max_digits
           Sample.depth Sample.depth
           [Sample.up; Sample.down] Absent 0%nat (JObj [])).
  - reflexivity.
  - reflexivity.
  - unfold Sample.depth. lia.
  - unfold Sample.depth. lia.
  - repeat constructor.
  - exact web_text_validators.
Defined.

Lemma fetch_all_feeds_needs_a_dictionary_witness :
  Fetcher.fetch_all_feeds Sample.no_entities Sample.web Sample.no_float_repr
    Sample.no_float Sample.max_digits Sample.depth Sample.depth
    [Sample.up; Sample.down] (Text (lit "[1, 2]")) 0%nat
  = (Raises (lit "AttributeError"), Text (lit "[1, 2]"), 0%nat).
Proof.
  apply (fetch_all_feeds_needs_a_dictionary Sample.no_entities nat Sample.web
           Sample.no_float_repr Sample.no_float Sample.max_digits
           Sample.depth Sample.depth Sample.up [Sample.down]
           (Text (lit "[1, 2]")) 0%nat (JArr [JInt 1; JInt 2])).
  - vm_compute. reflexivity.
  - intros members. discriminate.
Defined.

Lemma filter_by_age_raises_out_of_range_witness :
  filter_by_age Sample.noon [] 18000000 = Raises (lit "OverflowError").
Proof.
  apply (filter_by_age_raises_out_of_range Sample.noon [] 18000000).
  reflexivity.
Defined.

Lemma filter_by_age_grows_with_the_window_witness :
  incl [Sample.at_cutoff; Sample.post2]
       [Sample.before_cutoff; Sample.at_cutoff; Sample.post2]
  /\ incl [Sample.before_cutoff; Sample.at_cutoff; Sample.post2]
          [Sample.before_cutoff; Sample.at_cutoff; Sample.post2].
Proof.
  apply (filter_by_age_grows_with_the_window Sample.noon
           [Sample.before_cutoff; Sample.at_cutoff; Sample.post2] 24 48).
  - lia.
  - reflexivity.
  - reflexivity.
Defined.

End FeedSamples.

(* ================================================================== *)
(** * main.py: the references of the configuration file *)
(* ================================================================== *)

Module ConfigFacts.
Import Config.

Section LoadConfig.
Variable isalnum : N -> bool.

Abbreviation is_word := (Config.is_word isalnum).
Abbreviation span_word := (Config.span_word isalnum).
Abbreviation substitute := (Config.substitute isalnum).

Lemma span_word_app (s : pystr) :
  s = fst (span_word s) ++ snd (span_word s)
  /\ forallb is_word (fst (span_word s)) = true
  /\ match snd (span_word s) with
     | [] => True
     | c :: _ => is_word c = false
     end.
Proof.
  induction s as [|c s [IHapp [IHrun IHrest]]]; simpl; [tauto|].
  destruct (is_word c) eqn:E; simpl; [|tauto].
  destruct (Config.span_word isalnum s) as [run rest]; simpl in *.
  rewrite E. split; [now f_equal|]. now split.
Qed.

(** A name, and what is not a name right behind it. *)
Lemma span_word_name (var_name rest : pystr) :
  forallb is_word var_name = true ->
  match rest with [] => True | c :: _ => is_word c = false end ->
  span_word (var_name ++ rest) = (var_name, rest).
Proof.
  intros Hname Hrest. induction var_name as [|c n IH]; simpl.
  - destruct rest as [|c rest]; [reflexivity|].
    cbn [Config.span_word]. now rewrite Hrest.
  - simpl in Hname. apply andb_true_iff in Hname. destruct Hname as [Hc Hn].
    cbn [Config.span_word]. rewrite Hc, IH by exact Hn. reflexivity.
Qed.

Lemma span_word_rest_length (s : pystr) :
  (List.length (snd (span_word s)) <= List.length s)%nat.
Proof.
  destruct (span_word_app s) as [Happ _].
  rewrite Happ at 2. rewrite length_app. lia.
Qed.

(** The scan ends within as many steps as the text has characters. *)
Lemma substitute_fuel (environ : pydict pystr pystr) (fuel : nat) :
  forall (s : pystr) (more : nat),
    (List.length s <= fuel)%nat ->
    substitute (fuel + more) environ s = substitute fuel environ s.
Proof.
  induction fuel as [|fuel IH]; intros s more Hlen.
  - destruct s; [|simpl in Hlen; lia]. now destruct more.
  - destruct s as [|c s]; [reflexivity|]. simpl in Hlen.
    cbn [Nat.add Config.substitute].
    rewrite IH by lia.
    destruct (N.eqb c dollar); [|reflexivity].
    destruct s as [|b s']; [reflexivity|].
    destruct (N.eqb b lbrace); [|reflexivity].
    pose proof (span_word_rest_length s') as Hshort.
    destruct (Config.span_word isalnum s') as [[|x n] [|e rest]];
      try reflexivity.
    destruct (N.eqb e rbrace); [|reflexivity].
    rewrite IH; [reflexivity|]. simpl in Hlen, Hshort. lia.
Qed.

Lemma substitute_enough (environ : pydict pystr pystr) (s : pystr) (fuel : nat) :
  (List.length s <= fuel)%nat ->
  substitute fuel environ s = substitute (List.length s) environ s.
Proof.
  intros Hlen.
  replace fuel with (List.length s + (fuel - List.length s))%nat by lia.
  now apply substitute_fuel.
Qed.

Lemma dollar_no_word : is_word dollar = false.
Proof. reflexivity. Qed.

Lemma rbrace_no_word : is_word rbrace = false.
Proof. reflexivity. Qed.

Lemma substitute_cons (environ : pydict pystr pystr) (c : N) (s : pystr) :
  N.eqb c dollar = false ->
  substitute (S (List.length s)) environ (c :: s)
  = c :: substitute (List.length s) environ s.
Proof. intros Hc. cbn [Config.substitute]. now rewrite Hc. Qed.

(** A dollar sign stops whatever the scan was at: the text before it is
    handled on its own. *)
Lemma substitute_before_dollar (environ : pydict pystr pystr) (b : pystr)
      (n : nat) :
  forall a : pystr,
    (List.length a <= n)%nat ->
    substitute (List.length (a ++ dollar :: b)) environ (a ++ dollar :: b)
    = substitute (List.length a) environ a
      ++ substitute (List.length (dollar :: b)) environ (dollar :: b).
Proof.
  induction n as [|n IH]; intros a Hlen.
  - destruct a; [reflexivity | simpl in Hlen; lia].
  - destruct a as [|c a']; [reflexivity|]. simpl in Hlen.
    assert (Hun : c :: substitute (List.length (a' ++ dollar :: b)) environ
                                  (a' ++ dollar :: b)
                  = (c :: substitute (List.length a') environ a')
                    ++ substitute (List.length (dollar :: b)) environ
                                  (dollar :: b)).
    { rewrite IH by lia. reflexivity. }
    cbn [app List.length Config.substitute].
    destruct (N.eqb c dollar) eqn:Hc; [|exact Hun].
    destruct a' as [|x a'']; [exact Hun|].
    cbn [app]. destruct (N.eqb x lbrace) eqn:Hx; [|exact Hun].
    pose proof (span_word_app a'') as [Happ [Hrun Hrest]].
    pose proof (span_word_rest_length a'') as Hshort.
    destruct (Config.span_word isalnum a'') as [run rest] eqn:Hspan.
    simpl in Happ, Hrun, Hrest, Hshort.
    destruct rest as [|y r'].
    + rewrite app_nil_r in Happ. subst a''.
      rewrite (span_word_name run (dollar :: b) Hrun dollar_no_word).
      destruct run as [|z run]; exact Hun.
    + assert (Hlhs : Config.span_word isalnum (a'' ++ dollar :: b)
                     = (run, y :: r' ++ dollar :: b)).
      { rewrite Happ at 1. rewrite <- app_assoc.
        now apply span_word_name. }
      rewrite Hlhs.
      destruct run as [|z run]; [exact Hun|].
      destruct (N.eqb y rbrace); [|exact Hun].
      rewrite <- app_assoc. f_equal.
      assert (Hsize : List.length a''
                      = (S (List.length run) + S (List.length r'))%nat).
      { rewrite Happ, length_app. reflexivity. }
      rewrite (substitute_enough environ (r' ++ dollar :: b)),
              (substitute_enough environ r').
      * apply IH. simpl in Hlen. lia.
      * simpl. lia.
      * rewrite !length_app. simpl. rewrite length_app. simpl. lia.
Qed.

Lemma substitute_reference (environ : pydict pystr pystr) (var_name b : pystr) :
  var_name <> [] -> forallb is_word var_name = true ->
  substitute (List.length (reference var_name ++ b)) environ
             (reference var_name ++ b)
  = replace_env environ var_name
    ++ substitute (List.length b) environ b.
Proof.
  intros Hne Hname. unfold reference.
  rewrite <- !app_comm_cons, <- app_assoc.
  change (List.length (dollar :: lbrace :: var_name ++ [rbrace] ++ b))
    with (S (List.length (lbrace :: var_name ++ [rbrace] ++ b))).
  remember (List.length (lbrace :: var_name ++ [rbrace] ++ b)) as fuel
    eqn:Hfuel.
  cbn [Config.substitute].
  change (N.eqb dollar dollar) with true.
  change (N.eqb lbrace lbrace) with true. cbn iota.
  change ([rbrace] ++ b) with (rbrace :: b).
  rewrite (span_word_name var_name (rbrace :: b) Hname rbrace_no_word).
  destruct var_name as [|x n]; [congruence|].
  change (N.eqb rbrace rbrace) with true. cbn iota.
  f_equal. apply substitute_enough.
  subst fuel. simpl. rewrite length_app. simpl. lia.
Qed.

Lemma substitute_plain (environ : pydict pystr pystr) (s : pystr) :
  ~ In dollar s -> substitute (List.length s) environ s = s.
Proof.
  induction s as [|c s IH]; intros Hno; [reflexivity|].
  cbn [List.length]. rewrite substitute_cons.
  - f_equal. apply IH. simpl in Hno. tauto.
  - apply N.eqb_neq. simpl in Hno. intros ->. tauto.
Qed.

End LoadConfig.
End ConfigFacts.

Module ConfigSpec.
Import Config ConfigFacts.

Section LoadConfig.
Variable isalnum : N -> bool.
Variable config : Type.
Variable yaml_safe_load : pystr -> outcome config.

Abbreviation load_config := (Config.load_config isalnum yaml_safe_load).
Abbreviation substitute := (Config.substitute isalnum).

(** X23.  [load_config] puts the value of an environment variable, or
    nothing when the variable is not set, in the place of a reference
    [${NAME}] to it, whatever stands before and behind the reference;
    the value goes in as it is (a reference inside it is not followed),
    and the texts before and behind are handled on their own. *)
Theorem load_config_follows_a_reference :
  forall (environ : pydict pystr pystr) (before var_name behind : pystr),
    var_name <> [] ->
    forallb (Config.is_word isalnum) var_name = true ->
    load_config (Returns (before ++ reference var_name ++ behind)) environ
    = yaml_safe_load
        (substitute (List.length before) environ before
         ++ replace_env environ var_name
         ++ substitute (List.length behind) environ behind).
Proof.
  intros environ before var_name behind Hne Hname.
  unfold Config.load_config. f_equal.
  change (reference var_name ++ behind)
    with (dollar :: (lbrace :: var_name ++ [rbrace]) ++ behind).
  rewrite (substitute_before_dollar isalnum environ _
             (List.length before) before (le_n _)).
  f_equal.
  now apply (substitute_reference isalnum environ var_name behind).
Qed.

(** X24.  A configuration text without dollar sign goes to the YAML
    parser as it is, and what the parser answers is what [load_config]
    answers. *)
Theorem load_config_leaves_plain_text :
  forall (environ : pydict pystr pystr) (content : pystr),
    ~ In dollar content ->
    load_config (Returns content) environ = yaml_safe_load content.
Proof.
  intros environ content Hplain. unfold Config.load_config.
  now rewrite (substitute_plain isalnum).
Qed.

End LoadConfig.

Lemma load_config_follows_a_reference_witness :
  Config.load_config Sample.ascii_only Sample.yaml_text
    (Returns (lit "token: ${TOKEN}, chat: ${CHAT}"))
    [(lit "TOKEN", lit "a${CHAT}b")]
  = Returns (lit "token: a${CHAT}b, chat: ").
Proof.
  exact (load_config_follows_a_reference Sample.ascii_only pystr
           Sample.yaml_text [(lit "TOKEN", lit "a${CHAT}b")]
           (lit "token: ") (lit "TOKEN") (lit ", chat: ${CHAT}")
           ltac:(discriminate) eq_refl).
Defined.

Lemma load_config_leaves_plain_text_witness :
  Config.load_config Sample.ascii_only Sample.yaml_text
    (Returns (lit "feeds: []")) [(lit "TOKEN", lit "abc")]
  = Returns (lit "feeds: []").
Proof.
  apply (load_config_leaves_plain_text Sample.ascii_only pystr
           Sample.yaml_text [(lit "TOKEN", lit "abc")] (lit "feeds: []")).
  vm_compute. intuition discriminate.
Defined.

End ConfigSpec.
